(** * Simulador de planta Noel: the scenario engine of [stream.py]

    A shallow embedding of the computational core of [src/stream.py]
    (parameter resolution, material base table, [calcular_escenario],
    the run of the three scenarios and the comparison table), followed
    by the properties stated about it.

    Numbers.  The script computes with pandas [float64] columns.  A cell
    is modelled as an exact rational or one of the three special values
    of IEEE arithmetic ([inf], [-inf], [nan]); the arithmetic below is
    the IEEE one on the special values and exact on rationals.  Rounding
    and the sign of zero are not modelled. *)

From Stdlib Require Import QArith Qcanon List String Ascii Bool ZArith Lia.
From Stdlib Require Import Permutation Sorted OrdersEx Lqa.
Import ListNotations.

Set Implicit Arguments.

(* ================================================================= *)
(** ** Floating-point cells *)

Inductive num : Type :=
| Fin (q : Qc)
| PInf
| NInf
| NaN.

Declare Scope num_scope.
Delimit Scope num_scope with num.
Bind Scope num_scope with num.

Definition qz (z : Z) : Qc := Q2Qc (inject_Z z).
Definition nz (z : Z) : num := Fin (qz z).
Definition nq (q : Q) : num := Fin (Q2Qc q).

Definition isnan (x : num) : bool :=
  match x with NaN => true | _ => false end.

Definition is_fin (x : num) : bool :=
  match x with Fin _ => true | _ => false end.

(** Sign of a cell as a comparison with zero ([Eq] also stands for
    "no sign": zero and [nan]). *)
Definition sgn (x : num) : comparison :=
  match x with
  | Fin q => (q ?= 0)%Qc
  | PInf => Gt
  | NInf => Lt
  | NaN => Eq
  end.

Definition sgn_mul (a b : comparison) : comparison :=
  match a, b with
  | Eq, _ | _, Eq => Eq
  | Lt, Lt | Gt, Gt => Gt
  | _, _ => Lt
  end.

(** The infinity of a given sign; a product [inf * 0] has no sign and
    is [nan]. *)
Definition inf_sgn (c : comparison) : num :=
  match c with Gt => PInf | Lt => NInf | Eq => NaN end.

Definition nopp (x : num) : num :=
  match x with
  | Fin q => Fin (- q)%Qc
  | PInf => NInf
  | NInf => PInf
  | NaN => NaN
  end.

Definition nadd (x y : num) : num :=
  match x, y with
  | Fin a, Fin b => Fin (a + b)%Qc
  | NaN, _ | _, NaN => NaN
  | PInf, NInf | NInf, PInf => NaN
  | PInf, _ | _, PInf => PInf
  | NInf, _ | _, NInf => NInf
  end.

Definition nsub (x y : num) : num := nadd x (nopp y).

Definition nmul (x y : num) : num :=
  match x, y with
  | Fin a, Fin b => Fin (a * b)%Qc
  | NaN, _ | _, NaN => NaN
  | _, _ => inf_sgn (sgn_mul (sgn x) (sgn y))
  end.

(** True division of numpy and pandas: a division by zero does not
    raise, it gives [inf], [-inf] or (for [0/0]) [nan]. *)
Definition ndiv (x y : num) : num :=
  match x, y with
  | NaN, _ | _, NaN => NaN
  | Fin a, Fin b =>
      match (b ?= 0)%Qc with
      | Eq => inf_sgn (a ?= 0)%Qc
      | _ => Fin (a / b)%Qc
      end
  | Fin _, _ => Fin 0%Qc
  | _, Fin b =>
      match (b ?= 0)%Qc with
      | Eq => x
      | c => inf_sgn (sgn_mul (sgn x) c)
      end
  | _, _ => NaN
  end.

Infix "+" := nadd : num_scope.
Infix "-" := nsub : num_scope.
Infix "*" := nmul : num_scope.
Infix "/" := ndiv : num_scope.

(** IEEE comparisons: every comparison with [nan] is false. *)
Definition nlt (x y : num) : bool :=
  match x, y with
  | NaN, _ | _, NaN => false
  | Fin a, Fin b => match (a ?= b)%Qc with Lt => true | _ => false end
  | _, NInf => false
  | PInf, _ => false
  | _, _ => true
  end.

Definition nle (x y : num) : bool :=
  match x, y with
  | NaN, _ | _, NaN => false
  | Fin a, Fin b => match (a ?= b)%Qc with Gt => false | _ => true end
  | NInf, _ => true
  | _, PInf => true
  | _, _ => false
  end.

Definition ngt (x y : num) : bool := nlt y x.

Definition neqb (x y : num) : bool :=
  match x, y with
  | Fin a, Fin b => match (a ?= b)%Qc with Eq => true | _ => false end
  | PInf, PInf | NInf, NInf => true
  | _, _ => false
  end.

(** Equality of cells is decidable by computation. *)
Definition num_same (x y : num) : bool :=
  match x, y with
  | NaN, NaN => true
  | _, _ => neqb x y
  end.

Infix "<?" := nlt : num_scope.
Infix "<=?" := nle : num_scope.
Infix ">?" := ngt : num_scope.

Definition cero : num := Fin 0%Qc.
Definition uno : num := Fin 1%Qc.

(** Python's builtins [max(a, b)] and [min(a, b)]: the first argument is
    kept unless the second compares strictly better. *)
Definition py_max (a b : num) : num := if (b >? a)%num then b else a.
Definition py_min (a b : num) : num := if (b <? a)%num then b else a.

(** pandas: [Series.fillna(v)], [Series.replace(0, 1)],
    [Series.clip(lower=0)], and the sums of [Series.sum()] and
    [GroupBy.sum()], which skip [nan] cells and start from 0. *)
Definition fillna (v x : num) : num := if isnan x then v else x.

Definition replace_0_1 (x : num) : num := if neqb x cero then uno else x.

Definition clip_lower_0 (x : num) : num := if (x <? cero)%num then cero else x.

Definition nansum (l : list num) : num :=
  fold_left (fun acc x => if isnan x then acc else (acc + x)%num) l cero.

(** [GroupBy.first()]: the first cell of the group that is not null. *)
Definition gb_first (l : list num) : num :=
  match filter (fun x => negb (isnan x)) l with
  | x :: _ => x
  | [] => NaN
  end.

(* ================================================================= *)
(** ** Strings: [str.strip], [str.replace] and the builtin [float] *)

Open Scope string_scope.

(** The ASCII characters [str.strip()] removes.  Strings are byte
    strings here; whitespace outside ASCII is not recognised. *)
Definition is_space (c : ascii) : bool :=
  let n := N_of_ascii c in
  ((9 <=? n) && (n <=? 13) || (28 <=? n) && (n <=? 32))%N.

Fixpoint lstrip (s : string) : string :=
  match s with
  | String c s' => if is_space c then lstrip s' else s
  | EmptyString => EmptyString
  end.

Fixpoint rstrip (s : string) : string :=
  match s with
  | EmptyString => EmptyString
  | String c s' =>
      match rstrip s' with
      | EmptyString => if is_space c then EmptyString else String c EmptyString
      | r => String c r
      end
  end.

Definition strip (s : string) : string := rstrip (lstrip s).

(** [valor.replace(',', '.')] *)
Fixpoint replace_coma (s : string) : string :=
  match s with
  | EmptyString => EmptyString
  | String c s' =>
      String (if Ascii.eqb c "," then "."%char else c) (replace_coma s')
  end.

Definition digit_of (c : ascii) : option Z :=
  let n := N_of_ascii c in
  if ((48 <=? n) && (n <=? 57))%N then Some (Z.of_N (n - 48)) else None.

Definition lower (c : ascii) : ascii :=
  let n := N_of_ascii c in
  if ((65 <=? n) && (n <=? 90))%N then ascii_of_N (n + 32) else c.

Fixpoint lower_str (s : string) : string :=
  match s with
  | EmptyString => EmptyString
  | String c s' => String (lower c) (lower_str s')
  end.

(** [digitpart ::= digit (["_"] digit)*]: the value read so far, the
    number of digits read and the unread rest. *)
Fixpoint digitpart (s : string) (acc : Z) (n : nat) : Z * nat * string :=
  match s with
  | EmptyString => (acc, n, s)
  | String c s' =>
      match digit_of c with
      | Some d => digitpart s' (10 * acc + d)%Z (S n)
      | None =>
          match n, Ascii.eqb c "_", s' with
          | S _, true, String c' _ =>
              match digit_of c' with
              | Some _ => digitpart s' acc n
              | None => (acc, n, s)
              end
          | _, _, _ => (acc, n, s)
          end
      end
  end.

Definition parse_sign (s : string) : bool * string :=
  match s with
  | String "-" s' => (true, s')
  | String "+" s' => (false, s')
  | _ => (false, s)
  end.

Definition decimal (neg : bool) (m : Z) (e : Z) : num :=
  let q := (inject_Z m * Qpower (10 # 1) e)%Q in
  Fin (Q2Qc (if neg then Qopp q else q)).

(** The builtin [float] on a string: surrounding whitespace is dropped;
    an optional sign is followed by [inf], [infinity] or [nan] in any
    case, or by a decimal number with optional fraction and exponent.
    [None] stands for the [ValueError] it raises otherwise.  The value
    is the exact decimal, not the nearest double. *)
Definition float_str (s : string) : option num :=
  let '(neg, r) := parse_sign (strip s) in
  let lr := lower_str r in
  if (lr =? "inf") || (lr =? "infinity") then Some (if neg then NInf else PInf)
  else if lr =? "nan" then Some NaN
  else
    let '(i, ni, r1) := digitpart r 0%Z 0%nat in
    let '(m, nf, r2) :=
      match r1 with
      | String "." r1' => digitpart r1' i 0%nat
      | _ => (i, 0%nat, r1)
      end in
    if (ni + nf =? 0)%nat then None
    else
      match r2 with
      | EmptyString => Some (decimal neg m (- Z.of_nat nf))
      | String c r3 =>
          if Ascii.eqb (lower c) "e" then
            let '(eneg, r4) := parse_sign r3 in
            let '(e, ne, r5) := digitpart r4 0%Z 0%nat in
            match ne, r5 with
            | S _, EmptyString =>
                Some (decimal neg m ((if eneg then - e else e) - Z.of_nat nf))
            | _, _ => None
            end
          else None
      end.

(* ================================================================= *)
(** ** Parameter resolver: [obtener_param] *)

(** A cell of the [Parametros] sheet as [read_excel] delivers it. *)
Inductive celda : Type :=
| CNum (x : num)
| CStr (s : string)
| CBool (b : bool)
| CFecha (t : Z)
| CNone.

(** [float(valor)]; [None] stands for the exception ([ValueError] on a
    string that is no number, [TypeError] on a date or on [None]). *)
Definition py_float (v : celda) : option num :=
  match v with
  | CNum x => Some x
  | CStr s => float_str s
  | CBool b => Some (if b then uno else cero)
  | CFecha _ => None
  | CNone => None
  end.

Record fila_param : Type := mk_param { Parametro : string; Valor : celda }.

(** Line 141: [df_params['Parametro'].astype(str).str.strip()]. *)
Definition strip_parametros (df : list fila_param) : list fila_param :=
  map (fun r => mk_param (strip (Parametro r)) (Valor r)) df.

Definition normalizar (valor : celda) : celda :=
  match valor with
  | CStr s => CStr (replace_coma s)
  | _ => valor
  end.

Definition obtener_param (df_params : list fila_param) (nombre : string)
    (default : celda) : celda :=
  match filter (fun r => Parametro r =? nombre) df_params with
  | [] => default
  | fila :: _ =>
      let valor := normalizar (Valor fila) in
      match py_float valor with
      | Some x => CNum x
      | None => valor
      end
  end.

(** A parameter that is no number makes the arithmetic of the engine
    raise [TypeError]; [None] stands for that failure. *)
Definition as_num (v : celda) : option num :=
  match v with
  | CNum x => Some x
  | _ => None
  end.

(* ================================================================= *)
(** ** pandas tables: sorting, group keys and left merges *)

Section Tablas.

Variables A B C : Type.

(** A stable sort by a boolean "less or equal" (ties keep their
    order, as in the lexsort and the insertion sort pandas uses on
    the tables of this program). *)
Variable leb : A -> A -> bool.

Fixpoint insertar (x : A) (l : list A) : list A :=
  match l with
  | [] => [x]
  | y :: l' => if leb x y then x :: l else y :: insertar x l'
  end.

Definition ordenar (l : list A) : list A := fold_right insertar [] l.

(** [left.merge(right, on=key, how='left')]: the rows of [left] in
    their order, each paired with every matching row of [right], or
    once with nothing when no row of [right] matches. *)
Definition merge_left (on : A -> B -> bool) (comb : A -> option B -> C)
    (left : list A) (right : list B) : list C :=
  flat_map
    (fun a =>
       match filter (on a) right with
       | [] => [comb a None]
       | ms => map (fun b => comb a (Some b)) ms
       end)
    left.

End Tablas.

Definition leb_str (s1 s2 : string) : bool :=
  match String_as_OT.compare s1 s2 with Gt => false | _ => true end.

(** Ascending order of a numeric column with [nan] last. *)
Definition leb_nan_last (x y : num) : bool :=
  isnan y || (negb (isnan x) && (x <=? y)%num).

(** The keys of [groupby(col)]: the distinct values, sorted. *)
Definition claves (l : list string) : list string :=
  nodup string_dec (ordenar leb_str l).

(* ================================================================= *)
(** ** Input sheets and the material base table *)

(** Sheet [Produccion]; [Material] and [Semana] after [astype(str)]. *)
Record fila_prod : Type := mk_prod {
  prod_Material : string;
  prod_Semana : string;
  prod_Demanda_semanal : num
}.

(** Sheet [Capacidad], after lines 163-165 have added a column of zeros
    for every optional attribute the sheet does not have. *)
Record fila_cap : Type := mk_cap {
  cap_Material : string;
  cap_Unidades_por_hora : num;
  cap_Unidades_por_pallet : num;
  cap_Inventario_inicial : num;
  cap_Valor_inventario_inicial : num;
  cap_Costo_variable_unitario : num;
  cap_Inventario_promedio : num
}.

(** Sheet [Disponibilidad]: a [Semana] column and two optional columns
    of shift counts. *)
Record hoja_disp : Type := mk_disp {
  disp_Semana : list string;
  Paro_programado : option (list num);
  No_paro : option (list num)
}.

(** A row of [df_base_materiales]. *)
Record fila_base : Type := mk_base {
  Material : string;
  Semana : string;
  Demanda_semanal : num;
  Unidades_por_hora : num;
  Unidades_por_pallet : num;
  Inventario_inicial : num;
  Valor_inventario_inicial : num;
  Costo_variable_unitario : num;
  Inventario_promedio : num;
  Semana_Num : num;
  Horas_Necesarias : num
}.

(** [pd.to_numeric(s, errors='coerce')] on a week code, read with the
    grammar of [float_str]; what does not parse becomes [nan]. *)
Definition to_numeric (s : string) : num :=
  match float_str s with Some x => x | None => NaN end.

(** Lines 156-176 for one row of [Produccion] and its matching row of
    [Capacidad], if any. *)
Definition fila_base_de (p : fila_prod) (c : option fila_cap) : fila_base :=
  let attr (f : fila_cap -> num) :=
    match c with Some c => f c | None => NaN end in
  let semana := strip (prod_Semana p) in
  {| Material := strip (prod_Material p);
     Semana := semana;
     Demanda_semanal := prod_Demanda_semanal p;
     Unidades_por_hora := attr cap_Unidades_por_hora;
     Unidades_por_pallet := attr cap_Unidades_por_pallet;
     Inventario_inicial := attr cap_Inventario_inicial;
     Valor_inventario_inicial := attr cap_Valor_inventario_inicial;
     Costo_variable_unitario := attr cap_Costo_variable_unitario;
     Inventario_promedio := attr cap_Inventario_promedio;
     Semana_Num := to_numeric semana;
     Horas_Necesarias :=
       (prod_Demanda_semanal p / attr cap_Unidades_por_hora)%num |}.

Definition mismo_material (p : fila_prod) (c : fila_cap) : bool :=
  strip (prod_Material p) =? strip (cap_Material c).

Definition df_base_materiales (df_prod : list fila_prod)
    (df_cap : list fila_cap) : list fila_base :=
  merge_left mismo_material fila_base_de df_prod df_cap.

(** [df.groupby('Material')[col].first().sum()] *)
Definition suma_primeros (col : fila_base -> num) (df : list fila_base) : num :=
  nansum
    (map (fun m => gb_first (map col (filter (fun r => Material r =? m) df)))
         (claves (map Material df))).

(* ================================================================= *)
(** ** The scenario engine: [calcular_escenario] *)

(** [df_disp_scenario[['Semana', 'Turnos disponibles']]] *)
Record fila_turnos : Type := mk_turnos {
  turnos_Semana : string;
  turnos_Turnos_disponibles : num
}.

(** A row of [resumen_semanal]. *)
Record fila_semana : Type := mk_semana {
  sem_Semana : string;
  Total_Horas_Req_Semana : num;
  Turnos_disponibles : num;
  Horas_Capacidad_Total : num;
  Diferencia_Horas : num
}.

(** A row of [df_final] after the allocation (lines 193-208); the
    column [Unidades por pallet] is overwritten on line 206. *)
Record fila_asig : Type := mk_asig {
  base : fila_base;
  sem : fila_semana;
  Participacion : num;
  Horas_Ajuste : num;
  Horas_Finales_Asignadas : num;
  Unidades_A_Producir : num;
  Unidades_Ajuste : num;
  Costo_variable_total : num;
  Unidades_por_pallet_1 : num;
  Pallets_Requeridos : num;
  Pallets_Extra : num
}.

(** A row of [tabla_costos]. *)
Record fila_tabla_costos : Type := mk_tabla_costos {
  tc_Semana : string;
  tc_Unidades_A_Producir : num;
  tc_Costo_fijo : num;
  tc_Costo_fijo_unitario : num
}.

(** A row of [df_final] with the unit costs (lines 214-215). *)
Record fila_costo : Type := mk_costo {
  asig : fila_asig;
  Costo_fijo_unitario : num;
  Costo_unitario_total : num
}.

(** The local variables of one iteration of the loop of lines 227-262. *)
Record locales : Type := mk_locales {
  qty_ini : num;
  val_ini : num;
  qty_prod : num;
  cost_prod : num;
  val_prod : num;
  total_qty : num;
  total_val : num;
  wac : num;
  qty_sold : num;
  cogs_total : num;
  qty_final : num;
  val_final : num
}.

(** A row of the [df_final] that [calcular_escenario] returns. *)
Record fila_final : Type := mk_final {
  costo : fila_costo;
  Inv_Inicial_Und : num;
  Inv_Inicial_Valor : num;
  Costo_Promedio_Ponderado : num;
  Inv_Final_Und : num;
  Inv_Final_Valor : num;
  Costo_Mercancia_Vendida : num;
  Escenario : string
}.

Definition fbase (r : fila_final) : fila_base := base (asig (costo r)).
Definition fasig (r : fila_final) : fila_asig := asig (costo r).
Definition fsem (r : fila_final) : fila_semana := sem (asig (costo r)).

(** The grouped rows of [resumen_agrupado] (lines 264-270). *)
Record fila_agrupada : Type := mk_agrupada {
  agr_Semana : string;
  agr_Unidades_A_Producir : num;
  agr_Pallets_Requeridos : num;
  agr_Pallets_Extra : num;
  agr_Turnos_disponibles : num;
  agr_Total_Horas_Req_Semana : num;
  agr_Diferencia_Horas : num;
  agr_Semana_Num : num;
  agr_Costo_variable_total : num;
  agr_Costo_Mercancia_Vendida : num;
  agr_Inv_Final_Valor : num;
  agr_Inv_Final_Und : num
}.

(** A row of the [resumen_agrupado] that [calcular_escenario] returns. *)
Record fila_resumen : Type := mk_resumen {
  agr : fila_agrupada;
  Costo_fijo_total : num;
  Costo_fijo_unitario_und : num;
  Turnos_necesarios : num;
  Costo_total_produccion : num;
  Costo_Capital : num;
  Inv_Previo_Calculo : num;
  Variacion_inventario : num;
  EBITDA_CMV : num;
  Flujo_de_caja : num;
  Costo_Unitario_Promedio_Inventario : num;
  Valor_Inventario_Inv_Promedio_Input : num;
  res_Escenario : string
}.

(** One iteration of the loop, from the opening state and the row. *)
Definition paso (qty_ini val_ini : num) (row : fila_costo) : locales :=
  let qty_prod := Unidades_A_Producir (asig row) in
  let cost_prod := Costo_unitario_total row in
  let val_prod := (qty_prod * cost_prod)%num in
  let total_qty := (qty_ini + qty_prod)%num in
  let total_val := (val_ini + val_prod)%num in
  let wac :=
    if (total_qty >? cero)%num then (total_val / total_qty)%num
    else cost_prod in
  let qty_sold := py_min (Demanda_semanal (base (asig row))) total_qty in
  let cogs_total := (qty_sold * wac)%num in
  let qty_final := (total_qty - qty_sold)%num in
  let val_final := (qty_final * wac)%num in
  mk_locales qty_ini val_ini qty_prod cost_prod val_prod total_qty total_val
             wac qty_sold cogs_total qty_final val_final.

(** The opening state of an iteration: the static opening inventory of
    the row when the material changes, the previous closing state
    otherwise.  [prev_material] starts as [None]. *)
Definition apertura (prev_material : option string)
    (prev_final_und prev_final_val : num) (row : fila_costo) : num * num :=
  let curr_material := Material (base (asig row)) in
  let cambia :=
    match prev_material with
    | Some m => negb (curr_material =? m)
    | None => true
    end in
  if cambia then
    (Inventario_inicial (base (asig row)),
     Valor_inventario_inicial (base (asig row)))
  else (prev_final_und, prev_final_val).

(** The loop over the sorted rows, carrying
    [(prev_material, prev_final_und, prev_final_val)]. *)
Fixpoint bucle (prev_material : option string)
    (prev_final_und prev_final_val : num) (df : list fila_costo)
    : list (fila_costo * locales) :=
  match df with
  | [] => []
  | row :: resto =>
      let '(q, v) := apertura prev_material prev_final_und prev_final_val row in
      let l := paso q v row in
      (row, l)
        :: bucle (Some (Material (base (asig row)))) (qty_final l) (val_final l)
                 resto
  end.

Definition inventario (df : list fila_costo) : list (fila_costo * locales) :=
  bucle None cero cero df.

Definition fila_final_de (nombre_escenario : string)
    (rl : fila_costo * locales) : fila_final :=
  let '(row, l) := rl in
  mk_final row (qty_ini l) (val_ini l) (wac l) (qty_final l) (val_final l)
           (cogs_total l) nombre_escenario.

(** [sort_values(by=['Material', 'Semana_Num'])] *)
Definition leb_material_semana (r1 r2 : fila_costo) : bool :=
  match String_as_OT.compare (Material (base (asig r1)))
                             (Material (base (asig r2))) with
  | Lt => true
  | Gt => false
  | Eq => leb_nan_last (Semana_Num (base (asig r1)))
                       (Semana_Num (base (asig r2)))
  end.

Section Escenario.

(** The variables [calcular_escenario] closes over. *)
Variable df_base : list fila_base.
Variables horas_por_turno costo_fijo_param tasa_costo_capital : num.

Definition suma_inv_promedio_objetivo : num :=
  suma_primeros Inventario_promedio df_base.

Definition suma_valor_inicial_maestro : num :=
  suma_primeros Valor_inventario_inicial df_base.

(** Lines 181-182: [groupby('Semana')['Horas_Necesarias'].sum()]. *)
Definition total_horas_req (df_main : list fila_base) : list (string * num) :=
  map (fun k =>
         (k, nansum (map Horas_Necesarias
                         (filter (fun r => Semana r =? k) df_main))))
      (claves (map Semana df_main)).

Definition fila_semana_de (semana : string) (total turnos : num) : fila_semana :=
  let capacidad := (turnos * horas_por_turno)%num in
  mk_semana semana total turnos capacidad (capacidad - total)%num.

(** Lines 184-191. *)
Definition resumen_semanal (df_main : list fila_base)
    (df_disp_scenario : list fila_turnos) (modo_demanda : bool)
    : list fila_semana :=
  if modo_demanda then
    map (fun kt => fila_semana_de (fst kt) (snd kt)
                     (snd kt / horas_por_turno)%num)
        (total_horas_req df_main)
  else
    merge_left
      (fun kt d => fst kt =? turnos_Semana d)
      (fun kt d =>
         fila_semana_de (fst kt) (snd kt)
           (fillna cero
              (match d with
               | Some d => turnos_Turnos_disponibles d
               | None => NaN
               end)))
      (total_horas_req df_main) df_disp_scenario.

(** Lines 193-208 for one merged row. *)
Definition asignar (b : fila_base) (s : option fila_semana) : fila_asig :=
  let s :=
    match s with
    | Some s => s
    | None => mk_semana (Semana b) NaN NaN NaN NaN
    end in
  let participacion :=
    fillna cero (Horas_Necesarias b / Total_Horas_Req_Semana s)%num in
  let horas_ajuste := (participacion * Diferencia_Horas s)%num in
  let horas_finales := py_max (Horas_Necesarias b + horas_ajuste)%num cero in
  let unidades := (horas_finales * Unidades_por_hora b)%num in
  let unidades_ajuste := (horas_ajuste * Unidades_por_hora b)%num in
  let por_pallet := replace_0_1 (Unidades_por_pallet b) in
  mk_asig b s participacion horas_ajuste horas_finales unidades
          unidades_ajuste
          (unidades * Costo_variable_unitario b)%num
          por_pallet
          (unidades / por_pallet)%num
          (unidades_ajuste / por_pallet)%num.

Definition asignacion (df_main : list fila_base)
    (resumen : list fila_semana) : list fila_asig :=
  merge_left (fun b s => Semana b =? sem_Semana s) asignar df_main resumen.

(** Lines 210-212. *)
Definition tabla_costos (df : list fila_asig) : list fila_tabla_costos :=
  map (fun k =>
         let unidades :=
           nansum (map Unidades_A_Producir
                       (filter (fun r => Semana (base r) =? k) df)) in
         mk_tabla_costos k unidades costo_fijo_param
           (if (unidades >? cero)%num
            then (costo_fijo_param / unidades)%num
            else cero))
      (claves (map (fun r => Semana (base r)) df)).

(** Lines 214-215. *)
Definition con_costo (r : fila_asig) (t : option fila_tabla_costos)
    : fila_costo :=
  let fijo_unitario :=
    match t with
    | Some t => tc_Costo_fijo_unitario t
    | None => NaN
    end in
  mk_costo r fijo_unitario (Costo_variable_unitario (base r) + fijo_unitario)%num.

Definition costos (df : list fila_asig) : list fila_costo :=
  merge_left (fun r t => Semana (base r) =? tc_Semana t) con_costo
             df (tabla_costos df).

(** Lines 264-270 for the group of one week. *)
Definition agrupar (k : string) (g : list fila_final) : fila_agrupada :=
  {| agr_Semana := k;
     agr_Unidades_A_Producir := nansum (map (fun r => Unidades_A_Producir (fasig r)) g);
     agr_Pallets_Requeridos := nansum (map (fun r => Pallets_Requeridos (fasig r)) g);
     agr_Pallets_Extra := nansum (map (fun r => Pallets_Extra (fasig r)) g);
     agr_Turnos_disponibles := gb_first (map (fun r => Turnos_disponibles (fsem r)) g);
     agr_Total_Horas_Req_Semana := gb_first (map (fun r => Total_Horas_Req_Semana (fsem r)) g);
     agr_Diferencia_Horas := gb_first (map (fun r => Diferencia_Horas (fsem r)) g);
     agr_Semana_Num := gb_first (map (fun r => Semana_Num (fbase r)) g);
     agr_Costo_variable_total := nansum (map (fun r => Costo_variable_total (fasig r)) g);
     agr_Costo_Mercancia_Vendida := nansum (map Costo_Mercancia_Vendida g);
     agr_Inv_Final_Valor := nansum (map Inv_Final_Valor g);
     agr_Inv_Final_Und := nansum (map Inv_Final_Und g) |}.

Definition agrupado (df_final : list fila_final) : list fila_agrupada :=
  map (fun k => agrupar k (filter (fun r => Semana (fbase r) =? k) df_final))
      (claves (map (fun r => Semana (fbase r)) df_final)).

(** Lines 274-293 for one row; [previo] is the cell of
    [Inv_Final_Valor.shift(1)] on that row. *)
Definition fila_resumen_de (nombre_escenario : string) (previo : num)
    (a : fila_agrupada) : fila_resumen :=
  let fijo_total := costo_fijo_param in
  let inv_previo := fillna suma_valor_inicial_maestro previo in
  let variacion := (agr_Inv_Final_Valor a - inv_previo)%num in
  let ebitda := agr_Costo_Mercancia_Vendida a in
  let unitario_promedio :=
    if (agr_Inv_Final_Und a >? cero)%num
    then (agr_Inv_Final_Valor a / agr_Inv_Final_Und a)%num
    else cero in
  {| agr := a;
     Costo_fijo_total := fijo_total;
     Costo_fijo_unitario_und :=
       if (agr_Unidades_A_Producir a >? cero)%num
       then (fijo_total / agr_Unidades_A_Producir a)%num
       else cero;
     Turnos_necesarios := (agr_Total_Horas_Req_Semana a / horas_por_turno)%num;
     Costo_total_produccion := (fijo_total + agr_Costo_variable_total a)%num;
     Costo_Capital := clip_lower_0 (agr_Inv_Final_Valor a * tasa_costo_capital)%num;
     Inv_Previo_Calculo := inv_previo;
     Variacion_inventario := variacion;
     EBITDA_CMV := ebitda;
     Flujo_de_caja := (ebitda - variacion)%num;
     Costo_Unitario_Promedio_Inventario := unitario_promedio;
     Valor_Inventario_Inv_Promedio_Input :=
       (unitario_promedio * suma_inv_promedio_objetivo)%num;
     res_Escenario := nombre_escenario |}.

Fixpoint derivar (nombre_escenario : string) (previo : num)
    (l : list fila_agrupada) : list fila_resumen :=
  match l with
  | [] => []
  | a :: l' =>
      fila_resumen_de nombre_escenario previo a
        :: derivar nombre_escenario (agr_Inv_Final_Valor a) l'
  end.

(** The rows before the inventory loop (lines 180-217). *)
Definition df_ordenado (df_disp_scenario : list fila_turnos)
    (modo_demanda : bool) : list fila_costo :=
  let df_main := df_base in
  let resumen := resumen_semanal df_main df_disp_scenario modo_demanda in
  ordenar leb_material_semana (costos (asignacion df_main resumen)).

(** The loop with its local variables, row by row. *)
Definition traza (df_disp_scenario : list fila_turnos)
    (modo_demanda : bool) : list (fila_costo * locales) :=
  inventario (df_ordenado df_disp_scenario modo_demanda).

(** [calcular_escenario(nombre_escenario, df_disp_scenario,
    modo_demanda)]; in demand mode the caller passes no availability
    table and the argument is not read. *)
Definition calcular_escenario (nombre_escenario : string)
    (df_disp_scenario : list fila_turnos) (modo_demanda : bool)
    : list fila_final * list fila_resumen :=
  let df_final :=
    map (fila_final_de nombre_escenario)
        (traza df_disp_scenario modo_demanda) in
  let resumen_agrupado :=
    derivar nombre_escenario NaN
      (ordenar (fun a b => leb_nan_last (agr_Semana_Num a) (agr_Semana_Num b))
               (agrupado df_final)) in
  (df_final, resumen_agrupado).

End Escenario.

(* ================================================================= *)
(** ** The run of the scenarios and the comparison table *)

(** A row of [tabla_comparativa]. *)
Record fila_comparativa : Type := mk_comparativa {
  comp_Escenario : string;
  CMV_Total : num;
  EBITDA_Total : num;
  Costo_Capital_Total : num;
  Delta_Valor_Inv : num;
  Impacto_Total_FCL : num
}.

(** [Series.unique()]: the distinct values in order of appearance. *)
Fixpoint unique (l : list string) : list string :=
  match l with
  | [] => []
  | x :: xs => x :: filter (fun y => negb (y =? x)) (unique xs)
  end.

(** [df_disp_raw[['Semana', col]].rename(columns={col: 'Turnos
    disponibles'})], with the week codes stripped on line 175. *)
Definition disp_escenario (semanas : list string) (col : list num)
    : list fila_turnos :=
  map (fun st => mk_turnos (strip (fst st)) (snd st)) (combine semanas col).

Definition leb_semana_num (a b : fila_resumen) : bool :=
  leb_nan_last (agr_Semana_Num (agr a)) (agr_Semana_Num (agr b)).

(** Lines 330-338 for one scenario. *)
Definition delta_de (df_master_semanal : list fila_resumen)
    (escenario : string) : string * num :=
  let df_esc :=
    ordenar leb_semana_num
      (filter (fun r => res_Escenario r =? escenario) df_master_semanal) in
  match df_esc with
  | [] => (escenario, cero)
  | r0 :: _ =>
      (escenario,
       (Valor_Inventario_Inv_Promedio_Input (last df_esc r0)
        - Valor_Inventario_Inv_Promedio_Input r0)%num)
  end.

Definition deltas (df_master_semanal : list fila_resumen) : list (string * num) :=
  map (delta_de df_master_semanal)
      (unique (map res_Escenario df_master_semanal)).

(** Lines 322-327: [groupby('Escenario')[...].sum()], one row per
    scenario: its name and the totals of COGS, EBITDA and capital cost. *)
Definition totales (df_master_semanal : list fila_resumen)
    : list (string * (num * num * num)) :=
  map (fun k =>
         let g := filter (fun r => res_Escenario r =? k) df_master_semanal in
         (k, (nansum (map (fun r => agr_Costo_Mercancia_Vendida (agr r)) g),
              nansum (map EBITDA_CMV g),
              nansum (map Costo_Capital g))))
      (claves (map res_Escenario df_master_semanal)).

(** Lines 340-347: the inner merge on [Escenario] and the impact. *)
Definition comparar (df_master_semanal : list fila_resumen)
    : list fila_comparativa :=
  flat_map
    (fun t =>
       let '(k, (cmv, ebitda, capital)) := t in
       map (fun d =>
              mk_comparativa k cmv ebitda capital (snd d)
                             (cmv + capital + snd d)%num)
           (filter (fun d => k =? fst d) (deltas df_master_semanal)))
    (totales df_master_semanal).

Definition leb_impacto (a b : fila_comparativa) : bool :=
  leb_nan_last (Impacto_Total_FCL a) (Impacto_Total_FCL b).

(** What the run shows and exports. *)
Record resultado : Type := mk_resultado {
  df_master_materiales : list fila_final;
  df_master_semanal : list fila_resumen;
  tabla_comparativa : list fila_comparativa;
  mejores : list fila_comparativa;
  mejor_escenario : string;
  impacto_mejor : num;
  ahorro : num
}.

(** Lines 298-316: the calls of [calcular_escenario] that are made, in
    order: name, availability table and mode of each. *)
Definition plan (df_disp_raw : hoja_disp)
    : list (string * list fila_turnos * bool) :=
  (match Paro_programado df_disp_raw with
   | Some col =>
       [("Paro Programado",
         disp_escenario (disp_Semana df_disp_raw) col, false)]
   | None => []
   end)
  ++ (match No_paro df_disp_raw with
      | Some col =>
          [("No Paro (Full)",
            disp_escenario (disp_Semana df_disp_raw) col, false)]
      | None => []
      end)
  ++ [("Siguiendo Demanda", [], true)].


Definition simulaciones (df_base : list fila_base)
    (horas_por_turno costo_fijo_param tasa_costo_capital : num)
    (df_disp_raw : hoja_disp)
    : list (list fila_final * list fila_resumen) :=
  map (fun c =>
         calcular_escenario df_base horas_por_turno costo_fijo_param
                            tasa_costo_capital (fst (fst c)) (snd (fst c))
                            (snd c))
      (plan df_disp_raw).

(** Lines 151-153, with the arithmetic's demand that the three
    parameters be numbers. *)
Definition parametros (df_params : list fila_param)
    : option (num * num * num) :=
  let params := strip_parametros df_params in
  match as_num (obtener_param params "Horas por turno" (CNum (nz 8))),
        as_num (obtener_param params "Costo fijo" (CNum (nz 742373394))),
        as_num (obtener_param params "Costo Capital" (CNum (nq (29 # 10000))))
  with
  | Some horas_por_turno, Some costo_fijo_param, Some tasa_costo_capital =>
      Some (horas_por_turno, costo_fijo_param, tasa_costo_capital)
  | _, _, _ => None
  end.

(** Lines 133-361.  [None] stands for a run that ends in the [except]
    branch: a parameter that is no number, or no row to report. *)
Definition ejecutar (df_prod : list fila_prod) (df_cap : list fila_cap)
    (df_disp_raw : hoja_disp) (df_params : list fila_param)
    : option resultado :=
  match parametros df_params with
  | Some (horas_por_turno, costo_fijo_param, tasa_costo_capital) =>
      let df_base := df_base_materiales df_prod df_cap in
      let sims :=
        simulaciones df_base horas_por_turno costo_fijo_param
                     tasa_costo_capital df_disp_raw in
      let materiales := List.concat (map fst sims) in
      let semanal := List.concat (map snd sims) in
      let comparativa := comparar semanal in
      let mejores := ordenar leb_impacto comparativa in
      match mejores with
      | [] => None
      | mejor :: _ =>
          Some (mk_resultado materiales semanal comparativa mejores
                  (comp_Escenario mejor)
                  (Impacto_Total_FCL mejor)
                  (Impacto_Total_FCL (last mejores mejor)
                   - Impacto_Total_FCL mejor)%num)
      end
  | None => None
  end.

(** A chain of iterations: each opens with the closing state of the
    one before; the first opens with [st] if given, with the static
    opening inventory of its row otherwise. *)
Fixpoint encadenado (st : option (num * num))
    (sub : list (fila_costo * locales)) : Prop :=
  match sub with
  | [] => True
  | rl :: resto =>
      (qty_ini (snd rl), val_ini (snd rl)) =
        match st with
        | Some s => s
        | None => (Inventario_inicial (base (asig (fst rl))),
                   Valor_inventario_inicial (base (asig (fst rl))))
        end
      /\ encadenado (Some (qty_final (snd rl), val_final (snd rl))) resto
  end.

(* ================================================================= *)
(** ** Sums over the rows of a week *)

(** A plain sum of cells, without the skipping of [nan]. *)
Definition suma (l : list num) : num := fold_left nadd l cero.

Definition filas_semana (w : string) (df : list fila_final) : list fila_final :=
  filter (fun r => Semana (fbase r) =? w) df.



(* ================================================================= *)
(** ** Example inputs *)

(** One material at 10 units per hour, demand 100 and 150 in two weeks,
    10 shifts of 8 hours available under planned stops, 21 without. *)
Definition ejemplo_prod : list fila_prod :=
  [ mk_prod "1001568" "202545" (nz 100);
    mk_prod "1001568" "202546" (nz 150) ].

Definition ejemplo_cap : list fila_cap :=
  [ mk_cap "1001568" (nz 10) (nz 40) (nz 20) (nz 100) (nz 2) (nz 50) ].

Definition ejemplo_disp : hoja_disp :=
  mk_disp ["202545"; "202546"] (Some [nz 10; nz 10]) (Some [nz 21; nz 21]).

Definition ejemplo_params : list fila_param :=
  [ mk_param "Horas por turno" (CNum (nz 8));
    mk_param "Costo fijo " (CStr "1000,5");
    mk_param "Costo Capital" (CNum (nq (1 # 100))) ].

Definition ejemplo_base : list fila_base :=
  df_base_materiales ejemplo_prod ejemplo_cap.

Definition ejemplo_turnos : list fila_turnos :=
  disp_escenario ["202545"; "202546"] [nz 10; nz 10].

(** The same material with a rate of zero units per hour. *)
Definition cap_sin_ritmo : list fila_cap :=
  [ mk_cap "1001568" (nz 0) (nz 40) (nz 20) (nz 100) (nz 2) (nz 50) ].

(** A week without demand. *)
Definition prod_sin_demanda : list fila_prod :=
  [ mk_prod "1001568" "202545" (nz 0) ].

(** A return (negative demand) next to a regular demand. *)
Definition prod_con_devolucion : list fila_prod :=
  [ mk_prod "1001568" "202545" (nz (-50));
    mk_prod "1001569" "202545" (nz 150) ].

Definition cap_dos_materiales : list fila_cap :=
  [ mk_cap "1001568" (nz 10) (nz 40) (nz 20) (nz 100) (nz 2) (nz 50);
    mk_cap "1001569" (nz 10) (nz 40) (nz 0) (nz 0) (nz 3) (nz 10) ].



(** Rows of [nan] cells, the defaults of [nth] below. *)
Definition fila_costo_nula : fila_costo :=
  con_costo (asignar (mk_base "" "" NaN NaN NaN NaN NaN NaN NaN NaN NaN) None)
            None.

Definition fila_final_nula : fila_final :=
  fila_final_de "" (fila_costo_nula, paso NaN NaN fila_costo_nula).



(* ================================================================= *)
(** ** Nonnegative inputs *)

(** A cell that holds a number that is not negative. *)
Definition no_negativo (x : num) : bool := is_fin x && (cero <=? x)%num.

Definition no_infinito (x : num) : bool :=
  match x with PInf | NInf => false | _ => true end.

Definition cap_no_negativa (c : fila_cap) : bool :=
  no_negativo (cap_Unidades_por_hora c)
  && no_negativo (cap_Inventario_inicial c)
  && no_negativo (cap_Valor_inventario_inicial c)
  && no_negativo (cap_Costo_variable_unitario c).

(** Nonnegative inputs of a scenario run: nonnegative demands of
    materials that the capacity sheet knows, nonnegative rates, opening
    inventories and unit costs, a nonnegative fixed cost, and shifts and
    hours per shift that are not infinite. *)
Definition entradas_no_negativas (df_prod : list fila_prod)
    (df_cap : list fila_cap) (horas_por_turno costo_fijo_param : num)
    (df_disp_scenario : list fila_turnos) : bool :=
  forallb (fun p => no_negativo (prod_Demanda_semanal p)
                    && existsb (mismo_material p) df_cap) df_prod
  && forallb cap_no_negativa df_cap
  && is_fin horas_por_turno
  && no_negativo costo_fijo_param
  && forallb (fun d => no_infinito (turnos_Turnos_disponibles d))
             df_disp_scenario.

Definition nn (x : num) : Prop := exists q, x = Fin q /\ (0 <= q)%Qc.

Definition nn_nan (x : num) : Prop := x = NaN \/ nn x.

Definition nn_inf_nan (x : num) : Prop := x = NaN \/ x = PInf \/ nn x.

(** What the proof needs of a row of the base table. *)
Definition base_ok (b : fila_base) : Prop :=
  nn (Demanda_semanal b) /\ nn (Unidades_por_hora b)
  /\ nn (Inventario_inicial b) /\ nn (Valor_inventario_inicial b)
  /\ nn (Costo_variable_unitario b)
  /\ Horas_Necesarias b = (Demanda_semanal b / Unidades_por_hora b)%num.

(** The shape of a week of [resumen_semanal] under nonnegative inputs. *)
Definition sem_ok (s : fila_semana) : Prop :=
  (Total_Horas_Req_Semana s = PInf
   /\ (Diferencia_Horas s = NInf \/ Diferencia_Horas s = NaN))
  \/ (exists t, Total_Horas_Req_Semana s = Fin t /\ (0 <= t)%Qc
        /\ (Diferencia_Horas s = NaN \/ is_fin (Diferencia_Horas s) = true)).

Definition fila_costo_ok (row : fila_costo) : Prop :=
  nn_nan (Unidades_A_Producir (asig row))
  /\ nn (Costo_unitario_total row)
  /\ nn (Demanda_semanal (base (asig row)))
  /\ nn (Inventario_inicial (base (asig row)))
  /\ nn (Valor_inventario_inicial (base (asig row))).

Definition estado_ok (q v : num) : Prop :=
  (nn q /\ nn v) \/ (q = NaN /\ v = NaN).


(** The sum of a list of rationals, and the floor at zero. *)
Definition qsum (l : list Qc) : Qc := fold_right Qcplus 0%Qc l.

Definition piso_cero (x : Qc) : Qc :=
  match (x ?= 0)%Qc with Lt => 0%Qc | _ => x end.



(** The total of required hours of week [k], and the rows that
    [resumen_semanal] holds for that week. *)
Definition total_semana (df_main : list fila_base) (k : string) : num :=
  nansum (map Horas_Necesarias (filter (fun r => Semana r =? k) df_main)).

Definition filas_de_clave (horas_por_turno : num) (df_main : list fila_base)
    (df_disp_scenario : list fila_turnos) (modo_demanda : bool) (k : string)
    : list fila_semana :=
  let total := total_semana df_main k in
  if modo_demanda then
    [fila_semana_de horas_por_turno k total (total / horas_por_turno)%num]
  else
    match filter (fun d => k =? turnos_Semana d) df_disp_scenario with
    | [] => [fila_semana_de horas_por_turno k total (fillna cero NaN)]
    | ms =>
        map (fun d => fila_semana_de horas_por_turno k total
                        (fillna cero (turnos_Turnos_disponibles d))) ms
    end.




(** The example of the specification: no opening inventory. *)
Definition cap_sin_inventario : list fila_cap :=
  [ mk_cap "1001568" (nz 10) (nz 40) (nz 0) (nz 0) (nz 2) (nz 50) ].

(** Componentwise comparison of lists of cells. *)
Fixpoint nums_same (l l' : list num) : bool :=
  match l, l' with
  | [], [] => true
  | x :: l, y :: l' => num_same x y && nums_same l l'
  | _, _ => false
  end.


(** Nonnegative inputs of a whole run: those of each scenario that is
    computed, a cost-of-capital rate that is a number and target
    inventories that are not infinite. *)
Definition entradas_run_no_negativas (df_prod : list fila_prod)
    (df_cap : list fila_cap) (df_disp_raw : hoja_disp)
    (horas_por_turno costo_fijo_param tasa_costo_capital : num) : bool :=
  forallb (fun c => entradas_no_negativas df_prod df_cap horas_por_turno
                      costo_fijo_param (snd (fst c)))
          (plan df_disp_raw)
  && is_fin tasa_costo_capital
  && forallb (fun c => no_infinito (cap_Inventario_promedio c)) df_cap.

(* ================================================================= *)
(** ** Whitespace around text cells and decimal separators *)

(** Strings made only of the characters [str.strip()] removes. *)
Fixpoint espacios (s : string) : bool :=
  match s with
  | EmptyString => true
  | String c s' => is_space c && espacios s'
  end.

(** A text cell with whitespace added on both sides: [izq] and [der]
    give the whitespace to add to each text. *)
Definition rodear (izq der : string -> string) (s : string) : string :=
  izq s ++ s ++ der s.

Definition rodear_prod (izq der : string -> string) (p : fila_prod) : fila_prod :=
  mk_prod (rodear izq der (prod_Material p)) (rodear izq der (prod_Semana p))
          (prod_Demanda_semanal p).

Definition rodear_cap (izq der : string -> string) (c : fila_cap) : fila_cap :=
  mk_cap (rodear izq der (cap_Material c)) (cap_Unidades_por_hora c)
         (cap_Unidades_por_pallet c) (cap_Inventario_inicial c)
         (cap_Valor_inventario_inicial c) (cap_Costo_variable_unitario c)
         (cap_Inventario_promedio c).

Definition rodear_disp (izq der : string -> string) (d : hoja_disp) : hoja_disp :=
  mk_disp (map (rodear izq der) (disp_Semana d)) (Paro_programado d) (No_paro d).

Definition rodear_param (izq der : string -> string) (r : fila_param)
    : fila_param :=
  mk_param (rodear izq der (Parametro r)) (Valor r).

(** The number of periods of a text, and of periods and commas. *)
Fixpoint puntos (s : string) : nat :=
  match s with
  | EmptyString => 0
  | String c s' => (if Ascii.eqb c "." then 1 else 0) + puntos s'
  end.

Fixpoint separadores (s : string) : nat :=
  match s with
  | EmptyString => 0
  | String c s' =>
      (if Ascii.eqb c "." || Ascii.eqb c "," then 1 else 0) + separadores s'
  end.

(** A demand sheet with a material that [ejemplo_cap] does not list. *)
Definition prod_desconocido : list fila_prod :=
  [ mk_prod "1001568" "202545" (nz 100);
    mk_prod "9999999" "202545" (nz 70) ].

(* ================================================================= *)
(** ** Inputs of the demand-driven scenario *)

(** A cell that holds a number above zero. *)
Definition positivo (x : num) : bool := is_fin x && (cero <? x)%num.

(** Demands that are not negative, of materials that the capacity sheet
    lists with a positive rate and an opening inventory that is not
    negative, and hours per shift that are a number other than zero. *)
Definition entradas_demanda (df_prod : list fila_prod) (df_cap : list fila_cap)
    (horas_por_turno : num) : bool :=
  forallb (fun p => no_negativo (prod_Demanda_semanal p)
                    && existsb (mismo_material p) df_cap) df_prod
  && forallb (fun c => positivo (cap_Unidades_por_hora c)
                       && no_negativo (cap_Inventario_inicial c)) df_cap
  && is_fin horas_por_turno
  && negb (neqb horas_por_turno cero).

(** What the proof needs of a row of the base table, and of a row that
    enters the inventory loop. *)
Definition base_dem (b : fila_base) : Prop :=
  exists d u : Qc,
    Demanda_semanal b = Fin d /\ (0 <= d)%Qc
    /\ Unidades_por_hora b = Fin u /\ (0 < u)%Qc
    /\ Horas_Necesarias b = Fin (d / u)%Qc
    /\ nn (Inventario_inicial b).

Definition fila_dem (row : fila_costo) : Prop :=
  exists d : Qc,
    Unidades_A_Producir (asig row) = Fin d
    /\ Demanda_semanal (base (asig row)) = Fin d
    /\ (0 <= d)%Qc
    /\ Horas_Finales_Asignadas (asig row) = Horas_Necesarias (base (asig row))
    /\ nn (Inventario_inicial (base (asig row))).

(* ================================================================= *)
(** ** The capacity sheet as it is read *)

(** Sheet [Capacidad] before lines 163-165: the columns [Material] and
    [Unidades por hora], which line 167 requires, and the five optional
    columns, each present or not. *)
Record hoja_cap : Type := mk_hoja_cap {
  hc_Material : list string;
  hc_Unidades_por_hora : list num;
  hc_Unidades_por_pallet : option (list num);
  hc_Inventario_inicial : option (list num);
  hc_Valor_inventario_inicial : option (list num);
  hc_Costo_variable_unitario : option (list num);
  hc_Inventario_promedio : option (list num)
}.

(** Lines 163-165: [df_cap[col] = 0] for a column the sheet lacks. *)
Definition columna_o_ceros (n : nat) (c : option (list num)) : list num :=
  match c with
  | Some l => l
  | None => repeat cero n
  end.

(** The rows of the sheet after lines 163-165. *)
Definition completar_capacidad (hoja : hoja_cap) : list fila_cap :=
  let n := List.length (hc_Material hoja) in
  let celda (c : option (list num)) (i : nat) :=
    nth i (columna_o_ceros n c) NaN in
  map (fun i =>
         mk_cap (nth i (hc_Material hoja) "")
                (nth i (hc_Unidades_por_hora hoja) NaN)
                (celda (hc_Unidades_por_pallet hoja) i)
                (celda (hc_Inventario_inicial hoja) i)
                (celda (hc_Valor_inventario_inicial hoja) i)
                (celda (hc_Costo_variable_unitario hoja) i)
                (celda (hc_Inventario_promedio hoja) i))
      (seq 0 n).

(** A capacity sheet with the two required columns only. *)
Definition hoja_cap_minima : hoja_cap :=
  mk_hoja_cap ["1001568"] [nz 10] None None None None None.

(* ================================================================= *)
(** * Properties *)

(** ** Arithmetic of cells *)

Lemma Qc_eq_Qeq (x y : Qc) : x = y -> (this x == this y)%Q.
Proof. intros ->. reflexivity. Qed.

Lemma Qc_neq_Qeq (x y : Qc) : x <> y -> ~ (this x == this y)%Q.
Proof. intros H E. apply H. apply Qc_is_canon; exact E. Qed.

(** Moves a goal on canonical rationals to plain rationals, where the
    linear and non-linear arithmetic tactics apply. *)
Ltac qc2q :=
  repeat match goal with
  | H : @eq Qc _ _ |- _ => apply Qc_eq_Qeq in H
  | H : ~ @eq Qc _ _ |- _ => apply Qc_neq_Qeq in H
  | |- @eq Qc _ _ => apply Qc_is_canon
  | |- ~ @eq Qc _ _ =>
      let E := fresh in intro E; apply Qc_eq_Qeq in E; revert E
  end;
  unfold Qcle, Qclt, Qcdiv, Qcminus, Qcplus, Qcmult, Qcopp, Qcinv in *;
  cbn [this Q2Qc] in *;
  rewrite ?Qred_correct in *.

Lemma Qccompare_Lt (a b : Qc) : (a ?= b)%Qc = Lt <-> (a < b)%Qc.
Proof. symmetry; apply Qclt_alt. Qed.

Lemma Qccompare_Gt (a b : Qc) : (a ?= b)%Qc = Gt <-> (b < a)%Qc.
Proof. symmetry; apply Qcgt_alt. Qed.

Lemma Qccompare_Eq (a b : Qc) : (a ?= b)%Qc = Eq <-> a = b.
Proof. symmetry; apply Qceq_alt. Qed.

Lemma Qccompare_refl (a : Qc) : (a ?= a)%Qc = Eq.
Proof. apply Qccompare_Eq; reflexivity. Qed.

(** Case analysis on the comparison of two rationals, leaving the
    corresponding order fact in the context. *)
Ltac qcmp a b :=
  let E := fresh "E" in
  destruct (a ?= b)%Qc eqn:E;
  [ apply (proj1 (Qccompare_Eq _ _)) in E
  | apply (proj1 (Qccompare_Lt _ _)) in E
  | apply (proj1 (Qccompare_Gt _ _)) in E ].

Lemma nlt_fin (a b : Qc) : (Fin a <? Fin b)%num = true <-> (a < b)%Qc.
Proof.
  unfold nlt. rewrite <- Qccompare_Lt.
  destruct (a ?= b)%Qc; split; congruence.
Qed.

Lemma nle_fin (a b : Qc) : (Fin a <=? Fin b)%num = true <-> (a <= b)%Qc.
Proof.
  unfold nle. rewrite Qcle_alt.
  destruct (a ?= b)%Qc; split; congruence.
Qed.

Lemma ngt_cero_fin (t : Qc) : (Fin t >? cero)%num = true <-> (0 < t)%Qc.
Proof. unfold ngt, cero. apply nlt_fin. Qed.

Lemma nlt_irrefl (x : num) : (x <? x)%num = false.
Proof.
  destruct x; simpl; auto. now rewrite Qccompare_refl.
Qed.

Lemma nlt_nle (x y : num) : (x <? y)%num = true -> (x <=? y)%num = true.
Proof.
  destruct x, y; simpl; auto. destruct (q ?= q0)%Qc; congruence.
Qed.

Lemma nlt_false_nle (x y : num) :
  isnan x = false -> isnan y = false ->
  (x <? y)%num = false -> (y <=? x)%num = true.
Proof.
  destruct x, y; simpl; try congruence.
  intros _ _. qcmp q q0; try congruence; intros _.
  - subst. now rewrite Qccompare_refl.
  - apply Qccompare_Lt in E. now rewrite E.
Qed.

Lemma ndiv_fin (a b : Qc) : b <> 0%Qc -> (Fin a / Fin b)%num = Fin (a / b)%Qc.
Proof.
  intros Hb. unfold ndiv. qcmp b 0%Qc; congruence.
Qed.

Lemma Qclt_neq (a b : Qc) : (a < b)%Qc -> b <> a.
Proof. intros. qc2q. lra. Qed.

Lemma num_same_eq (x y : num) : num_same x y = true -> x = y.
Proof.
  destruct x, y; simpl; try congruence.
  qcmp q q0; congruence.
Qed.

(** ** The builtins [min] and [max] *)

Lemma py_min_not_exceeds (d t : num) : (t <? py_min d t)%num = false.
Proof.
  unfold py_min. destruct (t <? d)%num eqn:E; auto. apply nlt_irrefl.
Qed.

Lemma py_min_le (d t : num) :
  isnan d = false -> isnan t = false -> (py_min d t <=? t)%num = true.
Proof.
  intros Hd Ht. unfold py_min. destruct (t <? d)%num eqn:E.
  - destruct t; simpl in *; try congruence. now rewrite Qccompare_refl.
  - now apply nlt_false_nle.
Qed.

(* ================================================================= *)
(** ** Parameter resolver *)

Lemma obtener_param_cons (r : fila_param) (df : list fila_param)
    (nombre : string) (default : celda) :
  obtener_param (strip_parametros (r :: df)) nombre default =
  if strip (Parametro r) =? nombre then
    match py_float (normalizar (Valor r)) with
    | Some x => CNum x
    | None => normalizar (Valor r)
    end
  else obtener_param (strip_parametros df) nombre default.
Proof.
  unfold obtener_param. simpl.
  destruct (strip (Parametro r) =? nombre); reflexivity.
Qed.

(** C8, as the code has it: the resolver looks at the first row whose
    trimmed name is the requested one.  Without such a row it returns
    the default.  Otherwise it replaces commas by periods in a text
    value and returns the number [float] reads from it or, when [float]
    raises, the value with the commas already replaced.  It is a total
    function: the exception of [float] is caught. *)
Theorem obtener_param_first_match (df : list fila_param) (nombre : string)
    (default : celda) :
  obtener_param (strip_parametros df) nombre default =
  match find (fun r => strip (Parametro r) =? nombre) df with
  | None => default
  | Some fila =>
      match py_float (normalizar (Valor fila)) with
      | Some x => CNum x
      | None => normalizar (Valor fila)
      end
  end.
Proof.
  induction df as [|r df IH].
  - reflexivity.
  - rewrite obtener_param_cons. simpl.
    destruct (strip (Parametro r) =? nombre); [reflexivity | exact IH].
Qed.

(** C8 as stated fails: when the conversion fails the value returned is
    not the raw cell but the cell with its commas replaced. *)
Lemma obtener_param_not_raw :
  ~ (forall (df : list fila_param) (nombre : string) (default : celda)
            (fila : fila_param),
        find (fun r => strip (Parametro r) =? nombre) df = Some fila ->
        py_float (normalizar (Valor fila)) = None ->
        obtener_param (strip_parametros df) nombre default = Valor fila).
Proof.
  intros H.
  specialize (H [mk_param " Costo fijo" (CStr "750.000,50")] "Costo fijo"
                (CNum (nz 742373394))
                (mk_param " Costo fijo" (CStr "750.000,50"))
                eq_refl eq_refl).
  vm_compute in H. discriminate H.
Qed.

(* ================================================================= *)
(** ** The inventory loop *)

Lemma bucle_fst (df : list fila_costo) :
  forall prev pu pv, map fst (bucle prev pu pv df) = df.
Proof.
  induction df as [|row df IH]; intros prev pu pv; simpl.
  - reflexivity.
  - destruct (apertura prev pu pv row) as [q v]. simpl. now rewrite IH.
Qed.

(** Every entry of the trace is an iteration of the loop body on the
    opening state it records. *)
Lemma bucle_paso (df : list fila_costo) :
  forall prev pu pv row l,
    In (row, l) (bucle prev pu pv df) ->
    l = paso (qty_ini l) (val_ini l) row.
Proof.
  induction df as [|r df IH]; intros prev pu pv row l; simpl.
  - tauto.
  - destruct (apertura prev pu pv r) as [q v]. simpl.
    intros [E | H].
    + inversion E; subst. reflexivity.
    + eapply IH; eauto.
Qed.

Lemma traza_paso df_base h cf disp modo row l :
  In (row, l) (traza df_base h cf disp modo) ->
  l = paso (qty_ini l) (val_ini l) row.
Proof. apply bucle_paso. Qed.

Lemma df_final_traza df_base h cf tasa nombre disp modo r :
  In r (fst (calcular_escenario df_base h cf tasa nombre disp modo)) ->
  exists row l,
    In (row, l) (traza df_base h cf disp modo)
    /\ r = fila_final_de nombre (row, l).
Proof.
  simpl. intros H. apply in_map_iff in H. destruct H as [[row l] [E H]].
  exists row, l. split; auto.
Qed.

Lemma bucle_consecutivos (df : list fila_costo) :
  forall prev pu pv i rl rl',
    nth_error (bucle prev pu pv df) i = Some rl ->
    nth_error (bucle prev pu pv df) (S i) = Some rl' ->
    Material (base (asig (fst rl'))) = Material (base (asig (fst rl))) ->
    qty_ini (snd rl') = qty_final (snd rl)
    /\ val_ini (snd rl') = val_final (snd rl).
Proof.
  induction df as [|r df IH]; intros prev pu pv i rl rl' H1 H2 Hm.
  - destruct i; discriminate.
  - cbn [bucle] in H1, H2.
    destruct (apertura prev pu pv r) as [q v]. destruct i as [|i].
    + simpl in H1. inversion H1; subst rl. clear H1.
      destruct df as [|r' df]; [discriminate|].
      cbn [nth_error bucle] in H2.
      destruct (apertura (Some (Material (base (asig r))))
                         (qty_final (paso q v r)) (val_final (paso q v r)) r')
        as [q' v'] eqn:Eap.
      inversion H2; subst rl'. clear H2. cbn [fst snd] in *.
      unfold apertura in Eap. rewrite Hm, String.eqb_refl in Eap.
      simpl in Eap. inversion Eap; subst. split; reflexivity.
    + simpl in H1, H2. eapply IH; eauto.
Qed.

(** C5: in every iteration of the loop, of every scenario, the quantity
    sold is [min] of the demand of that row and the supply on hand
    (opening plus produced); it never exceeds that supply, it is at most
    the supply whenever both are numbers, and what is left is the
    supply minus the quantity sold.  Unmet demand is not carried on: the
    next row of the same material sells [min] of its own demand and of
    what was left plus what it produces. *)
Theorem qty_sold_min_supply df_base h cf disp modo i row l :
  nth_error (traza df_base h cf disp modo) i = Some (row, l) ->
  let demand := Demanda_semanal (base (asig row)) in
  let supply := (qty_ini l + Unidades_A_Producir (asig row))%num in
  qty_sold l = py_min demand supply
  /\ (supply <? qty_sold l)%num = false
  /\ (isnan demand = false -> isnan supply = false ->
      (qty_sold l <=? supply)%num = true)
  /\ qty_final l = (supply - qty_sold l)%num
  /\ (forall row' l',
        nth_error (traza df_base h cf disp modo) (S i) = Some (row', l') ->
        Material (base (asig row')) = Material (base (asig row)) ->
        qty_sold l' =
        py_min (Demanda_semanal (base (asig row')))
               (qty_final l + Unidades_A_Producir (asig row'))%num).
Proof.
  intros Hi demand supply.
  pose proof (traza_paso _ _ _ _ _ _ _ (nth_error_In _ _ Hi)) as H.
  assert (Hs : qty_sold l = py_min demand supply) by (rewrite H; reflexivity).
  split; [exact Hs|]. rewrite Hs. split; [apply py_min_not_exceeds|].
  split; [apply py_min_le|].
  split; [rewrite <- Hs; rewrite H; reflexivity|].
  intros row' l' Hi' Hm.
  destruct (@bucle_consecutivos _ _ _ _ _ (row, l) (row', l') Hi Hi' Hm)
    as [Hq _].
  cbn [fst snd] in Hq. rewrite <- Hq.
  pose proof (traza_paso _ _ _ _ _ _ _ (nth_error_In _ _ Hi')) as H'.
  rewrite H'. reflexivity.
Qed.

(** The same on the emitted columns: closing quantity and COGS of a row
    are what is left and what is sold at the weighted-average cost. *)
Lemma df_final_sold df_base h cf tasa nombre disp modo r :
  In r (fst (calcular_escenario df_base h cf tasa nombre disp modo)) ->
  let supply := (Inv_Inicial_Und r + Unidades_A_Producir (fasig r))%num in
  let sold := py_min (Demanda_semanal (fbase r)) supply in
  Inv_Final_Und r = (supply - sold)%num
  /\ Costo_Mercancia_Vendida r = (sold * Costo_Promedio_Ponderado r)%num
  /\ Inv_Final_Valor r = (Inv_Final_Und r * Costo_Promedio_Ponderado r)%num.
Proof.
  intros H. apply df_final_traza in H. destruct H as (row & l & H & ->).
  apply traza_paso in H. rewrite H. simpl. auto.
Qed.

(** ** Weighted-average cost and conservation of value *)

Lemma paso_wac (q v : num) (row : fila_costo) :
  let l := paso q v row in
  wac l = if (total_qty l >? cero)%num
          then (total_val l / total_qty l)%num
          else cost_prod l.
Proof. reflexivity. Qed.

Lemma paso_fin (a b c d : Qc) (row : fila_costo) :
  Unidades_A_Producir (asig row) = Fin c ->
  Costo_unitario_total row = Fin d ->
  let l := paso (Fin a) (Fin b) row in
  total_qty l = Fin (a + c)%Qc
  /\ total_val l = Fin (b + c * d)%Qc
  /\ cost_prod l = Fin d
  /\ ((0 < a + c)%Qc -> wac l = Fin ((b + c * d) / (a + c))%Qc)
  /\ (~ (0 < a + c)%Qc -> wac l = Fin d).
Proof.
  intros Hc Hd l. subst l. unfold paso. rewrite Hc, Hd.
  cbn [total_qty total_val cost_prod wac nadd nmul].
  repeat split; auto.
  - intros Hpos. rewrite (proj2 (ngt_cero_fin _) Hpos).
    apply ndiv_fin. now apply Qclt_neq.
  - intros Hnp. destruct (Fin (a + c) >? cero)%num eqn:E; auto.
    apply ngt_cero_fin in E. contradiction.
Qed.

Lemma Qc_wac_conserva (t s w : Qc) : ((t - s) * w = t * w - s * w)%Qc.
Proof. ring. Qed.




(* ================================================================= *)
(** ** Sorting, group keys and merges *)

Section OrdenarFacts.

Variable A : Type.
Variable leb : A -> A -> bool.

Let R (a b : A) : Prop := leb a b = true.

Lemma insertar_perm (x : A) (l : list A) :
  Permutation (insertar leb x l) (x :: l).
Proof.
  induction l as [|y l IH]; simpl.
  - apply Permutation_refl.
  - destruct (leb x y).
    + apply Permutation_refl.
    + eapply Permutation_trans; [apply perm_skip, IH | apply perm_swap].
Qed.

Lemma ordenar_perm (l : list A) : Permutation (ordenar leb l) l.
Proof.
  induction l as [|x l IH]; simpl.
  - apply Permutation_refl.
  - eapply Permutation_trans; [apply insertar_perm | apply perm_skip, IH].
Qed.

Lemma ordenar_In (l : list A) (x : A) : In x (ordenar leb l) <-> In x l.
Proof.
  split; apply Permutation_in;
    [apply ordenar_perm | apply Permutation_sym, ordenar_perm].
Qed.

Lemma ordenar_length (l : list A) :
  List.length (ordenar leb l) = List.length l.
Proof. apply Permutation_length, ordenar_perm. Qed.

Lemma ordenar_nil_inv (l : list A) : ordenar leb l = [] -> l = [].
Proof.
  intros H. apply length_zero_iff_nil.
  rewrite <- ordenar_length, H. reflexivity.
Qed.

Hypothesis leb_total : forall a b, leb a b = true \/ leb b a = true.
Hypothesis leb_trans :
  forall a b c, leb a b = true -> leb b c = true -> leb a c = true.

Lemma insertar_sorted (x : A) (l : list A) :
  StronglySorted R l -> StronglySorted R (insertar leb x l).
Proof.
  induction 1 as [|y l Hs IH Hy]; simpl.
  - constructor; constructor.
  - destruct (leb x y) eqn:E.
    + constructor.
      * constructor; assumption.
      * constructor; [exact E|].
        eapply Forall_impl; [|exact Hy]. intros z Hz. eapply leb_trans; eauto.
    + constructor; [exact IH|].
      assert (Hyx : R y x) by (destruct (leb_total x y); [congruence | assumption]).
      rewrite Forall_forall in *. intros z Hz.
      apply (Permutation_in _ (insertar_perm x l)) in Hz.
      destruct Hz as [<- | Hz]; auto.
Qed.

Lemma ordenar_sorted (l : list A) : StronglySorted R (ordenar leb l).
Proof.
  induction l as [|x l IH]; simpl.
  - constructor.
  - now apply insertar_sorted.
Qed.

End OrdenarFacts.

Lemma StronglySorted_filter (A : Type) (R : A -> A -> Prop) (f : A -> bool)
    (l : list A) :
  StronglySorted R l -> StronglySorted R (filter f l).
Proof.
  induction 1 as [|a l Hs IH Ha]; simpl.
  - constructor.
  - destruct (f a); auto. constructor; auto.
    rewrite Forall_forall in *. intros x Hx.
    apply filter_In in Hx. apply Ha, Hx.
Qed.

Lemma StronglySorted_map (A B : Type) (R : A -> A -> Prop)
    (R' : B -> B -> Prop) (f : A -> B) (l : list A) :
  (forall a b, R a b -> R' (f a) (f b)) ->
  StronglySorted R l -> StronglySorted R' (map f l).
Proof.
  intros HR. induction 1 as [|a l Hs IH Ha]; simpl; constructor; auto.
  rewrite Forall_forall in *. intros y Hy.
  apply in_map_iff in Hy. destruct Hy as (x & <- & Hx). auto.
Qed.

Lemma StronglySorted_weaken (A : Type) (R R' : A -> A -> Prop) (P : A -> Prop)
    (l : list A) :
  (forall a b, P a -> P b -> R a b -> R' a b) ->
  Forall P l -> StronglySorted R l -> StronglySorted R' l.
Proof.
  intros HR HP. induction 1 as [|a l Hs IH Ha]; constructor.
  - apply IH. now inversion HP.
  - inversion HP; subst. rewrite Forall_forall in *. auto.
Qed.

(** The order of strings. *)

Lemma str_compare_eq (a b : string) : String_as_OT.compare a b = Eq <-> a = b.
Proof.
  destruct (String_as_OT.compare_spec a b) as [E | L | L]; split;
    try congruence; intros ->; exfalso;
    eapply (StrictOrder_Irreflexive (R := String_as_OT.lt)); eauto.
Qed.

Lemma str_compare_lt_trans (a b c : string) :
  String_as_OT.compare a b = Lt -> String_as_OT.compare b c = Lt ->
  String_as_OT.compare a c = Lt.
Proof. apply (StrictOrder_Transitive (R := String_as_OT.lt)). Qed.

Lemma str_compare_gt (a b : string) :
  String_as_OT.compare a b = Gt <-> String_as_OT.compare b a = Lt.
Proof.
  pose proof (StrictOrder_Irreflexive (R := String_as_OT.lt)) as Hirr.
  pose proof (StrictOrder_Transitive (R := String_as_OT.lt)) as Htr.
  unfold String_as_OT.lt in *.
  destruct (String_as_OT.compare_spec a b) as [E | L | L];
    unfold String_as_OT.lt in *; split; intros H; try congruence; auto.
  all: exfalso; subst;
    first [ exact (Hirr _ H) | exact (Hirr _ (Htr _ _ _ L H)) ].
Qed.

Lemma leb_str_total (a b : string) : leb_str a b = true \/ leb_str b a = true.
Proof.
  unfold leb_str.
  destruct (String_as_OT.compare a b) eqn:E; auto.
  apply str_compare_gt in E. rewrite E. auto.
Qed.

Lemma leb_str_trans (a b c : string) :
  leb_str a b = true -> leb_str b c = true -> leb_str a c = true.
Proof.
  unfold leb_str.
  destruct (String_as_OT.compare a b) eqn:E1; try discriminate;
  destruct (String_as_OT.compare b c) eqn:E2; try discriminate; intros _ _.
  - apply str_compare_eq in E1, E2. subst.
    now rewrite (proj2 (str_compare_eq c c) eq_refl).
  - apply str_compare_eq in E1. subst. now rewrite E2.
  - apply str_compare_eq in E2. subst. now rewrite E1.
  - now rewrite (str_compare_lt_trans _ _ _ E1 E2).
Qed.

Lemma claves_In (l : list string) (k : string) : In k (claves l) <-> In k l.
Proof. unfold claves. rewrite nodup_In. apply ordenar_In. Qed.

Lemma claves_NoDup (l : list string) : NoDup (claves l).
Proof. apply NoDup_nodup. Qed.

(** The order of a numeric column with [nan] last. *)

Lemma nle_trans (x y z : num) :
  (x <=? y)%num = true -> (y <=? z)%num = true -> (x <=? z)%num = true.
Proof.
  destruct x, y, z; try (simpl; intros; congruence).
  rewrite !nle_fin. intros. qc2q. lra.
Qed.

Lemma nle_total (x y : num) :
  isnan x = false -> isnan y = false ->
  (x <=? y)%num = true \/ (y <=? x)%num = true.
Proof.
  destruct x, y; simpl; try congruence; auto.
  intros _ _. qcmp q q0; auto. right.
  apply Qccompare_Lt in E. now rewrite E.
Qed.

Lemma leb_nan_last_total (x y : num) :
  leb_nan_last x y = true \/ leb_nan_last y x = true.
Proof.
  unfold leb_nan_last.
  destruct (isnan y) eqn:Ey; auto. destruct (isnan x) eqn:Ex; auto. simpl.
  now apply nle_total.
Qed.

Lemma leb_nan_last_trans (x y z : num) :
  leb_nan_last x y = true -> leb_nan_last y z = true ->
  leb_nan_last x z = true.
Proof.
  unfold leb_nan_last.
  destruct (isnan z) eqn:Ez; auto.
  destruct (isnan y) eqn:Ey; simpl; try discriminate.
  destruct (isnan x) eqn:Ex; simpl; try discriminate.
  apply nle_trans.
Qed.

Lemma leb_material_semana_total (a b : fila_costo) :
  leb_material_semana a b = true \/ leb_material_semana b a = true.
Proof.
  unfold leb_material_semana.
  destruct (String_as_OT.compare (Material (base (asig a)))
                                 (Material (base (asig b)))) eqn:E; auto.
  - apply str_compare_eq in E. rewrite E.
    rewrite (proj2 (str_compare_eq _ _) eq_refl). apply leb_nan_last_total.
  - apply str_compare_gt in E. rewrite E. auto.
Qed.

Lemma leb_material_semana_trans (a b c : fila_costo) :
  leb_material_semana a b = true -> leb_material_semana b c = true ->
  leb_material_semana a c = true.
Proof.
  unfold leb_material_semana.
  destruct (String_as_OT.compare (Material (base (asig a)))
                                 (Material (base (asig b)))) eqn:E1;
    try discriminate;
  destruct (String_as_OT.compare (Material (base (asig b)))
                                 (Material (base (asig c)))) eqn:E2;
    try discriminate.
  - apply str_compare_eq in E1, E2. rewrite E1, E2.
    rewrite (proj2 (str_compare_eq _ _) eq_refl). apply leb_nan_last_trans.
  - apply str_compare_eq in E1. rewrite E1, E2. auto.
  - apply str_compare_eq in E2. rewrite <- E2, E1. auto.
  - rewrite (str_compare_lt_trans _ _ _ E1 E2). auto.
Qed.

(** In rows sorted by [(Material, Semana_Num)], a material that has been
    left behind does not come back. *)
Lemma leb_material_semana_neq (a b c : fila_costo) :
  leb_material_semana a b = true ->
  Material (base (asig b)) <> Material (base (asig a)) ->
  leb_material_semana b c = true ->
  Material (base (asig c)) <> Material (base (asig a)).
Proof.
  unfold leb_material_semana. intros Hab Hne Hbc Heq.
  destruct (String_as_OT.compare (Material (base (asig a)))
                                 (Material (base (asig b)))) eqn:E1;
    try discriminate.
  - apply str_compare_eq in E1. congruence.
  - destruct (String_as_OT.compare (Material (base (asig b)))
                                   (Material (base (asig c)))) eqn:E2;
      try discriminate.
    + apply str_compare_eq in E2. rewrite E2, Heq in E1.
      rewrite (proj2 (str_compare_eq _ _) eq_refl) in E1. discriminate.
    + pose proof (str_compare_lt_trans _ _ _ E1 E2) as E3.
      rewrite Heq in E3.
      rewrite (proj2 (str_compare_eq _ _) eq_refl) in E3. discriminate.
Qed.

Lemma leb_material_semana_same (a b : fila_costo) :
  Material (base (asig a)) = Material (base (asig b)) ->
  leb_material_semana a b = true ->
  leb_nan_last (Semana_Num (base (asig a))) (Semana_Num (base (asig b))) = true.
Proof.
  unfold leb_material_semana. intros ->.
  now rewrite (proj2 (str_compare_eq _ _) eq_refl).
Qed.

Lemma in_merge_left (A B C : Type) (on : A -> B -> bool)
    (comb : A -> option B -> C) (l : list A) (r : list B) (c : C) :
  In c (merge_left on comb l r) <->
  exists a, In a l
    /\ ((exists b, In b r /\ on a b = true /\ c = comb a (Some b))
        \/ ((forall b, In b r -> on a b = false) /\ c = comb a None)).
Proof.
  unfold merge_left. rewrite in_flat_map. split.
  - intros (a & Ha & Hc). exists a. split; auto.
    destruct (filter (on a) r) as [|b0 ms] eqn:E.
    + right. destruct Hc as [<- | []]. split; auto.
      intros b Hb. destruct (on a b) eqn:Eb; auto.
      assert (In b (filter (on a) r)) by (apply filter_In; auto).
      rewrite E in H. destruct H.
    + left. apply in_map_iff in Hc. destruct Hc as (b & <- & Hb).
      rewrite <- E in Hb. apply filter_In in Hb. exists b. tauto.
  - intros (a & Ha & [(b & Hb & Hon & ->) | (Hno & ->)]); exists a; split; auto.
    + assert (Hf : In b (filter (on a) r)) by (apply filter_In; auto).
      destruct (filter (on a) r) as [|b0 ms]; [destruct Hf|].
      apply in_map_iff. exists b. auto.
    + destruct (filter (on a) r) as [|b0 ms] eqn:E; [left; auto|].
      assert (Hf : In b0 (filter (on a) r)) by (rewrite E; left; auto).
      apply filter_In in Hf. destruct Hf as [Hf1 Hf2].
      rewrite (Hno _ Hf1) in Hf2. discriminate.
Qed.

(** ** Continuity of the inventory loop *)

Section Continuidad.

Variable m : string.

Let es_m (rl : fila_costo * locales) : bool :=
  Material (base (asig (fst rl))) =? m.

Lemma bucle_encadenado (df : list fila_costo) :
  StronglySorted (fun a b => leb_material_semana a b = true) df ->
  forall prev pu pv,
    (forall b resto, prev = Some m -> df = b :: resto ->
       Material (base (asig b)) <> m ->
       forall c, In c df -> Material (base (asig c)) <> m) ->
    encadenado (if match prev with Some pm => pm =? m | None => false end
                then Some (pu, pv) else None)
               (filter es_m (bucle prev pu pv df)).
Proof.
  induction 1 as [|row df Hs IH Hrow]; intros prev pu pv Hg.
  - simpl. exact I.
  - cbn [bucle].
    destruct (apertura prev pu pv row) as [q v] eqn:Eap.
    set (l := paso q v row).
    assert (Hgrest : forall b resto, Some (Material (base (asig row))) = Some m ->
              df = b :: resto -> Material (base (asig b)) <> m ->
              forall c, In c df -> Material (base (asig c)) <> m).
    { intros b resto Hm Hdf Hb c Hc. injection Hm as Hm'. subst df.
      rewrite Forall_forall in Hrow.
      assert (Hb' : Material (base (asig b)) <> Material (base (asig row)))
        by congruence.
      assert (Hc' : Material (base (asig c)) <> Material (base (asig row)));
        [|congruence].
      destruct Hc as [<- | Hc]; auto.
      apply StronglySorted_inv in Hs. destruct Hs as [_ Hs].
      rewrite Forall_forall in Hs.
      eapply leb_material_semana_neq;
        [apply Hrow; left; reflexivity | exact Hb' | apply Hs; exact Hc]. }
    specialize (IH (Some (Material (base (asig row)))) (qty_final l) (val_final l) Hgrest).
    cbn [filter]. unfold es_m at 1. cbn [fst].
    destruct (Material (base (asig row)) =? m) eqn:Em.
    + (* the row is of material [m] *)
      cbn [encadenado]. split; [|exact IH].
      cbn [fst snd]. subst l. cbn [paso qty_ini val_ini].
      unfold apertura in Eap. cbv beta zeta in Eap.
      apply String.eqb_eq in Em. rewrite Em in Eap.
      destruct prev as [pm|].
      * rewrite (String.eqb_sym m pm) in Eap.
        destruct (pm =? m); simpl in Eap |- *; congruence.
      * simpl in Eap |- *. congruence.
    + (* another material *)
      destruct (match prev with Some pm => pm =? m | None => false end) eqn:Ep;
        [|exact IH].
      destruct prev as [pm|]; [|discriminate]. apply String.eqb_eq in Ep. subst pm.
      apply String.eqb_neq in Em.
      assert (Hnone : filter es_m
                (bucle (Some (Material (base (asig row)))) (qty_final l) (val_final l) df) = []).
      { destruct (filter es_m _) as [|x xs] eqn:Ef; auto. exfalso.
        assert (Hx : In x (filter es_m
                  (bucle (Some (Material (base (asig row)))) (qty_final l) (val_final l) df)))
          by (rewrite Ef; left; auto).
        apply filter_In in Hx. destruct Hx as [Hx1 Hx2].
        unfold es_m in Hx2. apply String.eqb_eq in Hx2.
        apply (in_map fst) in Hx1. rewrite bucle_fst in Hx1.
        exact (Hg row df eq_refl eq_refl Em (fst x) (or_intror Hx1) Hx2). }
      rewrite Hnone. exact I.
Qed.

Lemma encadenado_nth (sub : list (fila_costo * locales)) :
  forall st i rl rl',
    encadenado st sub ->
    nth_error sub i = Some rl -> nth_error sub (S i) = Some rl' ->
    qty_ini (snd rl') = qty_final (snd rl)
    /\ val_ini (snd rl') = val_final (snd rl).
Proof.
  induction sub as [|x sub IH]; intros st i rl rl' Hc H1 H2.
  - destruct i; discriminate.
  - destruct Hc as [_ Hc]. destruct i as [|i].
    + simpl in H1, H2. inversion H1; subst x.
      destruct sub as [|y sub]; [discriminate|].
      simpl in H2. inversion H2; subst y.
      destruct Hc as [Hc _]. inversion Hc. auto.
    + simpl in H1. eapply IH; eauto.
Qed.

End Continuidad.

Lemma StronglySorted_map_inv (A B : Type) (R : B -> B -> Prop) (f : A -> B)
    (l : list A) :
  StronglySorted R (map f l) ->
  StronglySorted (fun a b => R (f a) (f b)) l.
Proof.
  induction l as [|a l IH]; simpl; intros H.
  - constructor.
  - apply StronglySorted_inv in H. destruct H as [Hs Ha].
    constructor; auto.
    rewrite Forall_forall in *. intros x Hx. apply Ha. now apply in_map.
Qed.

(** Where the rows of the tables come from. *)

Lemma in_asignacion df_main resumen r :
  In r (asignacion df_main resumen) ->
  In (base r) df_main
  /\ ((exists s, In s resumen /\ sem_Semana s = Semana (base r)
                 /\ r = asignar (base r) (Some s))
      \/ ((forall s, In s resumen -> sem_Semana s <> Semana (base r))
          /\ r = asignar (base r) None)).
Proof.
  unfold asignacion. rewrite in_merge_left.
  intros (b & Hb & [(s & Hs & Hon & ->) | (Hno & ->)]); simpl; split; auto.
  - left. exists s. apply String.eqb_eq in Hon. auto.
  - right. split; auto. intros s Hs E. specialize (Hno s Hs).
    apply String.eqb_neq in Hno. congruence.
Qed.

Lemma in_costos cf df row :
  In row (costos cf df) ->
  In (asig row) df
  /\ exists t, In t (tabla_costos cf df)
       /\ tc_Semana t = Semana (base (asig row))
       /\ row = con_costo (asig row) (Some t).
Proof.
  unfold costos. rewrite in_merge_left.
  intros (r & Hr & [(t & Ht & Hon & ->) | (Hno & ->)]); simpl; split; auto.
  - exists t. apply String.eqb_eq in Hon. auto.
  - exfalso.
    assert (Hk : In (Semana (base r)) (claves (map (fun r => Semana (base r)) df)))
      by (apply claves_In, in_map_iff; eauto).
    unfold tabla_costos in Hno.
    set (mk := fun k => mk_tabla_costos k _ _ _) in Hno.
    specialize (Hno (mk (Semana (base r))) (in_map mk _ _ Hk)).
    simpl in Hno. rewrite String.eqb_refl in Hno. discriminate.
Qed.

Lemma in_df_ordenado df_base h cf disp modo row :
  In row (df_ordenado df_base h cf disp modo) ->
  In (base (asig row)) df_base.
Proof.
  unfold df_ordenado. rewrite ordenar_In. intros H.
  apply in_costos in H. destruct H as [H _].
  apply in_asignacion in H. tauto.
Qed.

Lemma in_df_base_materiales df_prod df_cap b :
  In b (df_base_materiales df_prod df_cap) ->
  exists p, In p df_prod
    /\ ((exists c, In c df_cap /\ strip (cap_Material c) = Material b
                   /\ b = fila_base_de p (Some c))
        \/ ((forall c, In c df_cap -> strip (cap_Material c) <> Material b)
            /\ b = fila_base_de p None)).
Proof.
  unfold df_base_materiales. rewrite in_merge_left.
  intros (p & Hp & [(c & Hc & Hon & ->) | (Hno & ->)]); exists p; split; auto.
  - left. exists c. unfold mismo_material in Hon. apply String.eqb_eq in Hon.
    simpl. auto.
  - right. split; auto. intros c Hc E. specialize (Hno c Hc).
    unfold mismo_material in Hno. apply String.eqb_neq in Hno.
    simpl in E. congruence.
Qed.

Lemma df_ordenado_sorted df_base h cf disp modo :
  StronglySorted (fun a b => leb_material_semana a b = true)
                 (df_ordenado df_base h cf disp modo).
Proof.
  unfold df_ordenado. apply ordenar_sorted.
  - apply leb_material_semana_total.
  - apply leb_material_semana_trans.
Qed.

(** C2: in every scenario run and for every material [m], the rows of
    [df_final] of that material come in ascending week order; the first
    of them opens with the static opening inventory quantity and value
    of its row, which are those of a row of the capacity table for [m]
    (or [nan] when the table has none); and every later one opens with
    the closing quantity and value of the one before. *)
Theorem rollforward_continuidad df_prod df_cap h cf tasa nombre disp modo
    (m : string) :
  let df_base := df_base_materiales df_prod df_cap in
  let sub :=
    filter (fun r => Material (fbase r) =? m)
           (fst (calcular_escenario df_base h cf tasa nombre disp modo)) in
  StronglySorted
    (fun r1 r2 =>
       leb_nan_last (Semana_Num (fbase r1)) (Semana_Num (fbase r2)) = true)
    sub
  /\ (forall r0, hd_error sub = Some r0 ->
        Inv_Inicial_Und r0 = Inventario_inicial (fbase r0)
        /\ Inv_Inicial_Valor r0 = Valor_inventario_inicial (fbase r0)
        /\ ((exists c, In c df_cap /\ strip (cap_Material c) = m
               /\ Inventario_inicial (fbase r0) = cap_Inventario_inicial c
               /\ Valor_inventario_inicial (fbase r0)
                  = cap_Valor_inventario_inicial c)
            \/ ((forall c, In c df_cap -> strip (cap_Material c) <> m)
                /\ Inventario_inicial (fbase r0) = NaN
                /\ Valor_inventario_inicial (fbase r0) = NaN)))
  /\ (forall i r r',
        nth_error sub i = Some r -> nth_error sub (S i) = Some r' ->
        Inv_Inicial_Und r' = Inv_Final_Und r
        /\ Inv_Inicial_Valor r' = Inv_Final_Valor r).
Proof.
  intros df_base sub.
  set (tr := traza df_base h cf disp modo).
  set (es_m := fun rl : fila_costo * locales =>
                 Material (base (asig (fst rl))) =? m).
  assert (Hsub : sub = map (fila_final_de nombre) (filter es_m tr)).
  { unfold sub. cbn [calcular_escenario fst]. fold tr.
    rewrite filter_map_swap. f_equal. apply filter_ext.
    intros [row l]. reflexivity. }
  assert (Hch : encadenado None (filter es_m tr)).
  { apply (@bucle_encadenado m (df_ordenado df_base h cf disp modo)
             (df_ordenado_sorted df_base h cf disp modo) None cero cero).
    intros; discriminate. }
  split; [|split].
  - (* ascending weeks *)
    rewrite Hsub.
    apply StronglySorted_map
      with (R := fun a b : fila_costo * locales =>
                   leb_nan_last (Semana_Num (base (asig (fst a))))
                                (Semana_Num (base (asig (fst b)))) = true).
    { intros [r1 l1] [r2 l2]. simpl. auto. }
    apply StronglySorted_weaken
      with (R := fun a b : fila_costo * locales =>
                   leb_material_semana (fst a) (fst b) = true)
           (P := fun a => es_m a = true).
    + intros a b Ha Hb. unfold es_m in Ha, Hb.
      apply String.eqb_eq in Ha, Hb. apply leb_material_semana_same. congruence.
    + apply Forall_forall. intros x Hx. apply filter_In in Hx. tauto.
    + apply StronglySorted_filter.
      apply (@StronglySorted_map_inv _ _
               (fun a b => leb_material_semana a b = true) fst).
      unfold tr, traza, inventario. rewrite bucle_fst. apply df_ordenado_sorted.
  - (* the first week *)
    intros r0 Hr0. rewrite Hsub in Hr0.
    destruct (filter es_m tr) as [|[row l] resto] eqn:Ef; [discriminate|].
    simpl in Hr0. inversion Hr0; subst r0. clear Hr0.
    destruct Hch as [Hop _]. simpl in Hop. inversion Hop as [[Hq Hv]].
    unfold fbase. simpl. split; [exact Hq|]. split; [exact Hv|].
    assert (Hin : In (row, l) (filter es_m tr)) by (rewrite Ef; left; auto).
    apply filter_In in Hin. destruct Hin as [Hin Hm].
    unfold es_m in Hm. simpl in Hm. apply String.eqb_eq in Hm.
    apply (in_map fst) in Hin. unfold tr, traza, inventario in Hin.
    rewrite bucle_fst in Hin. simpl in Hin.
    apply in_df_ordenado in Hin. apply in_df_base_materiales in Hin.
    destruct Hin as (p & _ & [(c & Hc & Hcm & Hb) | (Hno & Hb)]).
    + left. exists c. rewrite Hm in Hcm. rewrite Hb. simpl. auto.
    + right. rewrite Hm in Hno. rewrite Hb. simpl. auto.
  - (* the later weeks *)
    intros i r r' H1 H2. rewrite Hsub in H1, H2.
    rewrite nth_error_map in H1, H2.
    destruct (nth_error (filter es_m tr) i) as [[row l]|] eqn:E1; [|discriminate].
    destruct (nth_error (filter es_m tr) (S i)) as [[row' l']|] eqn:E2;
      [|discriminate].
    simpl in H1, H2. inversion H1; inversion H2; subst. simpl.
    eapply (@encadenado_nth _ _ _ (row, l) (row', l')); eauto.
Qed.

(* ================================================================= *)
(** ** Demand-driven mode *)

Lemma in_resumen_demanda h df_main disp s :
  In s (resumen_semanal h df_main disp true) ->
  exists kt, In kt (total_horas_req df_main)
    /\ s = fila_semana_de h (fst kt) (snd kt) (snd kt / h)%num.
Proof.
  unfold resumen_semanal. intros H. apply in_map_iff in H.
  destruct H as (kt & <- & Hkt). eauto.
Qed.

Lemma Qc_div_mul_sub (t hq : Qc) : hq <> 0%Qc -> (t / hq * hq + - t = 0)%Qc.
Proof. intros H. field. exact H. Qed.




(* ================================================================= *)
(** ** Which scenarios are computed *)

Lemma merge_left_covers (A B C : Type) (on : A -> B -> bool)
    (comb : A -> option B -> C) (l : list A) (r : list B) (a : A) :
  In a l -> exists ob, In (comb a ob) (merge_left on comb l r).
Proof.
  intros Ha. unfold merge_left.
  destruct (filter (on a) r) as [|b0 ms] eqn:E.
  - exists None. apply in_flat_map. exists a. rewrite E. simpl. auto.
  - exists (Some b0). apply in_flat_map. exists a. rewrite E. simpl. auto.
Qed.

Lemma merge_left_nil (A B C : Type) (on : A -> B -> bool)
    (comb : A -> option B -> C) (r : list B) :
  merge_left on comb [] r = [].
Proof. reflexivity. Qed.








Lemma unique_In (l : list string) (k : string) : In k (unique l) <-> In k l.
Proof.
  induction l as [|x l IH]; simpl; [tauto|].
  rewrite filter_In, IH. destruct (String.eqb_spec k x) as [-> | Hne].
  - tauto.
  - simpl. split; [tauto|]. intros [E | H]; [congruence | tauto].
Qed.

Lemma delta_de_fst (semanal : list fila_resumen) (e : string) :
  fst (delta_de semanal e) = e.
Proof. unfold delta_de. destruct (ordenar _ _); reflexivity. Qed.

Lemma in_comparar (semanal : list fila_resumen) (c : fila_comparativa) :
  In c (comparar semanal) <->
  In (comp_Escenario c) (map res_Escenario semanal)
  /\ c = (let g := filter (fun r => res_Escenario r =? comp_Escenario c) semanal in
          let cmv := nansum (map (fun r => agr_Costo_Mercancia_Vendida (agr r)) g) in
          let capital := nansum (map Costo_Capital g) in
          let delta := snd (delta_de semanal (comp_Escenario c)) in
          mk_comparativa (comp_Escenario c) cmv (nansum (map EBITDA_CMV g))
                         capital delta (cmv + capital + delta)%num).
Proof.
  unfold comparar. rewrite in_flat_map. split.
  - intros ([k [[cmv ebitda] capital]] & Ht & Hc).
    apply in_map_iff in Hc. destruct Hc as (d & <- & Hd).
    apply filter_In in Hd. destruct Hd as [Hd Hk]. apply String.eqb_eq in Hk.
    unfold totales in Ht. apply in_map_iff in Ht. destruct Ht as (k' & E & Hk').
    inversion E; subst. clear E.
    unfold deltas in Hd. apply in_map_iff in Hd. destruct Hd as (e & <- & He).
    simpl in *. rewrite delta_de_fst in *.
    apply (proj1 (claves_In _ _)) in Hk'. split; auto.
  - intros [Hin Hc].
    exists (comp_Escenario c,
            (nansum (map (fun r => agr_Costo_Mercancia_Vendida (agr r))
                         (filter (fun r => res_Escenario r =? comp_Escenario c) semanal)),
             nansum (map EBITDA_CMV
                         (filter (fun r => res_Escenario r =? comp_Escenario c) semanal)),
             nansum (map Costo_Capital
                         (filter (fun r => res_Escenario r =? comp_Escenario c) semanal)))).
    split.
    + unfold totales. apply in_map_iff. exists (comp_Escenario c).
      split; [reflexivity | now apply claves_In].
    + apply in_map_iff. exists (delta_de semanal (comp_Escenario c)). split.
      * symmetry. exact Hc.
      * apply filter_In. split.
        -- unfold deltas. apply in_map. now apply unique_In.
        -- rewrite delta_de_fst. apply String.eqb_refl.
Qed.






(** What a run that reports is made of. *)
Lemma ejecutar_inv df_prod df_cap df_disp_raw df_params res :
  ejecutar df_prod df_cap df_disp_raw df_params = Some res ->
  exists h cf tasa mejor,
    parametros df_params = Some (h, cf, tasa)
    /\ df_master_materiales res =
       List.concat (map fst (simulaciones (df_base_materiales df_prod df_cap)
                                          h cf tasa df_disp_raw))
    /\ df_master_semanal res =
       List.concat (map snd (simulaciones (df_base_materiales df_prod df_cap)
                                          h cf tasa df_disp_raw))
    /\ tabla_comparativa res = comparar (df_master_semanal res)
    /\ mejores res = ordenar leb_impacto (tabla_comparativa res)
    /\ hd_error (mejores res) = Some mejor
    /\ mejor_escenario res = comp_Escenario mejor
    /\ impacto_mejor res = Impacto_Total_FCL mejor
    /\ ahorro res =
       (Impacto_Total_FCL (last (mejores res) mejor) - Impacto_Total_FCL mejor)%num.
Proof.
  unfold ejecutar. destruct (parametros df_params) as [[[h cf] tasa]|];
    [|discriminate].
  destruct (ordenar leb_impacto _) as [|mejor resto] eqn:E; [discriminate|].
  intros H. inversion H; subst; clear H. cbn [df_master_materiales
    df_master_semanal tabla_comparativa mejores mejor_escenario impacto_mejor
    ahorro].
  exists h, cf, tasa, mejor. rewrite E. repeat split; reflexivity.
Qed.



(* ================================================================= *)
(** ** The comparison table, the best scenario and the savings *)

Lemma leb_nan_last_not_lt (x y : num) :
  leb_nan_last x y = true -> (y <? x)%num = false.
Proof.
  unfold leb_nan_last. destruct y; simpl; auto; destruct x; simpl; auto;
    try discriminate.
  qcmp q0 q; try discriminate; intros _.
  - subst. now rewrite Qccompare_refl.
  - apply Qccompare_Gt in E. now rewrite E.
Qed.

Lemma resta_no_negativa (a b : num) :
  leb_nan_last a b = true \/ a = b ->
  ((b - a) <? cero)%num = false
  /\ (is_fin a = true -> is_fin b = true -> (cero <=? (b - a))%num = true).
Proof.
  intros H.
  assert (H' : (b <? a)%num = false).
  { destruct H as [H | ->]; [now apply leb_nan_last_not_lt | apply nlt_irrefl]. }
  clear H. destruct a as [p| | |], b as [q| | |];
    try (split; [reflexivity | discriminate]); try discriminate H'.
  assert (Hle : ~ (q < p)%Qc).
  { intros Hlt. apply nlt_fin in Hlt. congruence. }
  unfold nsub, cero. cbn [nopp nadd]. split.
  - destruct (Fin (q + - p) <? Fin 0)%num eqn:E; auto.
    apply nlt_fin in E. exfalso. apply Hle. qc2q. lra.
  - intros _ _. apply nle_fin. qc2q. lra.
Qed.

Lemma StronglySorted_last (A : Type) (R : A -> A -> Prop) (l : list A) (d : A) :
  StronglySorted R l ->
  forall c, In c l -> c = last l d \/ R c (last l d).
Proof.
  induction 1 as [|a l Hs IH Ha]; intros c Hc.
  - destruct Hc.
  - destruct l as [|b l'].
    + destruct Hc as [<- | []]. left. reflexivity.
    + change (last (a :: b :: l') d) with (last (b :: l') d).
      destruct Hc as [<- | Hc].
      * right. rewrite Forall_forall in Ha. apply Ha.
        destruct (IH b (or_introl eq_refl)) as [E | _].
        -- rewrite <- E. left. reflexivity.
        -- clear. generalize b. induction l' as [|x l' IHl]; intros b0.
           ++ left. reflexivity.
           ++ right. apply IHl.
      * apply IH. exact Hc.
Qed.

Lemma last_In (A : Type) (l : list A) (d : A) : l <> [] -> In (last l d) l.
Proof.
  induction l as [|a l IH]; [congruence|]. intros _.
  destruct l as [|b l']; [left; reflexivity|].
  right. apply IH. discriminate.
Qed.

Lemma leb_impacto_total (a b : fila_comparativa) :
  leb_impacto a b = true \/ leb_impacto b a = true.
Proof. apply leb_nan_last_total. Qed.

Lemma leb_impacto_trans (a b c : fila_comparativa) :
  leb_impacto a b = true -> leb_impacto b c = true -> leb_impacto a c = true.
Proof. apply leb_nan_last_trans. Qed.


(* ================================================================= *)
(** ** Required hours at zero units per hour *)

Lemma ndiv_cero_no_fin (d : num) : is_fin (d / cero)%num = false.
Proof.
  unfold cero. destruct d as [a| | |]; unfold ndiv;
    rewrite ?Qccompare_refl; try reflexivity.
  destruct (a ?= 0)%Qc; reflexivity.
Qed.

(** C1 fails on the code: line 176 divides without a guard.  For a
    material at zero units per hour the required hours are never a
    number, and in the run of the example with such a material every
    row of the material table carries [inf] required hours and [nan]
    allocated hours, produced units and closing inventory, and the
    weekly table reports [inf] required hours and shifts. *)
Theorem horas_necesarias_sin_guarda :
  (forall p c, cap_Unidades_por_hora c = cero ->
               is_fin (Horas_Necesarias (fila_base_de p (Some c))) = false)
  /\ option_map
       (fun res =>
          map (fun r => (Horas_Necesarias (fbase r),
                         Horas_Finales_Asignadas (fasig r),
                         Unidades_A_Producir (fasig r),
                         Inv_Final_Und r, Inv_Final_Valor r))
              (df_master_materiales res))
       (ejecutar ejemplo_prod cap_sin_ritmo ejemplo_disp ejemplo_params)
     = Some (repeat (PInf, NaN, NaN, NaN, NaN) 6)
  /\ option_map
       (fun res =>
          map (fun x => (agr_Total_Horas_Req_Semana (agr x), Turnos_necesarios x))
              (df_master_semanal res))
       (ejecutar ejemplo_prod cap_sin_ritmo ejemplo_disp ejemplo_params)
     = Some (repeat (PInf, PInf) 6).
Proof.
  split; [|split].
  - intros p c Hc. simpl. rewrite Hc. apply ndiv_cero_no_fin.
  - vm_compute. reflexivity.
  - vm_compute. reflexivity.
Qed.

(* ================================================================= *)
(** ** The properties on the example *)

Ltac calcula := vm_compute; first [reflexivity | lia | discriminate].

Lemma qty_sold_min_supply_witness :
  let tr := traza ejemplo_base (nz 8) (nz 1000) ejemplo_turnos false in
  let rl := nth 0 tr (fila_costo_nula, paso NaN NaN fila_costo_nula) in
  let demand := Demanda_semanal (base (asig (fst rl))) in
  let supply := (qty_ini (snd rl) + Unidades_A_Producir (asig (fst rl)))%num in
  qty_sold (snd rl) = py_min demand supply
  /\ (supply <? qty_sold (snd rl))%num = false
  /\ (isnan demand = false -> isnan supply = false ->
      (qty_sold (snd rl) <=? supply)%num = true)
  /\ qty_final (snd rl) = (supply - qty_sold (snd rl))%num
  /\ (forall row' l',
        nth_error tr 1 = Some (row', l') ->
        Material (base (asig row')) = Material (base (asig (fst rl))) ->
        qty_sold l' =
        py_min (Demanda_semanal (base (asig row')))
               (qty_final (snd rl) + Unidades_A_Producir (asig row'))%num).
Proof.
  intros tr rl.
  apply (@qty_sold_min_supply ejemplo_base (nz 8) (nz 1000) ejemplo_turnos false
           0 (fst rl) (snd rl)).
  rewrite <- surjective_pairing. apply nth_error_nth'. calcula.
Defined.




(* ================================================================= *)
(** ** Nonnegative inputs give a nonnegative weighted-average cost *)

Lemma no_negativo_nn (x : num) : no_negativo x = true <-> nn x.
Proof.
  unfold no_negativo, nn. destruct x as [q| | |]; simpl; split;
    try discriminate; try (intros (q' & E & _); discriminate).
  - intros H. exists q. split; auto. apply (nle_fin 0%Qc q). exact H.
  - intros (q' & E & H). inversion E; subst. apply (nle_fin 0%Qc q'). exact H.
Qed.

Lemma nn_fin (q : Qc) : (0 <= q)%Qc -> nn (Fin q).
Proof. intros H. exists q. auto. Qed.

Lemma nn_cero : nn cero.
Proof. apply nn_fin. qc2q. lra. Qed.

(** The sum of required hours of a week. *)
Lemma nansum_acc_shape (l : list num) :
  forall acc : Qc,
    (0 <= acc)%Qc ->
    Forall nn_inf_nan l ->
    let r := fold_left (fun a x => if isnan x then a else (a + x)%num) l (Fin acc) in
    (r = PInf \/ nn r)
    /\ (forall t, r = Fin t ->
          (acc <= t)%Qc
          /\ forall x, In x l -> x = NaN \/ exists q, x = Fin q /\ (0 <= q <= t)%Qc).
Proof.
  induction l as [|x l IH]; intros acc Hacc Hl; cbn zeta.
  - simpl. split.
    + right. now apply nn_fin.
    + intros t E. inversion E; subst. split; [qc2q; lra|]. intros x [].
  - inversion Hl as [|x' l' Hx Hl']; subst. simpl.
    destruct Hx as [-> | [-> | (q & -> & Hq)]].
    + (* nan is skipped *)
      simpl. destruct (IH acc Hacc Hl') as [H1 H2]. split; [exact H1|].
      intros t E. destruct (H2 t E) as [Ha Hall]. split; [exact Ha|].
      intros x [<- | Hx]; auto.
    + (* inf absorbs the rest *)
      simpl.
      assert (Hinf : forall l0, Forall nn_inf_nan l0 ->
                fold_left (fun a x => if isnan x then a else (a + x)%num) l0 PInf = PInf).
      { clear. induction l0 as [|y l0 IH0]; intros Hl0; [reflexivity|].
        inversion Hl0 as [|y' l0' Hy Hl0']; subst. simpl.
        destruct Hy as [-> | [-> | (q & -> & _)]]; simpl; auto. }
      rewrite (Hinf l Hl'). split; [left; reflexivity | discriminate].
    + simpl.
      assert (Hacc' : (0 <= acc + q)%Qc) by (qc2q; lra).
      destruct (IH (acc + q)%Qc Hacc' Hl') as [H1 H2]. split; [exact H1|].
      intros t E. destruct (H2 t E) as [Ha Hall]. split; [qc2q; lra|].
      intros x [<- | Hx]; auto.
      right. exists q. split; auto. qc2q. lra.
Qed.

Lemma nansum_shape (l : list num) :
  Forall nn_inf_nan l ->
  (nansum l = PInf \/ nn (nansum l))
  /\ (forall t, nansum l = Fin t ->
        forall x, In x l -> x = NaN \/ exists q, x = Fin q /\ (0 <= q <= t)%Qc).
Proof.
  intros Hl. unfold nansum, cero.
  destruct (@nansum_acc_shape l 0%Qc) as [H1 H2]; auto; [qc2q; lra|].
  split; [exact H1|]. intros t E. apply (H2 t E).
Qed.

Lemma nansum_nn (l : list num) : Forall nn_nan l -> nn (nansum l).
Proof.
  intros Hl.
  assert (Hl' : Forall nn_inf_nan l).
  { eapply Forall_impl; [|exact Hl]. intros x [H | H]; [left | right; right]; auto. }
  destruct (nansum_shape Hl') as [[E | H] H2]; auto.
  exfalso.
  assert (Hgen : forall l0 (acc : Qc), Forall nn_nan l0 ->
            is_fin (fold_left (fun a x => if isnan x then a else (a + x)%num) l0 (Fin acc))
            = true).
  { clear. induction l0 as [|y l0 IH0]; intros acc Hl0; [reflexivity|].
    inversion Hl0 as [|y' l0' Hy Hl0']; subst. simpl.
    destruct Hy as [-> | (q & -> & _)]; simpl; auto. }
  specialize (Hgen l 0%Qc Hl). unfold nansum, cero in E. rewrite E in Hgen.
  discriminate.
Qed.

(** Required hours of a row. *)
Lemma horas_shape (d u : num) : nn d -> nn u -> nn_inf_nan (d / u)%num.
Proof.
  intros (a & -> & Ha) (b & -> & Hb). unfold ndiv.
  qcmp b 0%Qc.
  - qcmp a 0%Qc; simpl; [left | exfalso; qc2q; lra | right; left]; auto.
  - exfalso. qc2q. lra.
  - right. right. apply nn_fin. qc2q.
    apply Qle_shift_div_l; lra.
Qed.

(** The weeks of [resumen_semanal]. *)

Lemma in_total_horas_req df_main kt :
  In kt (total_horas_req df_main) ->
  In (fst kt) (map Semana df_main)
  /\ snd kt = nansum (map Horas_Necesarias
                          (filter (fun r => Semana r =? fst kt) df_main)).
Proof.
  unfold total_horas_req. intros H. apply in_map_iff in H.
  destruct H as (k & <- & Hk). simpl. split; auto. now apply claves_In.
Qed.

Lemma in_resumen_semanal h df_main disp modo s :
  In s (resumen_semanal h df_main disp modo) ->
  exists kt, In kt (total_horas_req df_main)
    /\ ((modo = true /\ s = fila_semana_de h (fst kt) (snd kt) (snd kt / h)%num)
        \/ (modo = false
            /\ exists turnos,
                 (turnos = NaN
                  \/ exists d, In d disp /\ turnos = turnos_Turnos_disponibles d)
                 /\ s = fila_semana_de h (fst kt) (snd kt) (fillna cero turnos))).
Proof.
  destruct modo.
  - intros H. apply in_resumen_demanda in H. destruct H as (kt & Hkt & ->).
    exists kt. auto.
  - unfold resumen_semanal. rewrite in_merge_left.
    intros (kt & Hkt & Hcase). exists kt. split; [exact Hkt|].
    right. split; [reflexivity|].
    destruct Hcase as [(d & Hd & _ & ->) | (_ & ->)].
    + exists (turnos_Turnos_disponibles d). split; [right; eauto | reflexivity].
    + exists NaN. split; [left; reflexivity | reflexivity].
Qed.

Lemma sem_ok_turnos (hh : Qc) (k : string) (T turnos : num) :
  T = PInf \/ nn T ->
  no_infinito turnos = true ->
  sem_ok (fila_semana_de (Fin hh) k T (fillna cero turnos)).
Proof.
  intros HT Htu. unfold sem_ok, fila_semana_de. cbn [Total_Horas_Req_Semana
    Diferencia_Horas].
  assert (Hf : exists x, fillna cero turnos = Fin x).
  { destruct turnos; try discriminate Htu; unfold fillna, cero; simpl; eauto. }
  destruct Hf as [x ->]. cbn [nmul].
  destruct HT as [-> | (t & -> & Ht)].
  - left. split; auto.
  - right. exists t. repeat split; auto.
Qed.

Lemma sem_ok_demanda (hh : Qc) (k : string) (T : num) :
  T = PInf \/ nn T ->
  sem_ok (fila_semana_de (Fin hh) k T (T / Fin hh)%num).
Proof.
  intros HT. unfold sem_ok, fila_semana_de. cbn [Total_Horas_Req_Semana
    Diferencia_Horas].
  destruct HT as [-> | (t & -> & Ht)].
  - left. split; auto. unfold ndiv.
    qcmp hh 0%Qc.
    + subst hh. right. unfold nmul, sgn. rewrite Qccompare_refl. reflexivity.
    + right. unfold nmul, sgn, sgn_mul, inf_sgn.
      rewrite (proj2 (Qccompare_Lt _ _) E). reflexivity.
    + right. unfold nmul, sgn, sgn_mul, inf_sgn.
      rewrite (proj2 (Qccompare_Gt _ _) E). reflexivity.
  - right. exists t. split; auto. split; auto. unfold ndiv.
    qcmp hh 0%Qc.
    + subst hh. left. qcmp t 0%Qc; simpl; auto.
    + right. reflexivity.
    + right. reflexivity.
Qed.

Lemma resumen_semanal_ok (hh : Qc) df_main disp modo s :
  (forall b, In b df_main -> nn_inf_nan (Horas_Necesarias b)) ->
  (forall d, In d disp -> no_infinito (turnos_Turnos_disponibles d) = true) ->
  In s (resumen_semanal (Fin hh) df_main disp modo) ->
  sem_ok s
  /\ Total_Horas_Req_Semana s =
     nansum (map Horas_Necesarias
                 (filter (fun r => Semana r =? sem_Semana s) df_main)).
Proof.
  intros HH Hdisp Hs. apply in_resumen_semanal in Hs.
  destruct Hs as (kt & Hkt & Hs). apply in_total_horas_req in Hkt.
  destruct Hkt as [_ HT].
  assert (Hshape : snd kt = PInf \/ nn (snd kt)).
  { rewrite HT. apply nansum_shape. apply Forall_forall. intros x Hx.
    apply in_map_iff in Hx. destruct Hx as (b & <- & Hb).
    apply filter_In in Hb. apply HH, Hb. }
  destruct Hs as [[_ ->] | (_ & turnos & Htu & ->)].
  - split; [now apply sem_ok_demanda | exact HT].
  - split; [|exact HT]. apply sem_ok_turnos; auto.
    destruct Htu as [-> | (d & Hd & ->)]; auto.
Qed.

(** Allocation of a row. *)

Lemma py_max_cero_nan : py_max NaN cero = NaN.
Proof. reflexivity. Qed.

Lemma py_max_cero_fin (x : Qc) : nn (py_max (Fin x) cero).
Proof.
  unfold py_max. destruct (cero >? Fin x)%num eqn:E.
  - apply nn_cero.
  - apply nn_fin. unfold ngt, cero in E.
    destruct (Qclt_le_dec x 0%Qc) as [Hlt | Hle]; auto.
    apply nlt_fin in Hlt. congruence.
Qed.

Lemma nmul_cero_no_fin (d : num) :
  d = NInf \/ d = NaN -> (cero * d)%num = NaN.
Proof.
  intros [-> | ->]; [|reflexivity].
  unfold cero, nmul, sgn. rewrite Qccompare_refl. reflexivity.
Qed.

Lemma asignar_shape (b : fila_base) (s : fila_semana) :
  nn (Unidades_por_hora b) ->
  sem_ok s ->
  (Horas_Necesarias b = NaN
   \/ (Horas_Necesarias b = PInf /\ Total_Horas_Req_Semana s = PInf)
   \/ (exists q, Horas_Necesarias b = Fin q /\ (0 <= q)%Qc
         /\ forall t, Total_Horas_Req_Semana s = Fin t -> (q <= t)%Qc)) ->
  nn_nan (Unidades_A_Producir (asignar b (Some s))).
Proof.
  intros (u & Hu & Hu0) Hs HH. unfold asignar. cbn [Unidades_A_Producir].
  rewrite Hu.
  destruct HH as [-> | [[-> HT] | (q & -> & Hq & Hqt)]].
  - (* no required hours *)
    left. destruct (Total_Horas_Req_Semana s), (Diferencia_Horas s); reflexivity.
  - (* infinite required hours *)
    left. rewrite HT. destruct Hs as [[_ Hd] | (t & Ht & _)]; [|congruence].
    cbn [ndiv fillna isnan]. rewrite (nmul_cero_no_fin Hd). reflexivity.
  - destruct Hs as [[HT Hd] | (t & HT & Ht & Hd)]; rewrite HT.
    + (* an infinite week *)
      left. cbn [ndiv fillna isnan]. fold cero.
      rewrite (nmul_cero_no_fin Hd). reflexivity.
    + (* a finite week *)
      specialize (Hqt t HT).
      assert (Hsh : exists sh, fillna cero (Fin q / Fin t)%num = Fin sh).
      { unfold ndiv. qcmp t 0%Qc.
        - assert (q = 0%Qc) by (qc2q; lra). subst q.
          rewrite Qccompare_refl. unfold fillna, cero. simpl. eauto.
        - exfalso. qc2q. lra.
        - unfold fillna. simpl. eauto. }
      destruct Hsh as [sh ->].
      destruct Hd as [-> | Hd].
      * left. reflexivity.
      * destruct (Diferencia_Horas s) as [d| | |]; try discriminate.
        cbn [nmul nadd].
        destruct (py_max_cero_fin (q + sh * d)%Qc) as (y & -> & Hy).
        right. cbn [nmul]. apply nn_fin. qc2q. nra.
Qed.

Lemma asignar_None_nan (b : fila_base) :
  Unidades_A_Producir (asignar b None) = NaN.
Proof.
  unfold asignar. cbn [Unidades_A_Producir Total_Horas_Req_Semana
    Diferencia_Horas].
  destruct (Horas_Necesarias b), (Unidades_por_hora b); reflexivity.
Qed.

Lemma asignacion_ok (hh : Qc) df_main disp modo r :
  (forall b, In b df_main -> base_ok b) ->
  (forall d, In d disp -> no_infinito (turnos_Turnos_disponibles d) = true) ->
  In r (asignacion df_main (resumen_semanal (Fin hh) df_main disp modo)) ->
  nn_nan (Unidades_A_Producir r) /\ base_ok (base r).
Proof.
  intros Hbase Hdisp Hr. apply in_asignacion in Hr.
  destruct Hr as [Hb Hcase]. split; [|now apply Hbase].
  assert (HH : forall b, In b df_main -> nn_inf_nan (Horas_Necesarias b)).
  { intros b Hbin. destruct (Hbase b Hbin) as (Hd & Hu & _ & _ & _ & ->).
    now apply horas_shape. }
  destruct Hcase as [(s & Hs & Hsem & ->) | (_ & ->)];
    [|left; apply asignar_None_nan].
  cbn [base asignar] in *.
  set (b := base r) in *.
  destruct (@resumen_semanal_ok hh df_main disp modo s HH Hdisp Hs) as [Hok HT].
  assert (Hlist : Forall nn_inf_nan
            (map Horas_Necesarias
                 (filter (fun r0 => Semana r0 =? sem_Semana s) df_main))).
  { apply Forall_forall. intros x Hx. apply in_map_iff in Hx.
    destruct Hx as (b0 & <- & Hb0). apply filter_In in Hb0. apply HH, Hb0. }
  destruct (nansum_shape Hlist) as [Hshape Hall]. rewrite <- HT in Hshape, Hall.
  assert (Hbin : In (Horas_Necesarias b)
            (map Horas_Necesarias
                 (filter (fun r0 => Semana r0 =? sem_Semana s) df_main))).
  { apply in_map. apply filter_In. split; auto. rewrite Hsem.
    apply String.eqb_refl. }
  apply asignar_shape; auto.
  - apply (Hbase b Hb).
  - destruct (HH b Hb) as [E | [E | (q & E & Hq)]].
    + left. exact E.
    + right. left. split; auto.
      destruct Hshape as [HP | (t & Ht & _)]; auto. exfalso.
      destruct (Hall t Ht _ Hbin) as [E' | (q & E' & _)]; congruence.
    + right. right. exists q. repeat split; auto. intros t Ht.
      destruct (Hall t Ht _ Hbin) as [E' | (q' & E' & Hq')]; [congruence|].
      rewrite E in E'. inversion E'; subst. tauto.
Qed.

Lemma costos_ok (cf : num) (A : list fila_asig) (row : fila_costo) :
  nn cf ->
  (forall r, In r A -> nn_nan (Unidades_A_Producir r) /\ base_ok (base r)) ->
  In row (costos cf A) ->
  fila_costo_ok row.
Proof.
  intros (c & -> & Hc) HA Hrow. apply in_costos in Hrow.
  destruct Hrow as (Hin & t & Ht & _ & Hrow).
  destruct (HA _ Hin) as [Hu (Hd & _ & Hi & Hv & Hcvu & _)].
  unfold fila_costo_ok. repeat split; auto.
  rewrite Hrow. cbn [con_costo Costo_unitario_total].
  unfold tabla_costos in Ht. apply in_map_iff in Ht.
  destruct Ht as (k & <- & _). cbn [tc_Costo_fijo_unitario].
  set (S := nansum _).
  assert (HS : nn S).
  { apply nansum_nn. apply Forall_forall. intros x Hx.
    apply in_map_iff in Hx. destruct Hx as (r & <- & Hr).
    apply filter_In in Hr. apply HA, Hr. }
  destruct HS as (s & -> & Hs). destruct Hcvu as (v & -> & Hv0).
  destruct (Fin s >? cero)%num eqn:E.
  - apply ngt_cero_fin in E. rewrite ndiv_fin by (now apply Qclt_neq).
    cbn [nadd]. apply nn_fin. qc2q.
    assert (0 <= c * / s)%Q by (apply Qle_shift_div_l; lra). lra.
  - unfold cero. cbn [nadd]. apply nn_fin. qc2q. lra.
Qed.

(** One iteration keeps the state well formed and its cost nonnegative. *)
Lemma paso_ok (q v : num) (row : fila_costo) :
  estado_ok q v -> fila_costo_ok row ->
  nn (wac (paso q v row))
  /\ estado_ok (qty_final (paso q v row)) (val_final (paso q v row)).
Proof.
  intros Hst (Hu & (d & Hd & Hd0) & (dem & Hdem & Hdem0) & _ & _).
  assert (Hnan : (q + Unidades_A_Producir (asig row))%num = NaN ->
            nn (wac (paso q v row))
            /\ estado_ok (qty_final (paso q v row)) (val_final (paso q v row))).
  { intros E. unfold paso. cbn [wac qty_final val_final]. rewrite E, Hd, Hdem.
    split.
    - cbn. now apply nn_fin.
    - right. split; reflexivity. }
  destruct Hst as [[(a & -> & Ha) (b & -> & Hb)] | [-> ->]];
    [|apply Hnan; destruct (Unidades_A_Producir (asig row)); reflexivity].
  destruct Hu as [Hu | (c & Hu & Hc)]; [apply Hnan; now rewrite Hu|].
  destruct (paso_fin a b row Hu Hd) as (Ht & Hv & _ & Hw1 & Hw2).
  assert (Hw : exists w, wac (paso (Fin a) (Fin b) row) = Fin w /\ (0 <= w)%Qc).
  { destruct (Qclt_le_dec 0%Qc (a + c)%Qc) as [Hpos | Hnp].
    - rewrite (Hw1 Hpos). eexists. split; [reflexivity|].
      qc2q. apply Qle_shift_div_l; [lra | nra].
    - rewrite Hw2 by (intros Hlt; qc2q; lra). eauto. }
  destruct Hw as (w & Hw & Hw0). split; [rewrite Hw; now apply nn_fin|].
  left.
  assert (Hqf : qty_final (paso (Fin a) (Fin b) row)
                = (Fin (a + c) - py_min (Fin dem) (Fin (a + c)))%num).
  { unfold paso. cbn [qty_final]. now rewrite Hu, Hdem. }
  assert (Hvf : val_final (paso (Fin a) (Fin b) row)
                = (qty_final (paso (Fin a) (Fin b) row) * Fin w)%num).
  { rewrite <- Hw. reflexivity. }
  assert (Hs : exists s, py_min (Fin dem) (Fin (a + c)) = Fin s
                         /\ (0 <= s <= a + c)%Qc).
  { unfold py_min. destruct (Fin (a + c) <? Fin dem)%num eqn:E.
    - eexists. split; [reflexivity|]. qc2q. lra.
    - eexists. split; [reflexivity|]. split; auto.
      destruct (Qclt_le_dec (a + c)%Qc dem) as [Hlt | Hle]; auto.
      apply nlt_fin in Hlt. congruence. }
  destruct Hs as (s & Hs & Hs0).
  rewrite Hvf, Hqf, Hs. unfold nsub. cbn [nopp nadd nmul].
  split; apply nn_fin; qc2q; [lra | nra].
Qed.

Lemma bucle_ok (df : list fila_costo) :
  Forall fila_costo_ok df ->
  forall prev pu pv row l,
    estado_ok pu pv ->
    In (row, l) (bucle prev pu pv df) ->
    nn (wac l).
Proof.
  induction 1 as [|r df Hr Hdf IH]; intros prev pu pv row l Hst Hin.
  - destruct Hin.
  - cbn [bucle] in Hin.
    destruct (apertura prev pu pv r) as [q v] eqn:Eap.
    assert (Hqv : estado_ok q v).
    { unfold apertura in Eap.
      destruct (match prev with Some m => negb _ | None => true end);
        inversion Eap; subst; auto.
      left. split; apply Hr. }
    destruct (paso_ok Hqv Hr) as [Hw Hst'].
    destruct Hin as [E | Hin].
    + inversion E; subst. exact Hw.
    + eapply IH; eauto.
Qed.

Lemma cap_no_negativa_nn (c : fila_cap) :
  cap_no_negativa c = true ->
  nn (cap_Unidades_por_hora c) /\ nn (cap_Inventario_inicial c)
  /\ nn (cap_Valor_inventario_inicial c) /\ nn (cap_Costo_variable_unitario c).
Proof.
  unfold cap_no_negativa. rewrite !andb_true_iff, !no_negativo_nn. tauto.
Qed.

Lemma entradas_base_ok df_prod df_cap :
  forallb (fun p => no_negativo (prod_Demanda_semanal p)
                    && existsb (mismo_material p) df_cap) df_prod = true ->
  forallb cap_no_negativa df_cap = true ->
  forall b, In b (df_base_materiales df_prod df_cap) -> base_ok b.
Proof.
  intros Hprod Hcap b Hb. rewrite forallb_forall in Hprod, Hcap.
  apply in_df_base_materiales in Hb.
  destruct Hb as (p & Hp & [(c & Hc & _ & ->) | (Hno & ->)]).
  - specialize (Hprod p Hp). apply andb_true_iff in Hprod.
    destruct Hprod as [Hd _]. apply no_negativo_nn in Hd.
    destruct (cap_no_negativa_nn c (Hcap c Hc)) as (Hu & Hi & Hv & Hcv).
    unfold base_ok. simpl. auto 10.
  - exfalso. specialize (Hprod p Hp). apply andb_true_iff in Hprod.
    destruct Hprod as [_ Hex]. apply existsb_exists in Hex.
    destruct Hex as (c & Hc & Hm). unfold mismo_material in Hm.
    apply String.eqb_eq in Hm. apply (Hno c Hc). simpl. auto.
Qed.

Lemma traza_wac_nn df_prod df_cap h cf disp modo row l :
  entradas_no_negativas df_prod df_cap h cf disp = true ->
  In (row, l) (traza (df_base_materiales df_prod df_cap) h cf disp modo) ->
  nn (wac l).
Proof.
  unfold entradas_no_negativas. rewrite !andb_true_iff.
  intros ((((Hprod & Hcap) & Hh) & Hcf) & Hdisp) Hin.
  destruct h as [hh| | |]; try discriminate Hh.
  apply no_negativo_nn in Hcf. rewrite forallb_forall in Hdisp.
  pose proof (entradas_base_ok df_prod df_cap Hprod Hcap) as Hbase.
  unfold traza, inventario in Hin.
  eapply bucle_ok; [|left; split; apply nn_cero|exact Hin].
  apply Forall_forall. intros r Hr. unfold df_ordenado in Hr.
  apply ordenar_In in Hr. eapply costos_ok; eauto.
  intros a Ha. eapply asignacion_ok; eauto.
Qed.

(** C6: in every iteration of the loop, of every scenario, the total
    quantity is the opening quantity plus the produced one and the total
    value the opening value plus the produced value; the weighted-average
    cost is total value over total quantity when the total quantity is
    strictly positive, and the unit total cost of that week otherwise, in
    particular when the total quantity is zero, so that no division by
    zero takes place; and under nonnegative inputs it is a number that is
    not negative. *)
Theorem costo_promedio_ponderado df_prod df_cap h cf disp modo row l :
  In (row, l) (traza (df_base_materiales df_prod df_cap) h cf disp modo) ->
  total_qty l = (qty_ini l + Unidades_A_Producir (asig row))%num
  /\ total_val l =
     (val_ini l + Unidades_A_Producir (asig row) * Costo_unitario_total row)%num
  /\ ((total_qty l >? cero)%num = true ->
      wac l = (total_val l / total_qty l)%num)
  /\ ((total_qty l >? cero)%num = false -> wac l = Costo_unitario_total row)
  /\ (total_qty l = cero -> wac l = Costo_unitario_total row)
  /\ (entradas_no_negativas df_prod df_cap h cf disp = true ->
      no_negativo (wac l) = true).
Proof.
  intros Hin. pose proof (traza_paso _ _ _ _ _ _ _ Hin) as Hl.
  assert (Hw : wac l = if (total_qty l >? cero)%num
                       then (total_val l / total_qty l)%num
                       else Costo_unitario_total row)
    by (rewrite Hl; reflexivity).
  split; [rewrite Hl; reflexivity|].
  split; [rewrite Hl; reflexivity|].
  split; [intros E; now rewrite Hw, E|].
  split; [intros E; now rewrite Hw, E|].
  split.
  - intros E. rewrite Hw, E. reflexivity.
  - intros He. apply no_negativo_nn. eapply traza_wac_nn; eauto.
Qed.

Lemma costo_promedio_ponderado_witness :
  let rl := nth 1 (traza (df_base_materiales ejemplo_prod ejemplo_cap)
                         (nz 8) (nz 1000) ejemplo_turnos false)
                (fila_costo_nula, paso NaN NaN fila_costo_nula) in
  ((total_qty (snd rl) >? cero)%num = true ->
   wac (snd rl) = (total_val (snd rl) / total_qty (snd rl))%num)
  /\ no_negativo (wac (snd rl)) = true.
Proof.
  intros rl.
  destruct (@costo_promedio_ponderado ejemplo_prod ejemplo_cap (nz 8) (nz 1000)
              ejemplo_turnos false (fst rl) (snd rl))
    as (_ & _ & H1 & _ & _ & H2).
  - rewrite <- surjective_pairing. apply nth_In. calcula.
  - split; [exact H1|]. apply H2. calcula.
Defined.

(* ================================================================= *)
(** ** Conservation of the hours of a week *)

(** Sums of numbers. *)

Lemma suma_acc (l : list Qc) (acc : Qc) :
  fold_left nadd (map Fin l) (Fin acc) = Fin (acc + qsum l)%Qc.
Proof.
  revert acc. induction l as [|x l IH]; intros acc; simpl.
  - f_equal. ring.
  - rewrite IH. f_equal. ring.
Qed.

Lemma suma_fin (l : list Qc) : suma (map Fin l) = Fin (qsum l).
Proof. unfold suma, cero. rewrite suma_acc. f_equal. ring. Qed.

Lemma nansum_acc (l : list Qc) (acc : Qc) :
  fold_left (fun a x => if isnan x then a else (a + x)%num) (map Fin l) (Fin acc)
  = Fin (acc + qsum l)%Qc.
Proof.
  revert acc. induction l as [|x l IH]; intros acc; simpl.
  - f_equal. ring.
  - rewrite IH. f_equal. ring.
Qed.

Lemma nansum_fin (l : list Qc) : nansum (map Fin l) = Fin (qsum l).
Proof. unfold nansum, cero. rewrite nansum_acc. f_equal. ring. Qed.

Lemma qsum_perm (l l' : list Qc) : Permutation l l' -> qsum l = qsum l'.
Proof.
  induction 1; simpl; try congruence; ring.
Qed.

Lemma suma_perm_fin (L : list num) (ys : list Qc) :
  Permutation L (map Fin ys) -> suma L = Fin (qsum ys).
Proof.
  intros H. apply Permutation_map_inv in H. destruct H as (ys' & -> & Hp).
  rewrite suma_fin. f_equal. symmetry. now apply qsum_perm.
Qed.

Lemma all_fin_map (l : list num) :
  Forall (fun x => is_fin x = true) l -> exists qs, l = map Fin qs.
Proof.
  induction 1 as [|x l Hx Hl (qs & ->)].
  - exists []. reflexivity.
  - destruct x as [q| | |]; try discriminate. exists (q :: qs). reflexivity.
Qed.

(** The arithmetic of the proportional adjustment. *)



Lemma piso_cero_id (x : Qc) : ~ (x < 0)%Qc -> piso_cero x = x.
Proof.
  intros H. unfold piso_cero. qcmp x 0%Qc; auto. contradiction.
Qed.



Lemma py_max_cero_piso (x : Qc) : py_max (Fin x) cero = Fin (piso_cero x).
Proof.
  unfold py_max, ngt, cero, nlt, piso_cero.
  destruct (x ?= 0)%Qc; reflexivity.
Qed.

(** Rows of one key in tables built from distinct keys. *)

Lemma filter_todos (A : Type) (f : A -> bool) (l : list A) :
  (forall x, In x l -> f x = true) -> filter f l = l.
Proof.
  induction l as [|x l IH]; intros H; simpl; auto.
  rewrite (H x (or_introl eq_refl)). f_equal. apply IH. intros y Hy.
  apply H. now right.
Qed.

Lemma filter_ninguno (A : Type) (f : A -> bool) (l : list A) :
  (forall x, In x l -> f x = false) -> filter f l = [].
Proof.
  induction l as [|x l IH]; intros H; simpl; auto.
  rewrite (H x (or_introl eq_refl)). apply IH. intros y Hy. apply H. now right.
Qed.

Lemma filter_flat_map_otra (X : Type) (G : string -> list X)
    (key : X -> string) (w : string) (keys : list string) :
  (forall k x, In x (G k) -> key x = k) ->
  ~ In w keys ->
  filter (fun x => key x =? w) (flat_map G keys) = [].
Proof.
  intros HG Hw. apply filter_ninguno. intros x Hx.
  apply in_flat_map in Hx. destruct Hx as (k & Hk & Hx).
  apply String.eqb_neq. rewrite (HG k x Hx). intros ->. contradiction.
Qed.

Lemma filter_flat_map_clave (X : Type) (G : string -> list X)
    (key : X -> string) (w : string) (keys : list string) :
  (forall k x, In x (G k) -> key x = k) ->
  NoDup keys -> In w keys ->
  filter (fun x => key x =? w) (flat_map G keys) = G w.
Proof.
  intros HG. induction 1 as [|k keys Hk Hnd IH]; intros Hw; [destruct Hw|].
  simpl. rewrite filter_app. destruct (string_dec k w) as [-> | Hne].
  - rewrite filter_todos.
    + rewrite (@filter_flat_map_otra _ G key w keys HG Hk). apply app_nil_r.
    + intros x Hx. rewrite (HG w x Hx). apply String.eqb_refl.
  - rewrite filter_ninguno.
    + simpl. apply IH. destruct Hw; [contradiction | assumption].
    + intros x Hx. rewrite (HG k x Hx). now apply String.eqb_neq.
Qed.

Lemma flat_map_map_comp (A B C : Type) (f : A -> B) (g : B -> list C)
    (l : list A) :
  flat_map g (map f l) = flat_map (fun x => g (f x)) l.
Proof. induction l as [|x l IH]; simpl; congruence. Qed.

Lemma map_as_flat_map (A B : Type) (f : A -> B) (l : list A) :
  map f l = flat_map (fun x => [f x]) l.
Proof. induction l as [|x l IH]; simpl; congruence. Qed.

Lemma resumen_flat_map h df_main disp modo :
  resumen_semanal h df_main disp modo =
  flat_map (filas_de_clave h df_main disp modo) (claves (map Semana df_main)).
Proof.
  unfold resumen_semanal, total_horas_req, filas_de_clave, total_semana.
  destruct modo.
  - rewrite map_map. apply map_as_flat_map.
  - unfold merge_left. rewrite flat_map_map_comp. apply flat_map_ext.
    intros k. simpl.
    destruct (filter (fun d => k =? turnos_Semana d) disp); reflexivity.
Qed.

Lemma filas_de_clave_semana h df_main disp modo k s :
  In s (filas_de_clave h df_main disp modo k) ->
  sem_Semana s = k
  /\ Total_Horas_Req_Semana s = total_semana df_main k
  /\ Diferencia_Horas s = (Horas_Capacidad_Total s - total_semana df_main k)%num.
Proof.
  unfold filas_de_clave. destruct modo.
  - intros [<- | []]. simpl. auto.
  - destruct (filter (fun d => k =? turnos_Semana d) disp) as [|d ms].
    + intros [<- | []]. simpl. auto.
    + intros H. apply in_map_iff in H. destruct H as (d' & <- & _). simpl. auto.
Qed.

Lemma resumen_de_semana h df_main disp modo w :
  In w (map Semana df_main) ->
  filter (fun s => sem_Semana s =? w) (resumen_semanal h df_main disp modo)
  = filas_de_clave h df_main disp modo w.
Proof.
  intros Hw. rewrite resumen_flat_map.
  apply filter_flat_map_clave.
  - intros k x Hx. apply (@filas_de_clave_semana h df_main disp modo k x Hx).
  - apply claves_NoDup.
  - now apply claves_In.
Qed.

Lemma filas_de_clave_unica h df_main disp modo (w : string) :
  modo = true
  \/ (List.length (filter (fun d => (w =? turnos_Semana d)%string) disp)
      <= 1)%nat ->
  exists s, filas_de_clave h df_main disp modo w = [s].
Proof.
  unfold filas_de_clave. intros [-> | Hlen]; [eauto|].
  destruct modo; [eauto|].
  destruct (filter (fun d => w =? turnos_Semana d) disp) as [|d [|d' ms]];
    simpl in *; eauto. lia.
Qed.

(** The allocation rows of a week with one row in [resumen_semanal]. *)
Lemma base_asignar (b : fila_base) (s : option fila_semana) :
  base (asignar b s) = b.
Proof. reflexivity. Qed.

Lemma asignacion_semana df_main resumen w s :
  filter (fun s => sem_Semana s =? w) resumen = [s] ->
  filter (fun r => Semana (base r) =? w) (asignacion df_main resumen)
  = map (fun b => asignar b (Some s)) (filter (fun b => Semana b =? w) df_main).
Proof.
  intros Hs. unfold asignacion, merge_left.
  induction df_main as [|b l IH]; [reflexivity|].
  cbn [flat_map]. rewrite filter_app, IH. cbn [filter].
  destruct (Semana b =? w) eqn:E.
  - apply String.eqb_eq in E.
    assert (Hf : filter (fun s0 => Semana b =? sem_Semana s0) resumen = [s]).
    { rewrite <- Hs. apply filter_ext. intros s0. rewrite E.
      apply String.eqb_sym. }
    rewrite Hf. cbn [map filter]. rewrite base_asignar, E, String.eqb_refl.
    reflexivity.
  - rewrite filter_ninguno; [reflexivity|].
    intros x Hx.
    assert (Hb : base x = b).
    { destruct (filter (fun s0 => Semana b =? sem_Semana s0) resumen).
      - destruct Hx as [<- | []]. reflexivity.
      - apply in_map_iff in Hx. destruct Hx as (s0 & <- & _). reflexivity. }
    rewrite Hb. exact E.
Qed.

(** The cost merge keeps the rows. *)
Lemma filter_map_clave (X : Type) (g : string -> X) (key : X -> string)
    (w : string) (keys : list string) :
  (forall k, key (g k) = k) ->
  NoDup keys -> In w keys ->
  filter (fun x => w =? key x) (map g keys) = [g w].
Proof.
  intros Hg Hnd Hw. rewrite map_as_flat_map.
  rewrite (filter_ext (fun x => w =? key x) (fun x => key x =? w))
    by (intros; apply String.eqb_sym).
  apply (@filter_flat_map_clave _ (fun k => [g k]) key); auto.
  intros k x [<- | []]. apply Hg.
Qed.

Lemma merge_left_cons (A B C : Type) (on : A -> B -> bool)
    (comb : A -> option B -> C) (a : A) (l : list A) (r : list B) :
  merge_left on comb (a :: l) r =
  (match filter (on a) r with
   | [] => [comb a None]
   | ms => map (fun b => comb a (Some b)) ms
   end ++ merge_left on comb l r)%list.
Proof. reflexivity. Qed.

Lemma costos_asig cf A : map asig (costos cf A) = A.
Proof.
  unfold costos.
  set (R := tabla_costos cf A).
  assert (H : forall l, (forall r, In r l -> In r A) ->
            map asig
              (merge_left (fun r t => Semana (base r) =? tc_Semana t)
                          con_costo l R) = l).
  { induction l as [|r l IH]; intros Hl; [reflexivity|].
    rewrite merge_left_cons, map_app, IH by (intros; apply Hl; now right).
    unfold R, tabla_costos at 1.
    rewrite (@filter_map_clave _ _ tc_Semana).
    - reflexivity.
    - reflexivity.
    - apply claves_NoDup.
    - apply claves_In. apply in_map_iff. exists r. split; auto.
      apply Hl. now left. }
  apply H. auto.
Qed.

Lemma Permutation_filter (A : Type) (f : A -> bool) (l l' : list A) :
  Permutation l l' -> Permutation (filter f l) (filter f l').
Proof.
  induction 1 as [|x l l' Hp IH|x y l|l l' l'' H1 IH1 H2 IH2]; simpl.
  - constructor.
  - destruct (f x); auto.
  - destruct (f x), (f y); auto. apply perm_swap.
  - eapply Permutation_trans; eauto.
Qed.

Lemma df_final_asignacion df_base h cf tasa nombre disp modo :
  Permutation
    (map fasig (fst (calcular_escenario df_base h cf tasa nombre disp modo)))
    (asignacion df_base (resumen_semanal h df_base disp modo)).
Proof.
  cbn [calcular_escenario fst]. rewrite map_map.
  assert (E : map (fun x => fasig (fila_final_de nombre x))
                  (traza df_base h cf disp modo)
              = map asig (map fst (traza df_base h cf disp modo))).
  { rewrite map_map. apply map_ext. intros [row l]. reflexivity. }
  rewrite E. unfold traza, inventario. rewrite bucle_fst. unfold df_ordenado.
  rewrite <- (costos_asig cf (asignacion df_base (resumen_semanal h df_base disp modo)))
    at 2.
  apply Permutation_map. apply ordenar_perm.
Qed.






(* ================================================================= *)
(** ** Worked examples *)

Example float_str_ejemplos :
  float_str "8,5" = None
  /\ float_str "1.5.0" = None
  /\ float_str " nan " = Some NaN
  /\ float_str "-Infinity" = Some NInf
  /\ nums_same [to_numeric "202545"; to_numeric " 8.5"; to_numeric "1_0e-1"]
               [nz 202545; nq (17 # 2); nz 1] = true.
Proof. repeat split; vm_compute; reflexivity. Qed.

Example obtener_param_ejemplos :
  let df_params := strip_parametros ejemplo_params in
  obtener_param df_params "Costo Capital" (CNum (nq (29 # 10000)))
    = CNum (nq (1 # 100))
  /\ obtener_param df_params "Horas extra" CNone = CNone
  /\ match obtener_param df_params "Costo fijo" CNone with
     | CNum x => num_same x (nq (2001 # 2))
     | _ => false
     end = true.
Proof. repeat split; vm_compute; reflexivity. Qed.

(** One material at 10 units per hour, demands 100 and 150, 10 shifts of
    8 hours: 10 and 15 hours required, 80 available and allocated, 800
    units produced at 2 + 1000/800 each; without opening inventory the
    cost of the first week is that unit cost, 100 units are sold and the
    700 left, worth 2275, open the second week. *)
Example ejemplo_paro_programado :
  let df_final :=
    fst (calcular_escenario (df_base_materiales ejemplo_prod cap_sin_inventario)
           (nz 8) (nz 1000) (nq (1 # 100)) "Paro Programado"
           ejemplo_turnos false) in
  nums_same (map (fun r => Horas_Necesarias (fbase r)) df_final) [nz 10; nz 15]
  && nums_same (map (fun r => Horas_Capacidad_Total (fsem r)) df_final)
               [nz 80; nz 80]
  && nums_same (map (fun r => Horas_Finales_Asignadas (fasig r)) df_final)
               [nz 80; nz 80]
  && nums_same (map (fun r => Unidades_A_Producir (fasig r)) df_final)
               [nz 800; nz 800]
  && nums_same (map (fun r => Costo_unitario_total (costo r)) df_final)
               [nq (13 # 4); nq (13 # 4)]
  && nums_same (map Inv_Inicial_Und df_final) [nz 0; nz 700]
  && nums_same (map Inv_Inicial_Valor df_final) [nz 0; nz 2275]
  && nums_same (map Costo_Promedio_Ponderado df_final) [nq (13 # 4); nq (13 # 4)]
  && nums_same (map Inv_Final_Und df_final) [nz 700; nz 1350]
  && nums_same (map Costo_Mercancia_Vendida df_final) [nz 325; nq (975 # 2)]
  = true.
Proof. vm_compute. reflexivity. Qed.

Example ejemplo_siguiendo_demanda :
  let df_final :=
    fst (calcular_escenario (df_base_materiales ejemplo_prod cap_sin_inventario)
           (nz 8) (nz 1000) (nq (1 # 100)) "Siguiendo Demanda" [] true) in
  nums_same (map (fun r => Turnos_disponibles (fsem r)) df_final)
            [nq (5 # 4); nq (15 # 8)]
  && nums_same (map (fun r => Diferencia_Horas (fsem r)) df_final) [nz 0; nz 0]
  && nums_same (map (fun r => Unidades_A_Producir (fasig r)) df_final)
               [nz 100; nz 150]
  && nums_same (map Inv_Final_Und df_final) [nz 0; nz 0]
  = true.
Proof. vm_compute. reflexivity. Qed.

(* ================================================================= *)
(** ** Nonnegative inputs give impacts that are numbers *)

Lemma nansum_is_fin (l : list num) :
  Forall (fun x => no_infinito x = true) l -> is_fin (nansum l) = true.
Proof.
  unfold nansum, cero. generalize 0%Qc.
  induction l as [|x l IH]; intros acc Hl; [reflexivity|].
  inversion Hl as [|x' l' Hx Hl']; subst. simpl.
  destruct x as [q| | |]; try discriminate; simpl; auto.
Qed.

Lemma gb_first_no_infinito (l : list num) :
  Forall (fun x => no_infinito x = true) l -> no_infinito (gb_first l) = true.
Proof.
  unfold gb_first. intros Hl.
  destruct (filter (fun x => negb (isnan x)) l) as [|x xs] eqn:E; [reflexivity|].
  assert (Hx : In x (filter (fun x => negb (isnan x)) l)) by (rewrite E; now left).
  apply filter_In in Hx. rewrite Forall_forall in Hl. apply Hl, Hx.
Qed.

Lemma nn_no_infinito (x : num) : nn_nan x -> no_infinito x = true.
Proof. intros [-> | (q & -> & _)]; reflexivity. Qed.

Lemma nn_is_fin (x : num) : nn x -> is_fin x = true.
Proof. intros (q & -> & _). reflexivity. Qed.

Lemma is_fin_no_infinito (x : num) : is_fin x = true -> no_infinito x = true.
Proof. destruct x; simpl; congruence. Qed.

(** One iteration: the cost of goods sold is a nonnegative number. *)
Lemma paso_cogs_nn (q v : num) (row : fila_costo) :
  estado_ok q v -> fila_costo_ok row -> nn (cogs_total (paso q v row)).
Proof.
  intros Hst Hrow. destruct (paso_ok Hst Hrow) as [(w & Hw & Hw0) _].
  destruct Hrow as (Hu & _ & (dem & Hdem & Hdem0) & _ & _).
  assert (Hc : cogs_total (paso q v row)
               = (py_min (Demanda_semanal (base (asig row)))
                         (q + Unidades_A_Producir (asig row)) * wac (paso q v row))%num)
    by reflexivity.
  rewrite Hc, Hw, Hdem.
  assert (Hs : exists s, py_min (Fin dem) (q + Unidades_A_Producir (asig row))%num
                         = Fin s /\ (0 <= s)%Qc).
  { assert (Ht : nn_nan (q + Unidades_A_Producir (asig row))%num).
    { destruct Hst as [[(a & -> & Ha) _] | [-> _]].
      - destruct Hu as [-> | (c & -> & Hc0)]; [left; reflexivity|].
        right. cbn [nadd]. apply nn_fin. qc2q. lra.
      - left. destruct (Unidades_A_Producir (asig row)); reflexivity. }
    destruct Ht as [-> | (t & -> & Ht)].
    - exists dem. split; [reflexivity | exact Hdem0].
    - unfold py_min. destruct (Fin t <? Fin dem)%num; eauto. }
  destruct Hs as (s & -> & Hs). cbn [nmul]. apply nn_fin. qc2q. nra.
Qed.

Lemma bucle_cierre_ok (df : list fila_costo) :
  Forall fila_costo_ok df ->
  forall prev pu pv row l,
    estado_ok pu pv ->
    In (row, l) (bucle prev pu pv df) ->
    nn (cogs_total l) /\ estado_ok (qty_final l) (val_final l).
Proof.
  induction 1 as [|r df Hr Hdf IH]; intros prev pu pv row l Hst Hin.
  - destruct Hin.
  - cbn [bucle] in Hin.
    destruct (apertura prev pu pv r) as [q v] eqn:Eap.
    assert (Hqv : estado_ok q v).
    { unfold apertura in Eap.
      destruct (match prev with Some m => negb _ | None => true end);
        inversion Eap; subst; auto.
      left. split; apply Hr. }
    destruct (paso_ok Hqv Hr) as [_ Hst'].
    destruct Hin as [E | Hin].
    + inversion E; subst. split; [now apply paso_cogs_nn | exact Hst'].
    + eapply IH; eauto.
Qed.

Lemma estado_ok_nn_nan (q v : num) : estado_ok q v -> nn_nan q /\ nn_nan v.
Proof.
  intros [[Hq Hv] | [-> ->]]; split; try (now right); now left.
Qed.

(** The rows of [df_final] under nonnegative inputs. *)
Lemma df_final_ok df_prod df_cap h cf tasa nombre disp modo r :
  entradas_no_negativas df_prod df_cap h cf disp = true ->
  In r (fst (calcular_escenario (df_base_materiales df_prod df_cap) h cf tasa
               nombre disp modo)) ->
  nn (Costo_Mercancia_Vendida r)
  /\ nn_nan (Inv_Final_Und r) /\ nn_nan (Inv_Final_Valor r).
Proof.
  intros He Hr. apply df_final_traza in Hr. destruct Hr as (row & l & Hin & ->).
  cbn [fila_final_de Costo_Mercancia_Vendida Inv_Final_Und Inv_Final_Valor].
  revert He. unfold entradas_no_negativas. rewrite !andb_true_iff.
  intros ((((Hprod & Hcap) & Hh) & Hcf) & Hdisp).
  destruct h as [hh| | |]; try discriminate Hh.
  apply no_negativo_nn in Hcf. rewrite forallb_forall in Hdisp.
  pose proof (entradas_base_ok df_prod df_cap Hprod Hcap) as Hbase.
  unfold traza, inventario in Hin.
  assert (Hall : Forall fila_costo_ok
            (df_ordenado (df_base_materiales df_prod df_cap) (Fin hh) cf disp modo)).
  { apply Forall_forall. intros x Hx. unfold df_ordenado in Hx.
    apply ordenar_In in Hx. eapply costos_ok; eauto.
    intros a Ha. eapply asignacion_ok; eauto. }
  destruct (@bucle_cierre_ok _ Hall None cero cero row l) as [Hc Hst]; auto.
  { left. split; apply nn_cero. }
  apply estado_ok_nn_nan in Hst. tauto.
Qed.

(** The rows of [resumen_agrupado] under nonnegative inputs. *)
Lemma in_derivar df_base h cf tasa nombre l :
  forall previo x,
    In x (derivar df_base h cf tasa nombre previo l) ->
    exists previo' a,
      In a l /\ x = fila_resumen_de df_base h cf tasa nombre previo' a.
Proof.
  induction l as [|a l IH]; simpl; intros previo x H; [destruct H|].
  destruct H as [<- | H].
  - exists previo, a. auto.
  - destruct (IH _ _ H) as (p & a' & Ha & ->). exists p, a'. auto.
Qed.

Lemma clip_lower_0_fin (x : num) : is_fin x = true -> is_fin (clip_lower_0 x) = true.
Proof.
  intros H. unfold clip_lower_0. destruct (x <? cero)%num; auto.
Qed.

Lemma base_promedio_no_infinito df_prod df_cap b :
  forallb (fun c => no_infinito (cap_Inventario_promedio c)) df_cap = true ->
  In b (df_base_materiales df_prod df_cap) ->
  no_infinito (Inventario_promedio b) = true.
Proof.
  intros Hcap Hb. rewrite forallb_forall in Hcap.
  apply in_df_base_materiales in Hb.
  destruct Hb as (p & _ & [(c & Hc & _ & ->) | (_ & ->)]); simpl; auto.
Qed.

Lemma suma_primeros_fin (col : fila_base -> num) (df : list fila_base) :
  (forall b, In b df -> no_infinito (col b) = true) ->
  is_fin (suma_primeros col df) = true.
Proof.
  intros H. unfold suma_primeros. apply nansum_is_fin.
  apply Forall_forall. intros x Hx. apply in_map_iff in Hx.
  destruct Hx as (m & <- & _). apply gb_first_no_infinito.
  apply Forall_forall. intros y Hy. apply in_map_iff in Hy.
  destruct Hy as (b & <- & Hb). apply filter_In in Hb. apply H, Hb.
Qed.

Lemma resumen_agrupado_fin df_prod df_cap h cf tasa nombre disp modo x :
  entradas_no_negativas df_prod df_cap h cf disp = true ->
  is_fin tasa = true ->
  forallb (fun c => no_infinito (cap_Inventario_promedio c)) df_cap = true ->
  In x (snd (calcular_escenario (df_base_materiales df_prod df_cap) h cf tasa
               nombre disp modo)) ->
  is_fin (agr_Costo_Mercancia_Vendida (agr x)) = true
  /\ is_fin (Costo_Capital x) = true
  /\ is_fin (Valor_Inventario_Inv_Promedio_Input x) = true.
Proof.
  intros He Htasa Hprom Hx.
  set (df_base := df_base_materiales df_prod df_cap) in *.
  cbn [calcular_escenario snd] in Hx. apply in_derivar in Hx.
  destruct Hx as (previo & a & Ha & ->).
  apply ordenar_In in Ha. unfold agrupado in Ha. apply in_map_iff in Ha.
  destruct Ha as (k & <- & _).
  match goal with
  | |- context [agrupar k ?G] => remember G as g eqn:Eg
  end.
  assert (Hg : forall r, In r g ->
            nn (Costo_Mercancia_Vendida r)
            /\ nn_nan (Inv_Final_Und r) /\ nn_nan (Inv_Final_Valor r)).
  { intros r Hr. rewrite Eg in Hr. apply filter_In in Hr. destruct Hr as [Hr _].
    eapply (@df_final_ok df_prod df_cap h cf tasa nombre disp modo r); eauto. }
  clear Eg.
  assert (Hcmv : is_fin (nansum (map Costo_Mercancia_Vendida g)) = true).
  { apply nansum_is_fin, Forall_forall. intros y Hy. apply in_map_iff in Hy.
    destruct Hy as (r & <- & Hr). apply nn_no_infinito. right. apply Hg, Hr. }
  assert (Hifv : is_fin (nansum (map Inv_Final_Valor g)) = true).
  { apply nansum_is_fin, Forall_forall. intros y Hy. apply in_map_iff in Hy.
    destruct Hy as (r & <- & Hr). apply nn_no_infinito. apply Hg, Hr. }
  assert (Hifu : is_fin (nansum (map Inv_Final_Und g)) = true).
  { apply nansum_is_fin, Forall_forall. intros y Hy. apply in_map_iff in Hy.
    destruct Hy as (r & <- & Hr). apply nn_no_infinito. apply Hg, Hr. }
  cbn [fila_resumen_de agr Costo_Capital Valor_Inventario_Inv_Promedio_Input
       agrupar agr_Costo_Mercancia_Vendida agr_Inv_Final_Valor agr_Inv_Final_Und].
  split; [exact Hcmv|].
  destruct (nansum (map Inv_Final_Valor g)) as [v| | |]; try discriminate.
  destruct (nansum (map Inv_Final_Und g)) as [u| | |]; try discriminate.
  destruct tasa as [ta| | |]; try discriminate.
  split; [apply clip_lower_0_fin; reflexivity|].
  assert (Hs : is_fin (suma_inv_promedio_objetivo df_base) = true).
  { apply suma_primeros_fin. intros b Hb.
    eapply base_promedio_no_infinito; eauto. }
  destruct (suma_inv_promedio_objetivo df_base) as [sp| | |]; try discriminate.
  destruct (Fin u >? cero)%num eqn:E.
  - apply ngt_cero_fin in E. rewrite ndiv_fin by (now apply Qclt_neq).
    reflexivity.
  - reflexivity.
Qed.

Lemma simulaciones_semanal_in df_base h cf tasa df_disp_raw x :
  In x (List.concat (map snd (simulaciones df_base h cf tasa df_disp_raw))) ->
  exists c, In c (plan df_disp_raw)
    /\ In x (snd (calcular_escenario df_base h cf tasa (fst (fst c))
                    (snd (fst c)) (snd c))).
Proof.
  intros H. apply in_concat in H. destruct H as (l & Hl & Hx).
  unfold simulaciones in Hl. rewrite map_map in Hl. apply in_map_iff in Hl.
  destruct Hl as (c & <- & Hc). eauto.
Qed.

Lemma comparar_fin (semanal : list fila_resumen) (c : fila_comparativa) :
  (forall x, In x semanal ->
     is_fin (agr_Costo_Mercancia_Vendida (agr x)) = true
     /\ is_fin (Costo_Capital x) = true
     /\ is_fin (Valor_Inventario_Inv_Promedio_Input x) = true) ->
  In c (comparar semanal) ->
  is_fin (Impacto_Total_FCL c) = true.
Proof.
  intros Hall Hc. apply in_comparar in Hc. destruct Hc as [_ ->].
  cbn [Impacto_Total_FCL comp_Escenario].
  set (k := comp_Escenario c).
  set (g := filter (fun r => res_Escenario r =? k) semanal).
  assert (Hg : forall x, In x g -> In x semanal)
    by (intros x Hx; apply filter_In in Hx; tauto).
  assert (H1 : is_fin (nansum (map (fun r => agr_Costo_Mercancia_Vendida (agr r)) g))
               = true).
  { apply nansum_is_fin, Forall_forall. intros y Hy. apply in_map_iff in Hy.
    destruct Hy as (r & <- & Hr). apply is_fin_no_infinito. apply Hall, Hg, Hr. }
  assert (H2 : is_fin (nansum (map Costo_Capital g)) = true).
  { apply nansum_is_fin, Forall_forall. intros y Hy. apply in_map_iff in Hy.
    destruct Hy as (r & <- & Hr). apply is_fin_no_infinito. apply Hall, Hg, Hr. }
  assert (H3 : is_fin (snd (delta_de semanal k)) = true).
  { unfold delta_de. fold g.
    destruct (ordenar leb_semana_num g) as [|r0 resto] eqn:E; [reflexivity|].
    cbn [snd].
    assert (Hin : forall x, In x (r0 :: resto) -> In x semanal).
    { intros x Hx. rewrite <- E in Hx. apply ordenar_In in Hx. auto. }
    assert (Hl : In (last (r0 :: resto) r0) (r0 :: resto))
      by (apply last_In; discriminate).
    destruct (Hall _ (Hin _ Hl)) as (_ & _ & Hvl).
    destruct (Hall _ (Hin _ (or_introl eq_refl))) as (_ & _ & Hv0).
    destruct (Valor_Inventario_Inv_Promedio_Input (last (r0 :: resto) r0));
      try discriminate.
    destruct (Valor_Inventario_Inv_Promedio_Input r0); try discriminate.
    reflexivity. }
  destruct (nansum (map (fun r => agr_Costo_Mercancia_Vendida (agr r)) g));
    try discriminate.
  destruct (nansum (map Costo_Capital g)); try discriminate.
  destruct (snd (delta_de semanal k)); try discriminate.
  reflexivity.
Qed.

Lemma impactos_fin df_prod df_cap df_disp_raw df_params res h cf tasa c :
  ejecutar df_prod df_cap df_disp_raw df_params = Some res ->
  parametros df_params = Some (h, cf, tasa) ->
  entradas_run_no_negativas df_prod df_cap df_disp_raw h cf tasa = true ->
  In c (tabla_comparativa res) ->
  is_fin (Impacto_Total_FCL c) = true.
Proof.
  intros Hres Hp He Hc. apply ejecutar_inv in Hres.
  destruct Hres as (h' & cf' & tasa' & mejor & Hp' & _ & Hs & Hcomp & _).
  rewrite Hp in Hp'. inversion Hp'; subst h' cf' tasa'. clear Hp'.
  rewrite Hcomp in Hc. eapply comparar_fin; [|exact Hc].
  intros x Hx. rewrite Hs in Hx. apply simulaciones_semanal_in in Hx.
  destruct Hx as (p & Hpin & Hx).
  unfold entradas_run_no_negativas in He. rewrite !andb_true_iff in He.
  destruct He as [[Hplan Htasa] Hprom]. rewrite forallb_forall in Hplan.
  eapply resumen_agrupado_fin; eauto.
Qed.

(** C7: in a run that reports, every row of the comparison table has as
    totals the sums over the weeks of its scenario of COGS and of capital
    cost, as delta the valuation metric of the last week minus that of
    the first week (weeks by [Semana_Num]), and as impact the sum of the
    three.  The scenario reported as best has an impact that no scenario
    undercuts, the savings are the impact of a scenario that none
    exceeds minus the impact of the best, they are never negative, and
    they are at least zero whenever the impacts are numbers, which they
    are under nonnegative inputs. *)
Theorem comparativa_mejor_y_ahorro df_prod df_cap df_disp_raw df_params res :
  ejecutar df_prod df_cap df_disp_raw df_params = Some res ->
  (forall c, In c (tabla_comparativa res) ->
     let g := filter (fun r => res_Escenario r =? comp_Escenario c)
                     (df_master_semanal res) in
     let por_semana := ordenar leb_semana_num g in
     CMV_Total c = nansum (map (fun r => agr_Costo_Mercancia_Vendida (agr r)) g)
     /\ Costo_Capital_Total c = nansum (map Costo_Capital g)
     /\ (exists r0, hd_error por_semana = Some r0
           /\ Delta_Valor_Inv c =
              (Valor_Inventario_Inv_Promedio_Input (last por_semana r0)
               - Valor_Inventario_Inv_Promedio_Input r0)%num)
     /\ Impacto_Total_FCL c =
        (CMV_Total c + Costo_Capital_Total c + Delta_Valor_Inv c)%num)
  /\ exists mejor peor,
       In mejor (tabla_comparativa res)
       /\ In peor (tabla_comparativa res)
       /\ mejor_escenario res = comp_Escenario mejor
       /\ impacto_mejor res = Impacto_Total_FCL mejor
       /\ (forall c, In c (tabla_comparativa res) ->
             (Impacto_Total_FCL c <? Impacto_Total_FCL mejor)%num = false)
       /\ (forall c, In c (tabla_comparativa res) ->
             (Impacto_Total_FCL peor <? Impacto_Total_FCL c)%num = false)
       /\ ahorro res = (Impacto_Total_FCL peor - Impacto_Total_FCL mejor)%num
       /\ (ahorro res <? cero)%num = false
       /\ ((forall c, In c (tabla_comparativa res) ->
              is_fin (Impacto_Total_FCL c) = true) ->
           (cero <=? ahorro res)%num = true)
       /\ (forall h cf tasa,
             parametros df_params = Some (h, cf, tasa) ->
             entradas_run_no_negativas df_prod df_cap df_disp_raw h cf tasa
             = true ->
             (cero <=? ahorro res)%num = true).
Proof.
  intros Hres. pose proof Hres as Hres0. revert Hres.
  intros Hres. apply ejecutar_inv in Hres.
  destruct Hres as (h & cf & tasa & mejor & _ & _ & _ & Hc & Hm & Hhd & Hme & Him & Hah).
  split.
  - intros c Hin g por_semana. rewrite Hc in Hin. apply in_comparar in Hin.
    destruct Hin as [Hk Hcdef]. fold g in Hcdef.
    assert (Hdelta : Delta_Valor_Inv c
                     = snd (delta_de (df_master_semanal res) (comp_Escenario c)))
      by (rewrite Hcdef at 1; reflexivity).
    assert (H1 : CMV_Total c
                 = nansum (map (fun r => agr_Costo_Mercancia_Vendida (agr r)) g))
      by (rewrite Hcdef at 1; reflexivity).
    assert (H2 : Costo_Capital_Total c = nansum (map Costo_Capital g))
      by (rewrite Hcdef at 1; reflexivity).
    assert (H4 : Impacto_Total_FCL c
                 = (nansum (map (fun r => agr_Costo_Mercancia_Vendida (agr r)) g)
                    + nansum (map Costo_Capital g)
                    + snd (delta_de (df_master_semanal res) (comp_Escenario c)))%num)
      by (rewrite Hcdef at 1; reflexivity).
    split; [exact H1|]. split; [exact H2|].
    split; [|rewrite H4, H1, H2, Hdelta; reflexivity].
    rewrite Hdelta. unfold delta_de. fold g. fold por_semana.
    destruct por_semana as [|r0 resto] eqn:E.
    + exfalso. apply ordenar_nil_inv in E.
      apply in_map_iff in Hk. destruct Hk as (r & Hr & Hrin).
      assert (Hg : In r g).
      { apply filter_In. split; auto. rewrite Hr. apply String.eqb_refl. }
      rewrite E in Hg. destruct Hg.
    + exists r0. split; reflexivity.
  - pose proof (ordenar_sorted leb_impacto leb_impacto_total leb_impacto_trans
                  (tabla_comparativa res)) as Hs.
    rewrite <- Hm in Hs.
    destruct (mejores res) as [|m0 resto] eqn:E; [discriminate|].
    simpl in Hhd. inversion Hhd; subst m0. clear Hhd.
    set (peor := last (mejor :: resto) mejor) in *.
    assert (Hin : forall c, In c (tabla_comparativa res) <-> In c (mejor :: resto)).
    { intros c. rewrite Hm. symmetry. apply ordenar_In. }
    assert (Hpeor : In peor (mejor :: resto)) by (apply last_In; discriminate).
    assert (Hbest : forall c, In c (mejor :: resto) ->
              (Impacto_Total_FCL c <? Impacto_Total_FCL mejor)%num = false).
    { intros c [<- | Hcin]; [apply nlt_irrefl|].
      apply StronglySorted_inv in Hs. destruct Hs as [_ Hs].
      rewrite Forall_forall in Hs. apply leb_nan_last_not_lt. apply Hs, Hcin. }
    assert (Hworst : forall c, In c (mejor :: resto) ->
              c = peor \/ leb_impacto c peor = true).
    { intros c Hcin. apply (StronglySorted_last mejor Hs c Hcin). }
    destruct (resta_no_negativa (a := Impacto_Total_FCL mejor)
                                (b := Impacto_Total_FCL peor)) as [Hnn Hfin].
    { destruct (Hworst mejor (or_introl eq_refl)) as [<- | Hle]; auto. }
    exists mejor, peor. rewrite Hah.
    repeat split; auto.
    + apply Hin. left. reflexivity.
    + apply Hin. exact Hpeor.
    + intros c Hcin. apply Hbest. now apply Hin.
    + intros c Hcin. apply Hin in Hcin.
      destruct (Hworst c Hcin) as [-> | Hle]; [apply nlt_irrefl|].
      now apply leb_nan_last_not_lt.
    + intros Hall. apply Hfin; apply Hall; apply Hin; auto. left. reflexivity.
    + intros h0 cf0 tasa0 Hp He.
      assert (Hall : forall c, In c (tabla_comparativa res) ->
                is_fin (Impacto_Total_FCL c) = true).
      { intros c Hcin. eapply impactos_fin; eauto. }
      apply Hfin; apply Hall; apply Hin; auto. left. reflexivity.
Qed.

Lemma comparativa_mejor_y_ahorro_witness :
  exists res,
    ejecutar ejemplo_prod ejemplo_cap ejemplo_disp ejemplo_params = Some res
    /\ (forall c, In c (tabla_comparativa res) ->
          Impacto_Total_FCL c =
          (CMV_Total c + Costo_Capital_Total c + Delta_Valor_Inv c)%num)
    /\ exists mejor peor,
         In mejor (tabla_comparativa res)
         /\ In peor (tabla_comparativa res)
         /\ mejor_escenario res = comp_Escenario mejor
         /\ (forall c, In c (tabla_comparativa res) ->
               (Impacto_Total_FCL c <? Impacto_Total_FCL mejor)%num = false)
         /\ ahorro res = (Impacto_Total_FCL peor - Impacto_Total_FCL mejor)%num
         /\ (ahorro res <? cero)%num = false
         /\ (cero <=? ahorro res)%num = true.
Proof.
  destruct (ejecutar ejemplo_prod ejemplo_cap ejemplo_disp ejemplo_params)
    as [res|] eqn:E.
  - exists res. split; [reflexivity|].
    destruct (@comparativa_mejor_y_ahorro ejemplo_prod ejemplo_cap ejemplo_disp
                ejemplo_params res E) as [Htot (mejor & peor & H)].
    split.
    + intros c Hc. apply (Htot c Hc).
    + exists mejor, peor.
      destruct H as (H1 & H2 & H3 & H4 & H5 & H6 & H7 & H8 & H9 & H10).
      repeat split; auto.
      destruct (parametros ejemplo_params) as [[[h cf] tasa]|] eqn:Ep;
        [|vm_compute in Ep; discriminate Ep].
      apply (H10 h cf tasa eq_refl).
      vm_compute in Ep. inversion Ep; subst h cf tasa. calcula.
  - exfalso. vm_compute in E. discriminate E.
Defined.

(* ================================================================= *)
(** ** Whitespace around text cells *)

Lemma lstrip_espacios (a s : string) :
  espacios a = true -> lstrip (a ++ s) = lstrip s.
Proof.
  induction a as [|c a IH]; simpl; intros H; [reflexivity|].
  apply andb_true_iff in H. destruct H as [Hc Ha]. rewrite Hc. auto.
Qed.

Lemma lstrip_solo_espacios (b : string) : espacios b = true -> lstrip b = EmptyString.
Proof.
  induction b as [|c b IH]; simpl; intros H; [reflexivity|].
  apply andb_true_iff in H. destruct H as [Hc Hb]. rewrite Hc. auto.
Qed.

Lemma rstrip_solo_espacios (b : string) : espacios b = true -> rstrip b = EmptyString.
Proof.
  induction b as [|c b IH]; simpl; intros H; [reflexivity|].
  apply andb_true_iff in H. destruct H as [Hc Hb]. rewrite (IH Hb), Hc.
  reflexivity.
Qed.

Lemma rstrip_espacios (s b : string) :
  espacios b = true -> rstrip (s ++ b) = rstrip s.
Proof.
  intros Hb. induction s as [|c s IH]; simpl.
  - now apply rstrip_solo_espacios.
  - now rewrite IH.
Qed.

Lemma strip_derecha (s b : string) :
  espacios b = true -> rstrip (lstrip (s ++ b)) = rstrip (lstrip s).
Proof.
  intros Hb. induction s as [|c s IH]; simpl.
  - now rewrite lstrip_solo_espacios.
  - destruct (is_space c); [exact IH|].
    change (String c (s ++ b)) with (String c s ++ b).
    now apply rstrip_espacios.
Qed.

Lemma strip_rodear (izq der : string -> string) (s : string) :
  (forall x, espacios (izq x) = true) ->
  (forall x, espacios (der x) = true) ->
  strip (rodear izq der s) = strip s.
Proof.
  intros Hi Hd. unfold strip, rodear.
  rewrite lstrip_espacios by apply Hi. apply strip_derecha, Hd.
Qed.

Section Rodear.

Variables izq der : string -> string.
Hypothesis izq_espacios : forall x, espacios (izq x) = true.
Hypothesis der_espacios : forall x, espacios (der x) = true.

Lemma strip_rodeado (s : string) : strip (rodear izq der s) = strip s.
Proof. apply strip_rodear; assumption. Qed.

Lemma df_base_materiales_rodear df_prod df_cap :
  df_base_materiales (map (rodear_prod izq der) df_prod)
                     (map (rodear_cap izq der) df_cap)
  = df_base_materiales df_prod df_cap.
Proof.
  unfold df_base_materiales, merge_left. rewrite flat_map_map_comp.
  apply flat_map_ext. intros p. rewrite filter_map_swap.
  assert (E : filter (fun c => mismo_material (rodear_prod izq der p)
                                              (rodear_cap izq der c)) df_cap
              = filter (mismo_material p) df_cap).
  { apply filter_ext. intros c. unfold mismo_material. simpl.
    now rewrite !strip_rodeado. }
  rewrite E.
  assert (F : forall c, fila_base_de (rodear_prod izq der p) c
                        = fila_base_de p c).
  { intros c. unfold fila_base_de. simpl. now rewrite !strip_rodeado. }
  destruct (filter (mismo_material p) df_cap) as [|c ms].
  - simpl. now rewrite F.
  - cbn [map]. rewrite map_map. f_equal.
    + rewrite F. destruct c; reflexivity.
    + apply map_ext. intros c'. rewrite F. destruct c'; reflexivity.
Qed.

Lemma disp_escenario_rodear (semanas : list string) (col : list num) :
  disp_escenario (map (rodear izq der) semanas) col = disp_escenario semanas col.
Proof.
  unfold disp_escenario. revert col.
  induction semanas as [|s l IH]; intros [|x col]; simpl; auto.
  now rewrite strip_rodeado, IH.
Qed.

Lemma plan_rodear (d : hoja_disp) : plan (rodear_disp izq der d) = plan d.
Proof.
  unfold plan, rodear_disp. simpl.
  destruct (Paro_programado d), (No_paro d);
    now rewrite ?disp_escenario_rodear.
Qed.

Lemma parametros_rodear (df : list fila_param) :
  parametros (map (rodear_param izq der) df) = parametros df.
Proof.
  unfold parametros.
  assert (E : strip_parametros (map (rodear_param izq der) df)
              = strip_parametros df).
  { unfold strip_parametros. rewrite map_map. apply map_ext. intros r.
    simpl. now rewrite strip_rodeado. }
  now rewrite E.
Qed.

End Rodear.

(** Whitespace around the text cells of the workbook does not change
    the run: material codes (sheets [Produccion] and [Capacidad]), week
    codes (sheets [Produccion] and [Disponibilidad]) and parameter names
    are read through [str.strip()], so a workbook whose text cells carry
    leading or trailing whitespace gives the same result, or the same
    failure, as the workbook without it. *)
Theorem ejecutar_sin_espacios (izq der : string -> string)
    df_prod df_cap df_disp_raw df_params :
  (forall x, espacios (izq x) = true) ->
  (forall x, espacios (der x) = true) ->
  ejecutar (map (rodear_prod izq der) df_prod)
           (map (rodear_cap izq der) df_cap)
           (rodear_disp izq der df_disp_raw)
           (map (rodear_param izq der) df_params)
  = ejecutar df_prod df_cap df_disp_raw df_params.
Proof.
  intros Hi Hd. unfold ejecutar, simulaciones.
  rewrite (@parametros_rodear izq der Hi Hd),
    (@df_base_materiales_rodear izq der Hi Hd), (@plan_rodear izq der Hi Hd).
  reflexivity.
Qed.

Lemma ejecutar_sin_espacios_witness :
  ejecutar (map (rodear_prod (fun _ => "  ") (fun _ => " ")) ejemplo_prod)
           (map (rodear_cap (fun _ => "  ") (fun _ => " ")) ejemplo_cap)
           (rodear_disp (fun _ => "  ") (fun _ => " ") ejemplo_disp)
           (map (rodear_param (fun _ => "  ") (fun _ => " ")) ejemplo_params)
  = ejecutar ejemplo_prod ejemplo_cap ejemplo_disp ejemplo_params.
Proof.
  apply (@ejecutar_sin_espacios (fun _ => "  ") (fun _ => " ")); reflexivity.
Defined.

(* ================================================================= *)
(** ** Texts with more than one decimal separator *)

Lemma is_space_no_punto (c : ascii) :
  is_space c = true -> Ascii.eqb c "." = false.
Proof.
  destruct (Ascii.eqb c ".") eqn:E; auto.
  apply Ascii.eqb_eq in E. subst c. discriminate.
Qed.

Lemma puntos_lstrip (s : string) : puntos (lstrip s) = puntos s.
Proof.
  induction s as [|c s IH]; simpl; auto.
  destruct (is_space c) eqn:E; simpl; auto.
  now rewrite IH, (is_space_no_punto c E).
Qed.

Lemma puntos_rstrip (s : string) : puntos (rstrip s) = puntos s.
Proof.
  induction s as [|c s IH]; simpl; auto.
  destruct (rstrip s) as [|c' r] eqn:E.
  - simpl in IH. rewrite <- IH.
    destruct (is_space c) eqn:Ec; simpl; auto.
    now rewrite (is_space_no_punto c Ec).
  - simpl in *. now rewrite IH.
Qed.

Lemma puntos_strip (s : string) : puntos (strip s) = puntos s.
Proof. unfold strip. now rewrite puntos_rstrip, puntos_lstrip. Qed.

Lemma puntos_parse_sign (s : string) : puntos (snd (parse_sign s)) = puntos s.
Proof.
  destruct s as [|c s]; [reflexivity|].
  destruct c as [[] [] [] [] [] [] [] []]; reflexivity.
Qed.

Lemma lower_punto (c : ascii) : Ascii.eqb (lower c) "." = Ascii.eqb c ".".
Proof.
  destruct c as [[] [] [] [] [] [] [] []]; reflexivity.
Qed.

Lemma puntos_lower_str (s : string) : puntos (lower_str s) = puntos s.
Proof.
  induction s as [|c s IH]; simpl; auto. now rewrite IH, lower_punto.
Qed.

Lemma digit_of_no_punto (c : ascii) (d : Z) :
  digit_of c = Some d -> Ascii.eqb c "." = false.
Proof.
  destruct (Ascii.eqb c ".") eqn:E; auto.
  apply Ascii.eqb_eq in E. subst c. discriminate.
Qed.

Lemma puntos_digitpart (s : string) :
  forall acc n, puntos (snd (digitpart s acc n)) = puntos s.
Proof.
  induction s as [|c s IH]; intros acc n; [reflexivity|].
  cbn [digitpart]. destruct (digit_of c) as [d|] eqn:Ed.
  - rewrite IH. cbn [puntos]. now rewrite (digit_of_no_punto c Ed).
  - destruct n as [|n]; [reflexivity|].
    destruct (Ascii.eqb c "_") eqn:Eu; [|reflexivity].
    destruct s as [|c' s']; [reflexivity|].
    destruct (digit_of c') eqn:Ed'; [|reflexivity].
    rewrite IH. apply Ascii.eqb_eq in Eu. subst c. reflexivity.
Qed.

(** The case analysis [String "." r => ... | _ => ...] of [float_str]. *)
Lemma caso_punto (X : Type) (c : ascii) (r : string) (f : string -> X) (g : X) :
  match String c r with
  | String "." r' => f r'
  | _ => g
  end = if Ascii.eqb c "." then f r else g.
Proof.
  destruct c as [[] [] [] [] [] [] [] []]; reflexivity.
Qed.

(** The builtin [float] rejects a text with two periods. *)
Lemma float_str_dos_puntos (s : string) :
  (2 <= puntos s)%nat -> float_str s = None.
Proof.
  intros H. unfold float_str.
  destruct (parse_sign (strip s)) as [neg r] eqn:Eps.
  assert (Hr : puntos r = puntos s).
  { pose proof (puntos_parse_sign (strip s)) as E. rewrite Eps in E.
    simpl in E. now rewrite E, puntos_strip. }
  assert (Hlr : puntos (lower_str r) = puntos s)
    by now rewrite puntos_lower_str.
  destruct (lower_str r =? "inf") eqn:E1.
  { apply String.eqb_eq in E1. rewrite E1 in Hlr. simpl in Hlr. lia. }
  destruct (lower_str r =? "infinity") eqn:E2.
  { apply String.eqb_eq in E2. rewrite E2 in Hlr. simpl in Hlr. lia. }
  destruct (lower_str r =? "nan") eqn:E3.
  { apply String.eqb_eq in E3. rewrite E3 in Hlr. simpl in Hlr. lia. }
  cbn [orb].
  destruct (digitpart r 0 0) as [[i ni] r1] eqn:Ed1.
  assert (Hr1 : puntos r1 = puntos s).
  { pose proof (puntos_digitpart r 0%Z 0%nat) as E. rewrite Ed1 in E.
    simpl in E. congruence. }
  assert (Hr2 : forall m nf r2,
            match r1 with
            | String "." r1' => digitpart r1' i 0%nat
            | _ => (i, 0%nat, r1)
            end = (m, nf, r2) -> (1 <= puntos r2)%nat).
  { intros m nf r2. destruct r1 as [|c r1']; [simpl in Hr1; lia|].
    rewrite (caso_punto c r1' (fun r' => digitpart r' i 0%nat)
                        (i, 0%nat, String c r1')).
    destruct (Ascii.eqb c ".") eqn:Ec.
    - intros E. pose proof (puntos_digitpart r1' i 0%nat) as P.
      rewrite E in P. simpl in P. simpl in Hr1. rewrite Ec in Hr1. lia.
    - intros E. inversion E; subst. lia. }
  destruct (match r1 with
            | String "." r1' => digitpart r1' i 0%nat
            | _ => (i, 0%nat, r1)
            end) as [[m nf] r2] eqn:Ed2.
  specialize (Hr2 m nf r2 eq_refl).
  destruct (ni + nf =? 0)%nat; [reflexivity|].
  destruct r2 as [|c r3]; [simpl in Hr2; lia|].
  destruct (Ascii.eqb (lower c) "e") eqn:Ee; [|reflexivity].
  assert (Hc : Ascii.eqb c "." = false).
  { rewrite <- lower_punto. apply Ascii.eqb_eq in Ee. rewrite Ee. reflexivity. }
  simpl in Hr2. rewrite Hc in Hr2. simpl in Hr2.
  destruct (parse_sign r3) as [eneg r4] eqn:Eps2.
  assert (Hr4 : puntos r4 = puntos r3).
  { pose proof (puntos_parse_sign r3) as E. rewrite Eps2 in E. exact E. }
  destruct (digitpart r4 0 0) as [[e ne] r5] eqn:Ed3.
  assert (Hr5 : puntos r5 = puntos r4).
  { pose proof (puntos_digitpart r4 0%Z 0%nat) as E. rewrite Ed3 in E.
    exact E. }
  destruct ne as [|ne]; [reflexivity|].
  destruct r5; [simpl in Hr5; lia | reflexivity].
Qed.

Lemma puntos_replace_coma (s : string) : puntos (replace_coma s) = separadores s.
Proof.
  induction s as [|c s IH]; simpl; auto. rewrite IH. f_equal.
  destruct (Ascii.eqb c ",") eqn:E.
  - apply Ascii.eqb_eq in E. subst c. reflexivity.
  - now rewrite orb_false_r.
Qed.

(** A parameter written with a thousands separator ends the run.  When
    the first row of the parameter sheet named [nombre] (one of the three
    names the run reads) holds a text with two or more periods or commas,
    the resolver returns that text with its commas replaced, not a
    number, and the run ends in the [except] branch. *)
Theorem separador_de_miles_aborta df_prod df_cap df_disp_raw df_params
    (nombre s : string) (fila : fila_param) (resto : list fila_param) :
  In nombre ["Horas por turno"; "Costo fijo"; "Costo Capital"] ->
  filter (fun r => Parametro r =? nombre) (strip_parametros df_params)
  = fila :: resto ->
  Valor fila = CStr s ->
  (2 <= separadores s)%nat ->
  (forall default,
     obtener_param (strip_parametros df_params) nombre default
     = CStr (replace_coma s))
  /\ ejecutar df_prod df_cap df_disp_raw df_params = None.
Proof.
  intros Hn Hf Hv Hs.
  assert (Ho : forall default,
             obtener_param (strip_parametros df_params) nombre default
             = CStr (replace_coma s)).
  { intros default. unfold obtener_param. rewrite Hf, Hv. cbn [normalizar py_float].
    rewrite float_str_dos_puntos; [reflexivity|].
    now rewrite puntos_replace_coma. }
  split; [exact Ho|].
  assert (Hp : parametros df_params = None).
  { unfold parametros.
    destruct Hn as [<- | [<- | [<- | []]]]; rewrite Ho; cbn [as_num].
    - reflexivity.
    - destruct (as_num _); reflexivity.
    - destruct (as_num _); [destruct (as_num _)|]; reflexivity. }
  unfold ejecutar. now rewrite Hp.
Qed.

Lemma separador_de_miles_aborta_witness :
  (forall default,
     obtener_param
       (strip_parametros [mk_param "Costo fijo " (CStr "750.000,50")])
       "Costo fijo" default
     = CStr "750.000.50")
  /\ ejecutar ejemplo_prod ejemplo_cap ejemplo_disp
              [mk_param "Costo fijo " (CStr "750.000,50")] = None.
Proof.
  apply (@separador_de_miles_aborta ejemplo_prod ejemplo_cap ejemplo_disp
           [mk_param "Costo fijo " (CStr "750.000,50")] "Costo fijo"
           "750.000,50" (mk_param "Costo fijo" (CStr "750.000,50")) []).
  - simpl. auto.
  - reflexivity.
  - reflexivity.
  - simpl. lia.
Defined.

(* ================================================================= *)
(** ** The merges keep the rows of the demand sheet *)

Lemma filter_clave_unica (X : Type) (key : X -> string) (k : string)
    (l : list X) :
  NoDup (map key l) ->
  (List.length (filter (fun x => (k =? key x)%string) l) <= 1)%nat.
Proof.
  induction l as [|x l IH]; simpl; intros H; [lia|].
  inversion H as [|? ? Hx Hl]; subst.
  destruct (k =? key x) eqn:E; [|auto].
  apply String.eqb_eq in E. subst k.
  rewrite filter_ninguno; [simpl; lia|].
  intros y Hy. apply String.eqb_neq. intros E. apply Hx. rewrite E.
  now apply in_map.
Qed.

Lemma merge_left_length (A B C : Type) (on : A -> B -> bool)
    (comb : A -> option B -> C) (l : list A) (r : list B) :
  (List.length l <= List.length (merge_left on comb l r))%nat.
Proof.
  induction l as [|a l IH]; [simpl; lia|].
  rewrite merge_left_cons, length_app. simpl.
  destruct (filter (on a) r); simpl; lia.
Qed.

Lemma merge_left_unico (A B C D : Type) (on : A -> B -> bool)
    (comb : A -> option B -> C) (f : C -> D) (g : A -> D)
    (l : list A) (r : list B) :
  (forall a b, f (comb a b) = g a) ->
  (forall a, In a l -> (List.length (filter (on a) r) <= 1)%nat) ->
  map f (merge_left on comb l r) = map g l.
Proof.
  intros Hf. induction l as [|a l IH]; intros H; [reflexivity|].
  rewrite merge_left_cons, map_app, IH by (intros; apply H; now right).
  specialize (H a (or_introl eq_refl)).
  destruct (filter (on a) r) as [|b [|b' ms]]; simpl in *; try lia;
    now rewrite Hf.
Qed.

(** The left merge of line 167 drops no row of the demand sheet, and
    when the capacity sheet lists every material once it adds none: the
    base table has the rows of the demand sheet, in their order, with
    their material, week and demand. *)
Theorem df_base_materiales_conserva_filas df_prod df_cap :
  (List.length df_prod <= List.length (df_base_materiales df_prod df_cap))%nat
  /\ (NoDup (map (fun c => strip (cap_Material c)) df_cap) ->
      map (fun b => (Material b, Semana b, Demanda_semanal b))
          (df_base_materiales df_prod df_cap)
      = map (fun p => (strip (prod_Material p), strip (prod_Semana p),
                       prod_Demanda_semanal p)) df_prod).
Proof.
  split; [apply merge_left_length|].
  intros Hnd. unfold df_base_materiales. apply merge_left_unico.
  - intros p c. reflexivity.
  - intros p _. unfold mismo_material.
    apply (filter_clave_unica (fun c => strip (cap_Material c))
                              (strip (prod_Material p)) df_cap Hnd).
Qed.

Lemma df_base_materiales_conserva_filas_witness :
  (List.length ejemplo_prod
   <= List.length (df_base_materiales ejemplo_prod cap_dos_materiales))%nat
  /\ map (fun b => (Material b, Semana b, Demanda_semanal b))
         (df_base_materiales ejemplo_prod cap_dos_materiales)
     = map (fun p => (strip (prod_Material p), strip (prod_Semana p),
                      prod_Demanda_semanal p)) ejemplo_prod.
Proof.
  destruct (df_base_materiales_conserva_filas ejemplo_prod cap_dos_materiales)
    as [H1 H2].
  split; [exact H1|]. apply H2.
  repeat constructor; simpl; intuition discriminate.
Defined.

Lemma asignacion_base df_main resumen :
  (forall b, In b df_main ->
     (List.length (filter (fun s => (Semana b =? sem_Semana s)%string) resumen) <= 1)%nat) ->
  map base (asignacion df_main resumen) = df_main.
Proof.
  intros H. unfold asignacion.
  rewrite (@merge_left_unico _ _ _ _ _ asignar base (fun b => b)); auto.
  apply map_id.
Qed.

Lemma resumen_semana_unica h df_main disp modo b :
  modo = true \/ NoDup (map turnos_Semana disp) ->
  In b df_main ->
  (List.length (filter (fun s => (Semana b =? sem_Semana s)%string)
                       (resumen_semanal h df_main disp modo)) <= 1)%nat.
Proof.
  intros Hm Hb.
  rewrite (filter_ext (fun s => Semana b =? sem_Semana s)
                      (fun s => sem_Semana s =? Semana b))
    by (intros; apply String.eqb_sym).
  rewrite resumen_de_semana by now apply in_map.
  destruct (@filas_de_clave_unica h df_main disp modo (Semana b)) as [s ->].
  - destruct Hm as [-> | Hnd]; [now left | right].
    now apply filter_clave_unica.
  - simpl. lia.
Qed.

(** A scenario neither drops nor repeats a row: in demand-driven mode,
    and in the other modes when the availability sheet lists no week
    twice, the material table that [calcular_escenario] returns holds
    the rows of the base table, each once (in the order of line 217). *)
Theorem calcular_escenario_conserva_filas df_base h cf tasa nombre disp modo :
  modo = true \/ NoDup (map turnos_Semana disp) ->
  Permutation
    (map fbase (fst (calcular_escenario df_base h cf tasa nombre disp modo)))
    df_base.
Proof.
  intros Hm.
  pose proof (df_final_asignacion df_base h cf tasa nombre disp modo) as Hp.
  apply (Permutation_map base) in Hp. rewrite map_map in Hp.
  rewrite asignacion_base in Hp; [exact Hp|].
  intros b Hb. now apply resumen_semana_unica.
Qed.

Lemma calcular_escenario_conserva_filas_witness :
  Permutation
    (map fbase (fst (calcular_escenario ejemplo_base (nz 8) (nz 1000)
                       (nq (1 # 100)) "Paro Programado" ejemplo_turnos false)))
    ejemplo_base.
Proof.
  apply calcular_escenario_conserva_filas. right.
  repeat constructor; simpl; intuition discriminate.
Defined.

(* ================================================================= *)
(** ** Demand of a material that the capacity sheet does not list *)

Lemma ndiv_nan_r (x : num) : (x / NaN)%num = NaN.
Proof. destruct x; reflexivity. Qed.

Lemma nmul_nan_r (x : num) : (x * NaN)%num = NaN.
Proof. destruct x; reflexivity. Qed.

Lemma nadd_nan_r (x : num) : (x + NaN)%num = NaN.
Proof. destruct x; reflexivity. Qed.

Lemma nsub_nan_l (x : num) : (NaN - x)%num = NaN.
Proof. reflexivity. Qed.

Lemma nlt_nan_r (x : num) : (x <? NaN)%num = false.
Proof. destruct x; reflexivity. Qed.

(** The allocation of a row without rate: no share, no hours, no units. *)
Lemma asignar_sin_ritmo (b : fila_base) (s : option fila_semana) :
  Unidades_por_hora b = NaN ->
  Horas_Necesarias b = NaN ->
  Participacion (asignar b s) = cero
  /\ Horas_Finales_Asignadas (asignar b s) = NaN
  /\ Unidades_A_Producir (asignar b s) = NaN.
Proof.
  intros Hu Hh. unfold asignar.
  cbn [Participacion Horas_Finales_Asignadas Unidades_A_Producir].
  rewrite Hu, Hh. cbn [ndiv fillna isnan nadd]. rewrite py_max_cero_nan.
  auto.
Qed.

(** An iteration of the inventory loop on a row that produces [nan]
    units at a [nan] unit cost. *)
Lemma paso_sin_produccion (q v : num) (row : fila_costo) :
  Unidades_A_Producir (asig row) = NaN ->
  Costo_unitario_total row = NaN ->
  let l := paso q v row in
  wac l = NaN /\ qty_sold l = Demanda_semanal (base (asig row))
  /\ cogs_total l = NaN /\ qty_final l = NaN /\ val_final l = NaN.
Proof.
  intros Hu Hc. unfold paso.
  cbn [wac qty_sold cogs_total qty_final val_final].
  rewrite Hu, Hc, nadd_nan_r. unfold ngt, py_min.
  rewrite !nlt_nan_r, nmul_nan_r. auto.
Qed.

Lemma nansum_fold_no_nan (l : list num) (acc : num) :
  fold_left (fun acc x => if isnan x then acc else (acc + x)%num)
            (filter (fun x => negb (isnan x)) l) acc
  = fold_left (fun acc x => if isnan x then acc else (acc + x)%num) l acc.
Proof.
  revert acc. induction l as [|x l IH]; intros acc; [reflexivity|].
  simpl. destruct (isnan x) eqn:E; simpl; [|rewrite E]; apply IH.
Qed.

Lemma nansum_no_nan (l : list num) :
  nansum (filter (fun x => negb (isnan x)) l) = nansum l.
Proof. apply nansum_fold_no_nan. Qed.

Lemma horas_conocidas df_prod df_cap (w : string) :
  filter (fun x => negb (isnan x))
    (map Horas_Necesarias
       (filter (fun r => Semana r =? w) (df_base_materiales df_prod df_cap)))
  = filter (fun x => negb (isnan x))
      (map Horas_Necesarias
         (filter (fun r => Semana r =? w)
            (df_base_materiales
               (filter (fun p => existsb (mismo_material p) df_cap) df_prod)
               df_cap))).
Proof.
  unfold df_base_materiales.
  induction df_prod as [|p l IH]; [reflexivity|].
  cbn [filter]. destruct (existsb (mismo_material p) df_cap) eqn:E.
  - rewrite !merge_left_cons, !filter_app, !map_app, !filter_app, IH.
    reflexivity.
  - rewrite merge_left_cons, filter_app, map_app, filter_app, IH.
    rewrite (@filter_ninguno _ (mismo_material p) df_cap).
    + cbn [filter fila_base_de Semana].
      destruct (strip (prod_Semana p) =? w); cbn [map filter Horas_Necesarias app];
        [|reflexivity].
      assert (Hn : Horas_Necesarias (fila_base_de p None) = NaN)
        by apply ndiv_nan_r.
      now rewrite Hn.
    + intros c Hc. destruct (mismo_material p c) eqn:Ec; auto.
      assert (Hex : existsb (mismo_material p) df_cap = true)
        by (apply existsb_exists; eauto).
      congruence.
Qed.

(** A demand row whose material the capacity sheet does not list stays
    in every scenario as a row of [nan]: no required, allocated or
    produced quantity, no cost and no inventory, with the demand itself
    reported as sold.  Since the sums skip [nan], the required hours of
    a week are those of the demand sheet without such rows. *)
Theorem material_sin_capacidad df_prod df_cap h cf tasa nombre disp modo :
  (forall r,
     In r (fst (calcular_escenario (df_base_materiales df_prod df_cap) h cf
                  tasa nombre disp modo)) ->
     (forall c, In c df_cap -> strip (cap_Material c) <> Material (fbase r)) ->
     Horas_Necesarias (fbase r) = NaN
     /\ Participacion (fasig r) = cero
     /\ Horas_Finales_Asignadas (fasig r) = NaN
     /\ Unidades_A_Producir (fasig r) = NaN
     /\ Costo_Promedio_Ponderado r = NaN
     /\ Costo_Mercancia_Vendida r = NaN
     /\ Inv_Final_Und r = NaN
     /\ Inv_Final_Valor r = NaN)
  /\ (forall w,
        total_semana (df_base_materiales df_prod df_cap) w
        = total_semana
            (df_base_materiales
               (filter (fun p => existsb (mismo_material p) df_cap) df_prod)
               df_cap) w).
Proof.
  split.
  - intros r Hr Hno.
    apply df_final_traza in Hr. destruct Hr as (row & l & Hin & ->).
    pose proof (traza_paso _ _ _ _ _ _ _ Hin) as Hl.
    assert (Hrow : In row (df_ordenado (df_base_materiales df_prod df_cap)
                                       h cf disp modo)).
    { unfold traza, inventario in Hin.
      rewrite <- (bucle_fst (df_ordenado (df_base_materiales df_prod df_cap)
                                         h cf disp modo) None cero cero).
      apply in_map_iff. exists (row, l). auto. }
    unfold df_ordenado in Hrow. apply ordenar_In in Hrow.
    apply in_costos in Hrow. destruct Hrow as (Has & t & _ & _ & Hrowdef).
    apply in_asignacion in Has. destruct Has as [Hb Hs].
    apply in_df_base_materiales in Hb.
    destruct Hb as (p & _ & [(c & Hc & Hm & _) | (_ & Hbdef)]).
    { exfalso. exact (Hno c Hc Hm). }
    assert (Hu : Unidades_por_hora (base (asig row)) = NaN)
      by (rewrite Hbdef; reflexivity).
    assert (Hh : Horas_Necesarias (base (asig row)) = NaN)
      by (rewrite Hbdef; cbn [fila_base_de Horas_Necesarias];
          apply ndiv_nan_r).
    assert (Hv : Costo_variable_unitario (base (asig row)) = NaN)
      by (rewrite Hbdef; reflexivity).
    assert (Hasig : Participacion (asig row) = cero
                    /\ Horas_Finales_Asignadas (asig row) = NaN
                    /\ Unidades_A_Producir (asig row) = NaN).
    { destruct Hs as [(s & _ & _ & E) | (_ & E)]; rewrite E;
        now apply asignar_sin_ritmo. }
    destruct Hasig as (Hpa & Hhf & Hun).
    assert (Hct : Costo_unitario_total row = NaN).
    { rewrite Hrowdef. cbn [con_costo Costo_unitario_total]. now rewrite Hv. }
    destruct (paso_sin_produccion (qty_ini l) (val_ini l) row Hun Hct)
      as (Hw & _ & Hcg & Hqf & Hvf).
    rewrite <- Hl in Hw, Hcg, Hqf, Hvf.
    unfold fbase, fasig.
    cbn [fila_final_de costo Costo_Promedio_Ponderado Costo_Mercancia_Vendida
         Inv_Final_Und Inv_Final_Valor].
    repeat split; assumption.
  - intros w. unfold total_semana.
    rewrite <- nansum_no_nan, horas_conocidas, nansum_no_nan. reflexivity.
Qed.

Lemma material_sin_capacidad_witness :
  let F := fst (calcular_escenario
                  (df_base_materiales prod_desconocido ejemplo_cap) (nz 8)
                  (nz 1000) (nq (1 # 100)) "Paro Programado" ejemplo_turnos
                  false) in
  exists r,
    In r F /\ Material (fbase r) = "9999999"
    /\ Unidades_A_Producir (fasig r) = NaN
    /\ Costo_Mercancia_Vendida r = NaN
    /\ Inv_Final_Und r = NaN
    /\ total_semana (df_base_materiales prod_desconocido ejemplo_cap) "202545"
       = total_semana
           (df_base_materiales
              (filter (fun p => existsb (mismo_material p) ejemplo_cap)
                      prod_desconocido)
              ejemplo_cap) "202545".
Proof.
  intros F. set (r := nth 1 F fila_final_nula).
  assert (Hin : In r F) by (apply nth_In; vm_compute; lia).
  assert (Hm : Material (fbase r) = "9999999") by (vm_compute; reflexivity).
  exists r. split; [exact Hin|]. split; [exact Hm|].
  destruct (material_sin_capacidad prod_desconocido ejemplo_cap (nz 8)
              (nz 1000) (nq (1 # 100)) "Paro Programado" ejemplo_turnos false)
    as [H Hw].
  destruct (H r Hin) as (_ & _ & _ & Hu & _ & Hc & Hq & _).
  { intros c [<- | []]. rewrite Hm. vm_compute. discriminate. }
  repeat split; auto.
Defined.

(* ================================================================= *)
(** ** Shares of a week and the absorption of the fixed cost *)

Lemma filas_semana_asignacion df_base h cf tasa nombre disp modo (w : string) :
  Permutation
    (map fasig
       (filas_semana w
          (fst (calcular_escenario df_base h cf tasa nombre disp modo))))
    (filter (fun r => Semana (base r) =? w)
            (asignacion df_base (resumen_semanal h df_base disp modo))).
Proof.
  pose proof (df_final_asignacion df_base h cf tasa nombre disp modo) as Hp.
  apply (Permutation_filter (fun r => Semana (base r) =? w)) in Hp.
  rewrite filter_map_swap in Hp. exact Hp.
Qed.

Lemma semana_presente df_base (w : string) (t : Qc) :
  total_semana df_base w = Fin t -> t <> 0%Qc -> In w (map Semana df_base).
Proof.
  intros HT Ht.
  destruct (in_dec string_dec w (map Semana df_base)) as [Hin | Hnin]; auto.
  exfalso. unfold total_semana in HT. rewrite filter_ninguno in HT.
  - inversion HT. congruence.
  - intros b Hb. apply String.eqb_neq. intros E. apply Hnin.
    apply in_map_iff. eauto.
Qed.

Lemma qsum_cociente (t : Qc) (qs : list Qc) :
  t <> 0%Qc -> qsum (map (fun q => q / t)%Qc qs) = (qsum qs / t)%Qc.
Proof.
  intros Ht. induction qs as [|q qs IH]; simpl.
  - field. exact Ht.
  - rewrite IH. field. exact Ht.
Qed.

Lemma qsum_escala (k : Qc) (qs : list Qc) :
  qsum (map (fun q => q * k)%Qc qs) = (qsum qs * k)%Qc.
Proof.
  induction qs as [|q qs IH]; simpl; [ring|]. rewrite IH. ring.
Qed.

Lemma participacion_fin_map (s : fila_semana) (t : Qc) :
  Total_Horas_Req_Semana s = Fin t ->
  t <> 0%Qc ->
  forall (B : list fila_base) (qs : list Qc),
    map Horas_Necesarias B = map Fin qs ->
    map (fun b => Participacion (asignar b (Some s))) B
    = map Fin (map (fun q => q / t)%Qc qs).
Proof.
  intros HT Ht. induction B as [|b B IH]; intros [|q qs] Hqs;
    try discriminate; [reflexivity|].
  simpl in Hqs. inversion Hqs as [[Hq Hrest]].
  cbn [map]. rewrite (IH qs Hrest). f_equal.
  unfold asignar. cbn [Participacion]. rewrite Hq, HT, (ndiv_fin q Ht).
  reflexivity.
Qed.

(** The shares of a week add up to one: in every scenario run, for a
    week that has one row of availability (or in demand-driven mode),
    whose rows all have a number of required hours and whose total
    required hours are not zero, the column [Participacion] of the rows
    of the week sums to 1. *)
Theorem participaciones_suman_uno df_base h cf tasa nombre disp modo
    (w : string) (t : Qc) :
  modo = true
  \/ (List.length (filter (fun d => (w =? turnos_Semana d)%string) disp)
      <= 1)%nat ->
  (forall b, In b df_base -> Semana b = w ->
             is_fin (Horas_Necesarias b) = true) ->
  total_semana df_base w = Fin t ->
  t <> 0%Qc ->
  suma (map (fun r => Participacion (fasig r))
            (filas_semana w
               (fst (calcular_escenario df_base h cf tasa nombre disp modo))))
  = uno.
Proof.
  intros Huni Hfin HT Ht.
  pose proof (semana_presente df_base w HT Ht) as Hw.
  pose proof (@resumen_de_semana h df_base disp modo w Hw) as Hres.
  destruct (@filas_de_clave_unica h df_base disp modo w Huni) as [s Hs].
  rewrite Hs in Hres.
  assert (Hsin : In s (filas_de_clave h df_base disp modo w))
    by (rewrite Hs; left; reflexivity).
  destruct (@filas_de_clave_semana h df_base disp modo w s Hsin) as (_ & HTs & _).
  rewrite HT in HTs.
  set (B := filter (fun b => Semana b =? w) df_base).
  assert (HB : exists qs, map Horas_Necesarias B = map Fin qs).
  { apply all_fin_map. apply Forall_forall. intros x Hx.
    apply in_map_iff in Hx. destruct Hx as (b & <- & Hb).
    apply filter_In in Hb. destruct Hb as [Hb E]. apply String.eqb_eq in E.
    now apply Hfin. }
  destruct HB as [qs Hqs].
  assert (Hsum : qsum qs = t).
  { unfold total_semana in HT. fold B in HT. rewrite Hqs, nansum_fin in HT.
    now inversion HT. }
  pose proof (filas_semana_asignacion df_base h cf tasa nombre disp modo w)
    as Hperm.
  rewrite (@asignacion_semana df_base _ w s Hres) in Hperm. fold B in Hperm.
  apply (Permutation_map Participacion) in Hperm.
  rewrite !map_map in Hperm.
  rewrite (@participacion_fin_map s t HTs Ht B qs Hqs) in Hperm.
  rewrite (@suma_perm_fin _ _ Hperm), (@qsum_cociente t qs Ht), Hsum.
  unfold uno. f_equal. field. exact Ht.
Qed.

Lemma participaciones_suman_uno_witness :
  suma (map (fun r => Participacion (fasig r))
            (filas_semana "202545"
               (fst (calcular_escenario
                       (df_base_materiales prod_con_devolucion cap_dos_materiales)
                       (nz 8) (nz 1000) (nq (1 # 100)) "Paro Programado"
                       ejemplo_turnos false))))
  = uno.
Proof.
  apply (@participaciones_suman_uno
           (df_base_materiales prod_con_devolucion cap_dos_materiales)
           (nz 8) (nz 1000) (nq (1 # 100)) "Paro Programado" ejemplo_turnos
           false "202545" (qz 10)).
  - right. vm_compute. lia.
  - intros b [<- | [<- | []]] _; reflexivity.
  - apply num_same_eq. vm_compute. reflexivity.
  - intros E. apply (f_equal this) in E. vm_compute in E. discriminate E.
Defined.

Lemma nansum_perm_fin (L : list num) (ys : list Qc) :
  Permutation L (map Fin ys) -> nansum L = Fin (qsum ys).
Proof.
  intros H. apply Permutation_map_inv in H.
  destruct H as (ys' & -> & Hp).
  rewrite nansum_fin. f_equal. symmetry. now apply qsum_perm.
Qed.

(** The fixed unit cost of a row: the fixed cost over the units of its
    week when these are positive, zero otherwise. *)
Lemma costo_fijo_unitario_fila cf (A : list fila_asig) (row : fila_costo) :
  In row (costos cf A) ->
  let unidades :=
    nansum (map Unidades_A_Producir
                (filter (fun r => Semana (base r) =? Semana (base (asig row))) A)) in
  Costo_fijo_unitario row
  = if (unidades >? cero)%num then (cf / unidades)%num else cero.
Proof.
  intros H. apply in_costos in H. destruct H as (_ & t & Ht & Hk & Hrow).
  unfold tabla_costos in Ht. apply in_map_iff in Ht. destruct Ht as (k & <- & _).
  simpl in Hk. subst k. intros unidades. rewrite Hrow. reflexivity.
Qed.

Lemma fila_final_en_costos df_base h cf tasa nombre disp modo r :
  In r (fst (calcular_escenario df_base h cf tasa nombre disp modo)) ->
  In (costo r)
     (costos cf (asignacion df_base (resumen_semanal h df_base disp modo))).
Proof.
  intros Hr. apply df_final_traza in Hr. destruct Hr as (row & l & Hin & ->).
  cbn [fila_final_de costo].
  apply (ordenar_In leb_material_semana). fold (df_ordenado df_base h cf disp modo).
  unfold traza, inventario in Hin.
  rewrite <- (bucle_fst (df_ordenado df_base h cf disp modo) None cero cero).
  apply in_map_iff. exists (row, l). auto.
Qed.

(** The fixed cost of a week is absorbed by the units produced in it:
    in every scenario run, for a week whose rows all produce a number of
    units with a positive total, every row of the week carries the fixed
    unit cost [fixed cost / total units], and units times fixed unit
    cost, summed over the rows of the week, give back the fixed cost. *)
Theorem costo_fijo_absorbido df_base h (c : Qc) tasa nombre disp modo
    (w : string) (u : Qc) :
  let filas :=
    filas_semana w
      (fst (calcular_escenario df_base h (Fin c) tasa nombre disp modo)) in
  (forall r, In r filas -> is_fin (Unidades_A_Producir (fasig r)) = true) ->
  nansum (map (fun r => Unidades_A_Producir (fasig r)) filas) = Fin u ->
  (0 < u)%Qc ->
  (forall r, In r filas -> Costo_fijo_unitario (costo r) = Fin (c / u)%Qc)
  /\ suma (map (fun r => (Unidades_A_Producir (fasig r)
                          * Costo_fijo_unitario (costo r))%num) filas)
     = Fin c.
Proof.
  intros filas Hfin Hu Hpos.
  assert (Hxs : exists xs,
             map (fun r => Unidades_A_Producir (fasig r)) filas = map Fin xs).
  { apply all_fin_map. apply Forall_forall. intros x Hx.
    apply in_map_iff in Hx. destruct Hx as (r & <- & Hr). now apply Hfin. }
  destruct Hxs as [xs Hxs].
  assert (Hsum : qsum xs = u).
  { rewrite Hxs, nansum_fin in Hu. now inversion Hu. }
  pose proof (filas_semana_asignacion df_base h (Fin c) tasa nombre disp modo w)
    as Hperm.
  fold filas in Hperm.
  apply (Permutation_map Unidades_A_Producir), Permutation_sym in Hperm.
  rewrite map_map, Hxs in Hperm.
  apply nansum_perm_fin in Hperm. rewrite Hsum in Hperm.
  assert (Hne : u <> 0%Qc) by (now apply Qclt_neq).
  assert (Hcfu : forall r, In r filas ->
                   Costo_fijo_unitario (costo r) = Fin (c / u)%Qc).
  { intros r Hr. unfold filas, filas_semana in Hr. apply filter_In in Hr.
    destruct Hr as [Hr Hk]. apply String.eqb_eq in Hk.
    apply fila_final_en_costos in Hr.
    rewrite (costo_fijo_unitario_fila _ _ _ Hr).
    change (Semana (base (asig (costo r)))) with (Semana (fbase r)).
    rewrite Hk, Hperm.
    rewrite (proj2 (ngt_cero_fin u) Hpos). now apply ndiv_fin. }
  split; [exact Hcfu|].
  rewrite (map_ext_in _ (fun r => (Unidades_A_Producir (fasig r)
                                   * Fin (c / u)%Qc)%num))
    by (intros r Hr; now rewrite (Hcfu r Hr)).
  rewrite <- (map_map (fun r => Unidades_A_Producir (fasig r))
                      (fun x => (x * Fin (c / u)%Qc)%num)).
  rewrite Hxs, map_map.
  change (map (fun x => (Fin x * Fin (c / u)%Qc)%num) xs)
    with (map (fun x => Fin (x * (c / u))%Qc) xs).
  rewrite <- (map_map (fun x => (x * (c / u))%Qc) Fin).
  rewrite suma_fin, qsum_escala, Hsum. f_equal. field. exact Hne.
Qed.

Lemma costo_fijo_absorbido_witness :
  let filas :=
    filas_semana "202545"
      (fst (calcular_escenario
              (df_base_materiales prod_con_devolucion cap_dos_materiales)
              (nz 8) (Fin (qz 1000)) (nq (1 # 100)) "Paro Programado"
              ejemplo_turnos false)) in
  (forall r, In r filas ->
     Costo_fijo_unitario (costo r) = Fin (qz 1000 / qz 1200)%Qc)
  /\ suma (map (fun r => (Unidades_A_Producir (fasig r)
                          * Costo_fijo_unitario (costo r))%num) filas)
     = Fin (qz 1000).
Proof.
  apply (@costo_fijo_absorbido
           (df_base_materiales prod_con_devolucion cap_dos_materiales)
           (nz 8) (qz 1000) (nq (1 # 100)) "Paro Programado" ejemplo_turnos
           false "202545" (qz 1200)).
  - intros r [<- | [<- | []]]; reflexivity.
  - apply num_same_eq. vm_compute. reflexivity.
  - reflexivity.
Defined.

(* ================================================================= *)
(** ** The demand-driven scenario produces the demand *)

Lemma positivo_fin (x : num) :
  positivo x = true <-> exists q, x = Fin q /\ (0 < q)%Qc.
Proof.
  unfold positivo. rewrite andb_true_iff. split.
  - intros [Hf Hp]. destruct x as [q| | |]; try discriminate.
    exists q. split; auto. now apply nlt_fin.
  - intros (q & -> & Hq). split; auto. now apply nlt_fin.
Qed.

Lemma entradas_base_dem df_prod df_cap :
  forallb (fun p => no_negativo (prod_Demanda_semanal p)
                    && existsb (mismo_material p) df_cap) df_prod = true ->
  forallb (fun c => positivo (cap_Unidades_por_hora c)
                    && no_negativo (cap_Inventario_inicial c)) df_cap = true ->
  forall b, In b (df_base_materiales df_prod df_cap) -> base_dem b.
Proof.
  intros Hprod Hcap b Hb. rewrite forallb_forall in Hprod, Hcap.
  apply in_df_base_materiales in Hb.
  destruct Hb as (p & Hp & [(c & Hc & _ & ->) | (Hno & ->)]).
  - specialize (Hprod p Hp). apply andb_true_iff in Hprod.
    destruct Hprod as [Hd _]. apply no_negativo_nn in Hd.
    destruct Hd as (d & Hd & Hd0).
    specialize (Hcap c Hc). apply andb_true_iff in Hcap.
    destruct Hcap as [Hu Hi]. apply positivo_fin in Hu.
    destruct Hu as (u & Hu & Hu0). apply no_negativo_nn in Hi.
    exists d, u. cbn [fila_base_de Demanda_semanal Unidades_por_hora
                      Horas_Necesarias Inventario_inicial].
    rewrite Hd, Hu. repeat split; auto.
    apply ndiv_fin. now apply Qclt_neq.
  - exfalso. specialize (Hprod p Hp). apply andb_true_iff in Hprod.
    destruct Hprod as [_ Hex]. apply existsb_exists in Hex.
    destruct Hex as (c & Hc & Hm). unfold mismo_material in Hm.
    apply String.eqb_eq in Hm. apply (Hno c Hc). simpl. auto.
Qed.

Lemma qsum_no_negativa (qs : list Qc) :
  Forall (fun q => (0 <= q)%Qc) qs ->
  (0 <= qsum qs)%Qc
  /\ (qsum qs = 0%Qc -> Forall (fun q => q = 0%Qc) qs).
Proof.
  induction 1 as [|q qs Hq Hqs [IH1 IH2]]; simpl.
  - split; [qc2q; lra | constructor].
  - split; [qc2q; lra|]. intros E.
    assert (E1 : q = 0%Qc) by (qc2q; lra).
    assert (E2 : qsum qs = 0%Qc) by (qc2q; lra).
    constructor; auto.
Qed.

Lemma horas_dem_map (B : list fila_base) :
  (forall b, In b B -> base_dem b) ->
  exists qs, map Horas_Necesarias B = map Fin qs
             /\ Forall (fun q => (0 <= q)%Qc) qs.
Proof.
  induction B as [|b B IH]; intros H.
  - exists []. split; constructor.
  - destruct IH as (qs & E & Hqs); [intros; apply H; now right|].
    destruct (H b (or_introl eq_refl)) as (d & u & _ & Hd & _ & Hu & Hh & _).
    exists ((d / u)%Qc :: qs). cbn [map]. rewrite Hh, E. split; auto.
    constructor; auto. qc2q. apply Qle_shift_div_l; lra.
Qed.

(** The required hours of a week are a number that is not negative, and
    zero only when no row of the week requires hours. *)
Lemma total_semana_dem (df : list fila_base) (k : string) :
  (forall b, In b df -> base_dem b) ->
  exists t, total_semana df k = Fin t /\ (0 <= t)%Qc
    /\ (t = 0%Qc -> forall b, In b df -> Semana b = k ->
                              Horas_Necesarias b = cero).
Proof.
  intros H. unfold total_semana.
  destruct (@horas_dem_map (filter (fun r => Semana r =? k) df))
    as (qs & E & Hqs).
  { intros b Hb. apply filter_In in Hb. apply H, Hb. }
  destruct (qsum_no_negativa Hqs) as [H0 Hz].
  exists (qsum qs). rewrite E, nansum_fin. repeat split; auto.
  intros Et b Hb Hk. specialize (Hz Et).
  assert (Hin : In (Horas_Necesarias b) (map Fin qs)).
  { rewrite <- E. apply in_map. apply filter_In. split; auto.
    now apply String.eqb_eq. }
  apply in_map_iff in Hin. destruct Hin as (q & <- & Hq).
  rewrite Forall_forall in Hz. now rewrite (Hz q Hq).
Qed.

(** A row of the base table in its week of the demand-driven summary. *)
Lemma asignar_dem (hq : Qc) (b : fila_base) (t : Qc) :
  hq <> 0%Qc ->
  base_dem b ->
  (0 <= t)%Qc ->
  (t = 0%Qc -> Horas_Necesarias b = cero) ->
  let s := fila_semana_de (Fin hq) (Semana b) (Fin t) (Fin t / Fin hq)%num in
  let r := asignar b (Some s) in
  Horas_Finales_Asignadas r = Horas_Necesarias b
  /\ Unidades_A_Producir r = Demanda_semanal b.
Proof.
  intros Hh (d & u & Hd & Hd0 & Hu & Hu0 & Hq & _) Ht Hz s r.
  assert (Hune : u <> 0%Qc) by now apply Qclt_neq.
  assert (Hq0 : (0 <= d / u)%Qc) by (qc2q; apply Qle_shift_div_l; lra).
  assert (Hdif : Diferencia_Horas s = Fin 0%Qc).
  { unfold s, fila_semana_de. cbn [Diferencia_Horas].
    rewrite (ndiv_fin t Hh). unfold nsub. cbn [nmul nopp nadd]. f_equal.
    now apply Qc_div_mul_sub. }
  assert (Hpar : exists x, Participacion r = Fin x).
  { unfold r, asignar, s, fila_semana_de.
    cbn [Participacion Total_Horas_Req_Semana]. rewrite Hq.
    destruct (Qc_eq_dec t 0%Qc) as [E | E].
    - specialize (Hz E). rewrite Hq in Hz.
      assert (Hz' : (d / u)%Qc = 0%Qc) by (unfold cero in Hz; congruence).
      rewrite Hz', E. exists 0%Qc. reflexivity.
    - rewrite (ndiv_fin (d / u)%Qc E). eexists. reflexivity. }
  destruct Hpar as [x Hx].
  assert (Hhf : Horas_Finales_Asignadas r = Fin (d / u)%Qc).
  { change (Horas_Finales_Asignadas r)
      with (py_max (Horas_Necesarias b + Participacion r * Diferencia_Horas s)%num
                   cero).
    rewrite Hx, Hdif, Hq. cbn [nmul nadd]. rewrite py_max_cero_piso.
    f_equal. rewrite piso_cero_id.
    - ring.
    - intros Hneg. qc2q. lra. }
  split; [now rewrite Hhf, Hq|].
  change (Unidades_A_Producir r)
    with (Horas_Finales_Asignadas r * Unidades_por_hora b)%num.
  rewrite Hhf, Hu, Hd. cbn [nmul]. f_equal. field. exact Hune.
Qed.

Lemma asignacion_dem (hq : Qc) df_main disp r :
  hq <> 0%Qc ->
  (forall b, In b df_main -> base_dem b) ->
  In r (asignacion df_main (resumen_semanal (Fin hq) df_main disp true)) ->
  Horas_Finales_Asignadas r = Horas_Necesarias (base r)
  /\ Unidades_A_Producir r = Demanda_semanal (base r)
  /\ base_dem (base r).
Proof.
  intros Hh Hdf Hr. apply in_asignacion in Hr. destruct Hr as [Hb Hs].
  pose proof (Hdf _ Hb) as Hbd.
  destruct (@total_semana_dem df_main (Semana (base r)) Hdf)
    as (t & HT & Ht & Hz).
  destruct Hs as [(s & Hs & Hk & E) | (Hno & _)].
  - apply in_resumen_demanda in Hs. destruct Hs as ([k T] & Hkt & Hsdef).
    apply in_total_horas_req in Hkt. destruct Hkt as [_ HTk].
    cbn [fst snd] in Hsdef, HTk. rewrite Hsdef in Hk. cbn [fila_semana_de sem_Semana] in Hk.
    subst k. fold (total_semana df_main (Semana (base r))) in HTk.
    rewrite HT in HTk. subst T.
    destruct (@asignar_dem hq (base r) t Hh Hbd Ht) as [H1 H2].
    { intros Et. apply (Hz Et (base r)); auto. }
    rewrite Hsdef in E. rewrite E. cbn [base]. cbv zeta in H1, H2. auto.
  - exfalso.
    assert (Hw : In (Semana (base r)) (map Semana df_main)) by now apply in_map.
    pose proof (@resumen_de_semana (Fin hq) df_main disp true _ Hw) as Hres.
    unfold filas_de_clave in Hres.
    set (s := fila_semana_de _ _ _ _) in Hres.
    assert (Hin : In s (filter (fun s0 => sem_Semana s0 =? Semana (base r))
                          (resumen_semanal (Fin hq) df_main disp true)))
      by (rewrite Hres; left; reflexivity).
    apply filter_In in Hin. destruct Hin as [Hin Hk].
    apply String.eqb_eq in Hk. exact (Hno s Hin Hk).
Qed.

Lemma df_ordenado_dem (hq : Qc) cf df_prod df_cap disp row :
  hq <> 0%Qc ->
  (forall b, In b (df_base_materiales df_prod df_cap) -> base_dem b) ->
  In row (df_ordenado (df_base_materiales df_prod df_cap) (Fin hq) cf disp true) ->
  fila_dem row.
Proof.
  intros Hh Hdf Hrow. unfold df_ordenado in Hrow. apply ordenar_In in Hrow.
  apply in_costos in Hrow. destruct Hrow as [Has _].
  destruct (@asignacion_dem hq _ disp (asig row) Hh Hdf Has)
    as (H1 & H2 & d & u & Hd & Hd0 & _ & _ & _ & Hi).
  exists d. rewrite H2. auto.
Qed.

(** An iteration that produces the demand, on an opening quantity that
    is not negative: the demand is sold and the quantity is kept. *)
Lemma paso_dem (q v : num) (row : fila_costo) :
  nn q -> fila_dem row ->
  qty_sold (paso q v row) = Demanda_semanal (base (asig row))
  /\ qty_final (paso q v row) = q.
Proof.
  intros (i & -> & Hi) (d & Hu & Hd & Hd0 & _ & _). unfold paso.
  cbn [qty_sold qty_final]. rewrite Hu, Hd. cbn [nadd].
  assert (Hmin : py_min (Fin d) (Fin (i + d)%Qc) = Fin d).
  { unfold py_min. destruct (Fin (i + d)%Qc <? Fin d)%num eqn:E; auto.
    apply nlt_fin in E. exfalso. qc2q. lra. }
  rewrite Hmin. split; auto. unfold nsub. cbn [nopp nadd]. f_equal. ring.
Qed.

Lemma bucle_dem (df : list fila_costo) :
  Forall fila_dem df ->
  forall prev pu pv row l,
    nn pu ->
    In (row, l) (bucle prev pu pv df) ->
    nn (qty_ini l)
    /\ qty_sold l = Demanda_semanal (base (asig row))
    /\ qty_final l = qty_ini l.
Proof.
  induction 1 as [|r df Hr Hdf IH]; intros prev pu pv row l Hst Hin.
  - destruct Hin.
  - cbn [bucle] in Hin.
    destruct (apertura prev pu pv r) as [q v] eqn:Eap.
    assert (Hq : nn q).
    { unfold apertura in Eap.
      destruct (match prev with Some m => negb _ | None => true end);
        inversion Eap; subst; auto.
      destruct Hr as (d & _ & _ & _ & _ & Hi). exact Hi. }
    destruct (@paso_dem q v r Hq Hr) as [Hs Hf].
    destruct Hin as [E | Hin].
    + inversion E; subst. cbn [paso qty_ini]. auto.
    + apply (IH _ _ _ row l) in Hin; auto. rewrite Hf. exact Hq.
Qed.

(** The demand-driven scenario produces the demand and keeps the stock.
    With demands that are not negative, of materials listed with a
    positive rate and an opening inventory that is not negative, and
    hours per shift other than zero, every row of the scenario
    "Siguiendo Demanda" is allocated its required hours, produces its
    demand, and closes with the quantity it opened with. *)
Theorem siguiendo_demanda_produce_la_demanda df_prod df_cap h cf tasa nombre
    disp r :
  entradas_demanda df_prod df_cap h = true ->
  In r (fst (calcular_escenario (df_base_materiales df_prod df_cap) h cf tasa
               nombre disp true)) ->
  Horas_Finales_Asignadas (fasig r) = Horas_Necesarias (fbase r)
  /\ Unidades_A_Producir (fasig r) = Demanda_semanal (fbase r)
  /\ Inv_Final_Und r = Inv_Inicial_Und r
  /\ no_negativo (Inv_Final_Und r) = true.
Proof.
  intros He Hr. revert He. unfold entradas_demanda. rewrite !andb_true_iff.
  intros (((Hprod & Hcap) & Hfin) & Hne).
  destruct h as [hq| | |]; try discriminate Hfin.
  assert (Hh : hq <> 0%Qc).
  { intros ->. discriminate Hne. }
  pose proof (entradas_base_dem df_prod df_cap Hprod Hcap) as Hbase.
  apply df_final_traza in Hr. destruct Hr as (row & l & Hin & ->).
  unfold traza, inventario in Hin.
  assert (Hall : Forall fila_dem
            (df_ordenado (df_base_materiales df_prod df_cap) (Fin hq) cf disp
                         true)).
  { apply Forall_forall. intros x Hx. eapply df_ordenado_dem; eauto. }
  assert (Hrow : fila_dem row).
  { rewrite Forall_forall in Hall. apply Hall.
    rewrite <- (bucle_fst (df_ordenado (df_base_materiales df_prod df_cap)
                                       (Fin hq) cf disp true) None cero cero).
    apply in_map_iff. exists (row, l). auto. }
  destruct (@bucle_dem _ Hall None cero cero row l nn_cero Hin)
    as (Hq & _ & Hf).
  destruct Hrow as (d & Hu & Hd & _ & Hhf & _).
  unfold fasig, fbase.
  cbn [fila_final_de costo Inv_Final_Und Inv_Inicial_Und].
  repeat split.
  - exact Hhf.
  - now rewrite Hu, Hd.
  - exact Hf.
  - rewrite Hf. now apply no_negativo_nn.
Qed.

Lemma siguiendo_demanda_produce_la_demanda_witness :
  let r := nth 1 (fst (calcular_escenario ejemplo_base (nz 8) (nz 1000)
                         (nq (1 # 100)) "Siguiendo Demanda" [] true))
               fila_final_nula in
  Unidades_A_Producir (fasig r) = Demanda_semanal (fbase r)
  /\ Inv_Final_Und r = Inv_Inicial_Und r.
Proof.
  intros r.
  destruct (@siguiendo_demanda_produce_la_demanda ejemplo_prod ejemplo_cap
              (nz 8) (nz 1000) (nq (1 # 100)) "Siguiendo Demanda" [] r)
    as (_ & H1 & H2 & _).
  - vm_compute. reflexivity.
  - apply nth_In. vm_compute. lia.
  - split; assumption.
Defined.

(* ================================================================= *)
(** ** Inventory and cost of goods sold are never negative *)

Lemma nn_nan_no_negativo (x : num) : nn_nan x -> (x <? cero)%num = false.
Proof.
  intros [-> | (q & -> & Hq)]; [reflexivity|].
  destruct (Fin q <? cero)%num eqn:E; auto.
  apply nlt_fin in E. exfalso. qc2q. lra.
Qed.

(** With nonnegative inputs no scenario reports a negative stock: in
    every row of the material table the cost of goods sold is a number
    that is not negative, and the closing inventory, in units and in
    value, is never below zero (it is a nonnegative number, or [nan] for
    a row without production rate). *)
Theorem inventario_nunca_negativo df_prod df_cap h cf tasa nombre disp modo r :
  entradas_no_negativas df_prod df_cap h cf disp = true ->
  In r (fst (calcular_escenario (df_base_materiales df_prod df_cap) h cf tasa
               nombre disp modo)) ->
  no_negativo (Costo_Mercancia_Vendida r) = true
  /\ (Inv_Final_Und r <? cero)%num = false
  /\ (Inv_Final_Valor r <? cero)%num = false
  /\ (isnan (Inv_Final_Und r) = false ->
      no_negativo (Inv_Final_Und r) = true)
  /\ (isnan (Inv_Final_Valor r) = false ->
      no_negativo (Inv_Final_Valor r) = true).
Proof.
  intros He Hr.
  destruct (df_final_ok df_prod df_cap h cf tasa nombre disp modo r He Hr)
    as (Hc & Hu & Hv).
  split; [now apply no_negativo_nn|].
  split; [now apply nn_nan_no_negativo|].
  split; [now apply nn_nan_no_negativo|].
  split; intros Hn.
  - destruct Hu as [E | Hu]; [rewrite E in Hn; discriminate|].
    now apply no_negativo_nn.
  - destruct Hv as [E | Hv]; [rewrite E in Hn; discriminate|].
    now apply no_negativo_nn.
Qed.

Lemma inventario_nunca_negativo_witness :
  let r := nth 1 (fst (calcular_escenario ejemplo_base (nz 8) (nz 1000)
                         (nq (1 # 100)) "Paro Programado" ejemplo_turnos false))
               fila_final_nula in
  no_negativo (Costo_Mercancia_Vendida r) = true
  /\ no_negativo (Inv_Final_Und r) = true
  /\ no_negativo (Inv_Final_Valor r) = true.
Proof.
  intros r.
  destruct (@inventario_nunca_negativo ejemplo_prod ejemplo_cap (nz 8)
              (nz 1000) (nq (1 # 100)) "Paro Programado" ejemplo_turnos false r)
    as (H1 & _ & _ & H2 & H3).
  - vm_compute. reflexivity.
  - apply nth_In. vm_compute. lia.
  - split; [exact H1|]. split; [apply H2 | apply H3]; vm_compute; reflexivity.
Defined.

(* ================================================================= *)
(** ** The weekly variations of the inventory value telescope *)

Lemma derivar_agr df_base h cf tasa nombre (l : list fila_agrupada) :
  forall previo, map agr (derivar df_base h cf tasa nombre previo l) = l.
Proof.
  induction l as [|a l IH]; intros previo; simpl; [reflexivity|].
  now rewrite IH.
Qed.

Lemma last_cons_default (A : Type) (l : list A) :
  forall x d : A, last (x :: l) d = last l x.
Proof.
  induction l as [|y l IH]; intros x d; [reflexivity|].
  change (last (x :: y :: l) d) with (last (y :: l) d).
  now rewrite (IH y d), (IH y x).
Qed.

Lemma last_map_fin (A : Type) (f : A -> num) (l : list A) :
  forall (d : A) (vs : list Qc) (p : Qc),
    l <> [] -> map f l = map Fin vs -> f (last l d) = Fin (last vs p).
Proof.
  induction l as [|x l IH]; intros d vs p Hne E; [congruence|].
  destruct vs as [|v vs]; [discriminate|].
  simpl in E. inversion E as [[Hx Hl]].
  rewrite !last_cons_default.
  destruct l as [|y l].
  - destruct vs; [|discriminate]. exact Hx.
  - apply IH; [discriminate | exact Hl].
Qed.

Lemma derivar_variacion df_base h cf tasa nombre (l : list fila_agrupada) :
  forall (vs : list Qc) (previo : num) (p : Qc),
    map agr_Inv_Final_Valor l = map Fin vs ->
    fillna (suma_valor_inicial_maestro df_base) previo = Fin p ->
    exists ds,
      map Variacion_inventario (derivar df_base h cf tasa nombre previo l)
      = map Fin ds
      /\ (p + qsum ds)%Qc = last vs p.
Proof.
  induction l as [|a l IH]; intros vs previo p E Hp.
  - destruct vs; [|discriminate]. exists []. split; [reflexivity|].
    simpl. ring.
  - destruct vs as [|v vs]; [discriminate|].
    simpl in E. inversion E as [[Ha Hl]].
    destruct (IH vs (agr_Inv_Final_Valor a) v Hl) as (ds & Hds & Hsum).
    { rewrite Ha. reflexivity. }
    exists ((v + - p)%Qc :: ds). split.
    + cbn [derivar map]. rewrite Hds. f_equal.
      cbn [fila_resumen_de Variacion_inventario]. rewrite Hp, Ha. reflexivity.
    + rewrite last_cons_default, <- Hsum. simpl. ring.
Qed.

(** Over the horizon of a scenario the weekly variations of the
    inventory value add up to the closing value of the last week minus
    the opening value of the master data: when that opening value and
    the closing values of the weeks are numbers, the column [Variación
    inventario] of the weekly table sums to [Inv_Final_Valor] of its last
    row minus the sum of the opening inventory values of the materials. *)
Theorem variacion_inventario_telescopica df_base h cf tasa nombre disp modo
    (m : Qc) (d : fila_resumen) :
  let resumen := snd (calcular_escenario df_base h cf tasa nombre disp modo) in
  suma_valor_inicial_maestro df_base = Fin m ->
  Forall (fun x => is_fin (agr_Inv_Final_Valor (agr x)) = true) resumen ->
  resumen <> [] ->
  suma (map Variacion_inventario resumen)
  = (agr_Inv_Final_Valor (agr (last resumen d)) - Fin m)%num
  /\ hd_error (map Inv_Previo_Calculo resumen) = Some (Fin m).
Proof.
  intros resumen Hm Hfin Hne.
  assert (Hvs : exists vs,
             map (fun x => agr_Inv_Final_Valor (agr x)) resumen = map Fin vs).
  { apply all_fin_map. apply Forall_forall. intros x Hx.
    apply in_map_iff in Hx. destruct Hx as (y & <- & Hy).
    rewrite Forall_forall in Hfin. now apply Hfin. }
  destruct Hvs as [vs Hvs].
  rewrite (@last_map_fin _ (fun x => agr_Inv_Final_Valor (agr x)) resumen d vs m
             Hne Hvs).
  unfold resumen in Hvs |- *. cbn [calcular_escenario snd] in Hvs |- *.
  set (l := ordenar _ (agrupado _)) in *.
  rewrite <- (map_map agr agr_Inv_Final_Valor), derivar_agr in Hvs.
  destruct (@derivar_variacion df_base h cf tasa nombre l vs NaN m Hvs)
    as (ds & Hds & Hsum).
  { unfold fillna. simpl. exact Hm. }
  split.
  - rewrite Hds, suma_fin. unfold nsub. cbn [nopp nadd]. f_equal.
    rewrite <- Hsum. ring.
  - destruct l as [|a l'] eqn:El.
    + exfalso. apply Hne. unfold resumen. cbn [calcular_escenario snd].
      fold l. rewrite El. reflexivity.
    + cbn [derivar map hd_error fila_resumen_de Inv_Previo_Calculo].
      unfold fillna. simpl. now rewrite Hm.
Qed.

Lemma variacion_inventario_telescopica_witness :
  let resumen := snd (calcular_escenario ejemplo_base (nz 8) (nz 1000)
                        (nq (1 # 100)) "Paro Programado" ejemplo_turnos false) in
  suma (map Variacion_inventario resumen)
  = (agr_Inv_Final_Valor
       (agr (last resumen
               (fila_resumen_de ejemplo_base (nz 8) (nz 1000) (nq (1 # 100))
                                "" NaN (agrupar "" []))))
     - Fin (qz 100))%num
  /\ hd_error (map Inv_Previo_Calculo resumen) = Some (Fin (qz 100)).
Proof.
  apply (@variacion_inventario_telescopica ejemplo_base (nz 8) (nz 1000)
           (nq (1 # 100)) "Paro Programado" ejemplo_turnos false (qz 100)).
  - apply num_same_eq. vm_compute. reflexivity.
  - repeat constructor.
  - vm_compute. discriminate.
Defined.

(* ================================================================= *)
(** ** One row per scenario and one row per week *)

Lemma unique_NoDup (l : list string) : NoDup (unique l).
Proof.
  induction l as [|x l IH]; simpl; constructor.
  - intros H. apply filter_In in H. destruct H as [_ H].
    rewrite String.eqb_refl in H. discriminate.
  - now apply NoDup_filter.
Qed.

Lemma filter_clave_presente (k : string) (l : list string) :
  NoDup l -> In k l -> filter (fun e => k =? e) l = [k].
Proof.
  intros Hnd Hk.
  pose proof (@filter_map_clave string (fun x => x) (fun x => x) k l
                (fun x => eq_refl) Hnd Hk) as H.
  now rewrite map_id in H.
Qed.

Lemma comparar_por_clave (semanal : list fila_resumen) :
  comparar semanal
  = map (fun k =>
           let g := filter (fun r => res_Escenario r =? k) semanal in
           let cmv := nansum (map (fun r => agr_Costo_Mercancia_Vendida (agr r)) g) in
           let capital := nansum (map Costo_Capital g) in
           let delta := snd (delta_de semanal k) in
           mk_comparativa k cmv (nansum (map EBITDA_CMV g)) capital delta
                          (cmv + capital + delta)%num)
        (claves (map res_Escenario semanal)).
Proof.
  unfold comparar, totales. rewrite flat_map_map_comp, map_as_flat_map.
  assert (H : forall keys,
            (forall k, In k keys -> In k (map res_Escenario semanal)) ->
            flat_map
              (fun x =>
                 let '(k, (cmv, ebitda, capital)) :=
                   (x, (nansum (map (fun r => agr_Costo_Mercancia_Vendida (agr r))
                                    (filter (fun r => res_Escenario r =? x) semanal)),
                        nansum (map EBITDA_CMV
                                    (filter (fun r => res_Escenario r =? x) semanal)),
                        nansum (map Costo_Capital
                                    (filter (fun r => res_Escenario r =? x) semanal)))) in
                 map (fun d => mk_comparativa k cmv ebitda capital (snd d)
                                              (cmv + capital + snd d)%num)
                     (filter (fun d => k =? fst d) (deltas semanal)))
              keys
            = flat_map
                (fun k =>
                   [let g := filter (fun r => res_Escenario r =? k) semanal in
                    let cmv := nansum (map (fun r => agr_Costo_Mercancia_Vendida (agr r)) g) in
                    let capital := nansum (map Costo_Capital g) in
                    let delta := snd (delta_de semanal k) in
                    mk_comparativa k cmv (nansum (map EBITDA_CMV g)) capital
                                   delta (cmv + capital + delta)%num])
                keys).
  { induction keys as [|k keys IH]; intros Hk; [reflexivity|].
    cbn [flat_map]. rewrite IH by (intros; apply Hk; now right). f_equal.
    unfold deltas. rewrite filter_map_swap.
    rewrite (filter_ext (fun x => k =? fst (delta_de semanal x))
                        (fun x => k =? x))
      by (intros; now rewrite delta_de_fst).
    rewrite filter_clave_presente.
    - reflexivity.
    - apply unique_NoDup.
    - apply unique_In. apply Hk. now left. }
  apply H. intros k Hk. exact (proj1 (claves_In _ _) Hk).
Qed.

Lemma nodup_sorted (R : string -> string -> Prop) (l : list string) :
  StronglySorted R l -> StronglySorted R (nodup string_dec l).
Proof.
  induction 1 as [|x l Hl IH Hx]; simpl; [constructor|].
  destruct (in_dec string_dec x l); auto.
  constructor; auto. apply Forall_forall. intros y Hy.
  apply nodup_In in Hy. rewrite Forall_forall in Hx. auto.
Qed.

Lemma claves_sorted (l : list string) :
  StronglySorted (fun a b => leb_str a b = true) (claves l).
Proof.
  unfold claves. apply nodup_sorted. apply ordenar_sorted.
  - apply leb_str_total.
  - apply leb_str_trans.
Qed.

(** The comparison table has one row per scenario: the scenario names
    of [tabla_comparativa] are the distinct names of the weekly table,
    each once, in ascending order of the names (the order of the group
    keys, which the inner merge with the deltas keeps). *)
Theorem comparativa_una_fila_por_escenario (semanal : list fila_resumen) :
  map comp_Escenario (comparar semanal) = claves (map res_Escenario semanal)
  /\ NoDup (map comp_Escenario (comparar semanal))
  /\ StronglySorted (fun a b => leb_str a b = true)
                    (map comp_Escenario (comparar semanal))
  /\ List.length (comparar semanal)
     = List.length (unique (map res_Escenario semanal)).
Proof.
  assert (E : map comp_Escenario (comparar semanal)
              = claves (map res_Escenario semanal)).
  { rewrite comparar_por_clave, map_map. apply map_id. }
  rewrite E. repeat split.
  - apply claves_NoDup.
  - apply claves_sorted.
  - rewrite <- (length_map comp_Escenario), E.
    apply Nat.le_antisymm; apply NoDup_incl_length;
      try apply claves_NoDup; try apply unique_NoDup;
      intros k Hk.
    + apply unique_In. exact (proj1 (claves_In _ _) Hk).
    + apply claves_In. exact (proj1 (unique_In _ _) Hk).
Qed.

Lemma semanas_df_final df_base h cf tasa nombre disp modo (k : string) :
  In k (map (fun r => Semana (fbase r))
            (fst (calcular_escenario df_base h cf tasa nombre disp modo)))
  <-> In k (map Semana df_base).
Proof.
  pose proof (df_final_asignacion df_base h cf tasa nombre disp modo) as Hp.
  rewrite <- (map_map fasig (fun a => Semana (base a))).
  split; intros H; apply in_map_iff in H; destruct H as (a & <- & Ha).
  - apply (Permutation_in _ Hp) in Ha. apply in_asignacion in Ha.
    apply in_map. tauto.
  - destruct (@merge_left_covers _ _ _ (fun b s => Semana b =? sem_Semana s)
                asignar df_base (resumen_semanal h df_base disp modo) a Ha)
      as [os Hos].
    fold (asignacion df_base (resumen_semanal h df_base disp modo)) in Hos.
    apply (Permutation_in _ (Permutation_sym Hp)) in Hos.
    apply in_map_iff. exists (asignar a os). split; [reflexivity | exact Hos].
Qed.

(** The weekly table of a scenario has one row per week of the demand
    sheet: its weeks are the distinct weeks of the base table, each
    once, and its rows come in ascending order of the numeric week code
    (rows whose code is no number last). *)
Theorem resumen_una_fila_por_semana df_base h cf tasa nombre disp modo :
  let resumen := snd (calcular_escenario df_base h cf tasa nombre disp modo) in
  NoDup (map (fun x => agr_Semana (agr x)) resumen)
  /\ (forall k, In k (map (fun x => agr_Semana (agr x)) resumen)
                <-> In k (map Semana df_base))
  /\ StronglySorted
       (fun a b => leb_nan_last (agr_Semana_Num (agr a))
                                (agr_Semana_Num (agr b)) = true)
       resumen
  /\ List.length resumen = List.length (claves (map Semana df_base)).
Proof.
  intros resumen.
  set (F := fst (calcular_escenario df_base h cf tasa nombre disp modo)).
  set (orden := fun a b => leb_nan_last (agr_Semana_Num a) (agr_Semana_Num b)).
  assert (Hagr : map agr resumen = ordenar orden (agrupado F))
    by apply derivar_agr.
  assert (Hsem : map agr_Semana (agrupado F)
                 = claves (map (fun r => Semana (fbase r)) F)).
  { unfold agrupado. rewrite map_map. apply map_id. }
  assert (Hperm : Permutation (map (fun x => agr_Semana (agr x)) resumen)
                              (claves (map (fun r => Semana (fbase r)) F))).
  { rewrite <- (map_map agr agr_Semana), Hagr, <- Hsem.
    apply Permutation_map. apply ordenar_perm. }
  assert (Hin : forall k, In k (map (fun x => agr_Semana (agr x)) resumen)
                          <-> In k (map Semana df_base)).
  { intros k. rewrite <- (semanas_df_final df_base h cf tasa nombre disp modo k).
    fold F. split; intros H.
    - apply (proj1 (claves_In _ k)).
      eapply Permutation_in; [exact Hperm | exact H].
    - eapply Permutation_in; [apply Permutation_sym, Hperm|].
      apply (proj2 (claves_In _ k)). exact H. }
  assert (Hnd : NoDup (map (fun x => agr_Semana (agr x)) resumen)).
  { eapply Permutation_NoDup; [apply Permutation_sym, Hperm|].
    apply claves_NoDup. }
  repeat split.
  - exact Hnd.
  - apply Hin.
  - apply Hin.
  - apply (@StronglySorted_map_inv _ _
             (fun a b => orden a b = true) agr resumen).
    rewrite Hagr. apply ordenar_sorted.
    + intros a b. apply leb_nan_last_total.
    + intros a b c. apply leb_nan_last_trans.
  - rewrite <- (length_map (fun x => agr_Semana (agr x))).
    apply Nat.le_antisymm; apply NoDup_incl_length;
      try exact Hnd; try apply claves_NoDup; intros k Hk.
    + apply claves_In. now apply Hin.
    + apply Hin. exact (proj1 (claves_In _ _) Hk).
Qed.

(* ================================================================= *)
(** ** The guard of the fixed unit cost *)

Lemma nadd_cero_r (x : num) : (x + cero)%num = x.
Proof.
  destruct x as [q| | |]; try reflexivity.
  unfold cero. cbn [nadd]. f_equal. ring.
Qed.

Lemma fijo_unitario_fin (c : Qc) (U : num) :
  is_fin (if (U >? cero)%num then (Fin c / U)%num else cero) = true.
Proof.
  destruct U as [u| | |]; try reflexivity.
  destruct (Fin u >? cero)%num eqn:E; [|reflexivity].
  apply ngt_cero_fin in E. rewrite ndiv_fin by now apply Qclt_neq.
  reflexivity.
Qed.

(** The fixed unit cost is always a number.  In every scenario run with
    a fixed cost that is a number, the fixed unit cost of every row is
    a number, and so is its total unit cost when its variable unit cost
    is one; and in a week whose rows produce numbers of units that add up
    to nothing, the fixed unit cost is zero and the total unit cost is
    the variable unit cost: the division of line 212 is never made by
    zero. *)
Theorem costo_fijo_unitario_guardado df_base h (c : Qc) tasa nombre disp modo r :
  let F := fst (calcular_escenario df_base h (Fin c) tasa nombre disp modo) in
  In r F ->
  is_fin (Costo_fijo_unitario (costo r)) = true
  /\ Costo_unitario_total (costo r)
     = (Costo_variable_unitario (fbase r) + Costo_fijo_unitario (costo r))%num
  /\ (is_fin (Costo_variable_unitario (fbase r)) = true ->
      is_fin (Costo_unitario_total (costo r)) = true)
  /\ (let filas := filas_semana (Semana (fbase r)) F in
      (forall x, In x filas -> is_fin (Unidades_A_Producir (fasig x)) = true) ->
      nansum (map (fun x => Unidades_A_Producir (fasig x)) filas) = cero ->
      Costo_fijo_unitario (costo r) = cero
      /\ Costo_unitario_total (costo r) = Costo_variable_unitario (fbase r)).
Proof.
  intros F Hr.
  pose proof (@fila_final_en_costos df_base h (Fin c) tasa nombre disp modo r Hr)
    as Hc.
  pose proof (@costo_fijo_unitario_fila _ _ _ Hc) as Hcfu. cbv zeta in Hcfu.
  assert (Hfin : is_fin (Costo_fijo_unitario (costo r)) = true)
    by (rewrite Hcfu; apply fijo_unitario_fin).
  assert (Htot : Costo_unitario_total (costo r)
                 = (Costo_variable_unitario (fbase r)
                    + Costo_fijo_unitario (costo r))%num).
  { apply in_costos in Hc. destruct Hc as (_ & t & _ & _ & E).
    unfold fbase. rewrite E. reflexivity. }
  split; [exact Hfin|]. split; [exact Htot|]. split.
  - intros Hv. rewrite Htot.
    destruct (Costo_variable_unitario (fbase r)); try discriminate.
    destruct (Costo_fijo_unitario (costo r)); try discriminate. reflexivity.
  - intros filas Hf Hu.
    assert (Hxs : exists xs,
               map (fun x => Unidades_A_Producir (fasig x)) filas = map Fin xs).
    { apply all_fin_map. apply Forall_forall. intros y Hy.
      apply in_map_iff in Hy. destruct Hy as (x & <- & Hx). now apply Hf. }
    destruct Hxs as [xs Hxs].
    pose proof (filas_semana_asignacion df_base h (Fin c) tasa nombre disp modo
                  (Semana (fbase r))) as Hperm.
    fold F in Hperm. fold filas in Hperm.
    apply (Permutation_map Unidades_A_Producir), Permutation_sym in Hperm.
    rewrite map_map, Hxs in Hperm. apply nansum_perm_fin in Hperm.
    rewrite Hxs, nansum_fin in Hu.
    change (Semana (base (asig (costo r)))) with (Semana (fbase r)) in Hcfu.
    rewrite Hperm, Hu in Hcfu.
    assert (E : Costo_fijo_unitario (costo r) = cero) by exact Hcfu.
    split; [exact E|]. rewrite Htot, E. apply nadd_cero_r.
Qed.

Lemma costo_fijo_unitario_guardado_witness :
  let F := fst (calcular_escenario
                  (df_base_materiales prod_sin_demanda ejemplo_cap) (nz 8)
                  (Fin (qz 1000)) (nq (1 # 100)) "Paro Programado"
                  ejemplo_turnos false) in
  let r := nth 0 F fila_final_nula in
  is_fin (Costo_fijo_unitario (costo r)) = true
  /\ Costo_fijo_unitario (costo r) = cero
  /\ Costo_unitario_total (costo r) = Costo_variable_unitario (fbase r).
Proof.
  intros F r.
  destruct (@costo_fijo_unitario_guardado
              (df_base_materiales prod_sin_demanda ejemplo_cap) (nz 8)
              (qz 1000) (nq (1 # 100)) "Paro Programado" ejemplo_turnos false r)
    as (H1 & _ & _ & H2).
  - apply nth_In. vm_compute. lia.
  - split; [exact H1|]. apply H2.
    + intros x [<- | []]. reflexivity.
    + apply num_same_eq. vm_compute. reflexivity.
Defined.

(* ================================================================= *)
(** ** Pallets *)

Lemma ndiv_uno (x : num) : (x / uno)%num = x.
Proof.
  destruct x as [q| | |]; try reflexivity.
  unfold uno. rewrite ndiv_fin by discriminate. f_equal.
  field; discriminate.
Qed.

Lemma replace_0_1_no_cero (x : num) : neqb (replace_0_1 x) cero = false.
Proof.
  unfold replace_0_1. destruct (neqb x cero) eqn:E; [reflexivity | exact E].
Qed.

Lemma fila_final_asignada df_base h cf tasa nombre disp modo r :
  In r (fst (calcular_escenario df_base h cf tasa nombre disp modo)) ->
  In (fbase r) df_base /\ exists s, fasig r = asignar (fbase r) s.
Proof.
  intros Hr. apply fila_final_en_costos in Hr. apply in_costos in Hr.
  destruct Hr as [Ha _]. apply in_asignacion in Ha.
  destruct Ha as [Hb [(s & _ & _ & E) | (_ & E)]]; split; auto;
    unfold fasig, fbase; eauto.
Qed.

(** The pallet columns never divide by zero.  In every scenario run the
    pallet size used on a row (line 206) is never zero; with a pallet
    size of 0 in the capacity sheet the pallets of the row are its
    units, and the extra pallets its units of adjustment. *)
Theorem pallets_sin_division_por_cero df_base h cf tasa nombre disp modo r :
  In r (fst (calcular_escenario df_base h cf tasa nombre disp modo)) ->
  neqb (Unidades_por_pallet_1 (fasig r)) cero = false
  /\ Pallets_Requeridos (fasig r)
     = (Unidades_A_Producir (fasig r) / Unidades_por_pallet_1 (fasig r))%num
  /\ (Unidades_por_pallet (fbase r) = cero ->
      Pallets_Requeridos (fasig r) = Unidades_A_Producir (fasig r)
      /\ Pallets_Extra (fasig r) = Unidades_Ajuste (fasig r)).
Proof.
  intros Hr. apply fila_final_asignada in Hr. destruct Hr as (_ & s & E).
  rewrite E. unfold asignar.
  cbn [Unidades_por_pallet_1 Pallets_Requeridos Pallets_Extra
       Unidades_A_Producir Unidades_Ajuste].
  split; [apply replace_0_1_no_cero|]. split; [reflexivity|].
  intros ->. change (replace_0_1 cero) with uno. now rewrite !ndiv_uno.
Qed.

Lemma pallets_sin_division_por_cero_witness :
  let r := nth 0 (fst (calcular_escenario
                         (df_base_materiales ejemplo_prod
                            [mk_cap "1001568" (nz 10) (nz 0) (nz 20) (nz 100)
                                    (nz 2) (nz 50)])
                         (nz 8) (nz 1000) (nq (1 # 100)) "Paro Programado"
                         ejemplo_turnos false))
               fila_final_nula in
  neqb (Unidades_por_pallet_1 (fasig r)) cero = false
  /\ Pallets_Requeridos (fasig r) = Unidades_A_Producir (fasig r).
Proof.
  intros r.
  destruct (@pallets_sin_division_por_cero
              (df_base_materiales ejemplo_prod
                 [mk_cap "1001568" (nz 10) (nz 0) (nz 20) (nz 100)
                         (nz 2) (nz 50)])
              (nz 8) (nz 1000) (nq (1 # 100)) "Paro Programado" ejemplo_turnos
              false r) as (H1 & _ & H2).
  - apply nth_In. vm_compute. lia.
  - split; [exact H1|]. apply H2. apply num_same_eq. vm_compute. reflexivity.
Defined.

(* ================================================================= *)
(** ** Optional columns of the capacity sheet *)

Lemma nth_repeat_cero (n i : nat) :
  (i < n)%nat -> nth i (repeat cero n) NaN = cero.
Proof.
  revert i. induction n as [|n IH]; intros i Hi; [lia|].
  destruct i as [|i]; [reflexivity|]. simpl. apply IH. lia.
Qed.

Lemma in_completar_capacidad (hoja : hoja_cap) (c : fila_cap) :
  In c (completar_capacidad hoja) ->
  exists i, (i < List.length (hc_Material hoja))%nat
    /\ cap_Material c = nth i (hc_Material hoja) ""
    /\ cap_Unidades_por_hora c = nth i (hc_Unidades_por_hora hoja) NaN
    /\ (hc_Unidades_por_pallet hoja = None -> cap_Unidades_por_pallet c = cero)
    /\ (hc_Inventario_inicial hoja = None -> cap_Inventario_inicial c = cero)
    /\ (hc_Valor_inventario_inicial hoja = None ->
        cap_Valor_inventario_inicial c = cero)
    /\ (hc_Costo_variable_unitario hoja = None ->
        cap_Costo_variable_unitario c = cero)
    /\ (hc_Inventario_promedio hoja = None -> cap_Inventario_promedio c = cero).
Proof.
  unfold completar_capacidad. intros H. apply in_map_iff in H.
  destruct H as (i & <- & Hi). apply in_seq in Hi. exists i.
  split; [lia|]. cbn [cap_Material cap_Unidades_por_hora
    cap_Unidades_por_pallet cap_Inventario_inicial cap_Valor_inventario_inicial
    cap_Costo_variable_unitario cap_Inventario_promedio].
  repeat split; intros ->; cbn [columna_o_ceros]; apply nth_repeat_cero; lia.
Qed.
